(** * Browser daemon and client: session lifecycle and command dispatch

    A shallow embedding of [browser-daemon.js] and [browser-client.js].

    The daemon's asynchronous functions are written once, as programs over
    the operations the JavaScript performs on its collaborators (the
    Playwright engine, the file system, the console and the process).  A
    program is a finite tree: running it to completion gives the behaviour
    of one dispatch on an otherwise idle daemon, and resuming several
    programs alternately at their engine calls gives the behaviour of
    overlapping interval callbacks on Node's single thread. *)

From Stdlib Require Import String Ascii List ZArith Bool Lia DecimalString.
Import ListNotations.

Local Open Scope string_scope.
Local Open Scope Z_scope.

(** ** JavaScript values *)

(** The values that travel through the channel and the engine.  Numbers are
    integers: the programs only pass them along. *)
#[local] Unset Elimination Schemes.
Inductive jsval : Type :=
| JUndef
| JNull
| JBool (b : bool)
| JNum (n : Z)
| JStr (s : string)
| JArr (items : list jsval)
| JObj (fields : list (string * jsval)).
#[local] Set Elimination Schemes.

(** A completed call either returns or throws an [Error] with a message. *)
Inductive result (A : Type) : Type :=
| Ok (a : A)
| Thrown (msg : string).
Arguments Ok {A} a.
Arguments Thrown {A} msg.

Fixpoint lookup_field (k : string) (fields : list (string * jsval)) : jsval :=
  match fields with
  | [] => JUndef
  | (k', v) :: rest => if String.eqb k k' then v else lookup_field k rest
  end.

(** [o.k]: reading a property of [undefined] or [null] throws a TypeError
    (V8's wording); any other value without the property gives [undefined]. *)
Definition prop (k : string) (o : jsval) : result jsval :=
  match o with
  | JUndef => Thrown ("Cannot read properties of undefined (reading '" ++ k ++ "')")
  | JNull => Thrown ("Cannot read properties of null (reading '" ++ k ++ "')")
  | JObj fields => Ok (lookup_field k fields)
  | _ => Ok JUndef
  end.

(** [const { action, data } = command] *)
Definition destructure_command (command : jsval) : result (jsval * jsval) :=
  match command with
  | JUndef => Thrown "Cannot destructure property 'action' of 'command' as it is undefined."
  | JNull => Thrown "Cannot destructure property 'action' of 'command' as it is null."
  | JObj fields => Ok (lookup_field "action" fields, lookup_field "data" fields)
  | _ => Ok (JUndef, JUndef)
  end.

(** [String.prototype.includes] *)
Fixpoint starts_with (needle s : string) : bool :=
  match needle, s with
  | EmptyString, _ => true
  | String a n', String b s' => Ascii.eqb a b && starts_with n' s'
  | String _ _, EmptyString => false
  end.

Fixpoint includes (s needle : string) : bool :=
  starts_with needle s
  || match s with
     | EmptyString => false
     | String _ s' => includes s' needle
     end.

(** A text between double quotes. *)
Definition quote : string := String (ascii_of_nat 34) "".
Definition quoted (s : string) : string := quote ++ s ++ quote.

(** [String.prototype.toUpperCase], on the ASCII letters. *)
Definition upper_ascii (c : ascii) : ascii :=
  let n := nat_of_ascii c in
  if (Nat.leb 97 n && Nat.leb n 122)%bool then ascii_of_nat (n - 32) else c.

Fixpoint toUpperCase (s : string) : string :=
  match s with
  | EmptyString => EmptyString
  | String c s' => String (upper_ascii c) (toUpperCase s')
  end.

(** ** Console log entries and page events *)

Record Location : Type := { loc_url : string; lineNumber : Z }.

(** [{ type, text, location }] for console messages and
    [{ type: 'pageerror', text, stack }] for page errors. *)
Record ConsoleLogEntry : Type :=
  { type : string; text : string; location : option Location; stack : option string }.

(** What the engine reports to the listeners bound by [page.on]. *)
Inductive PageEvent : Type :=
| ConsoleMsg (msg_type msg_text : string) (msg_location : Location)
| PageError (message err_stack : string).

(** ** Responses and channel files *)

(** The objects handed to [writeResult]. *)
Inductive Response : Type :=
| RNavigated (url title : string)                       (* { success: true, url, title } *)
| RResult (value : jsval)                               (* { success: true, result } *)
| RLogs (logs : list ConsoleLogEntry)                   (* { success: true, logs } *)
| RSuccess                                              (* { success: true } *)
| RStatus (url title : string) (consoleLogsCount : nat) (* { success: true, url, title, consoleLogsCount } *)
| RResized (width height : jsval)                       (* { success: true, width, height } *)
| RError (error : string).                              (* { error } *)

(** [result.success] as the client tests it. *)
Definition success (r : Response) : bool :=
  match r with
  | RError _ => false
  | _ => true
  end.

Inductive File : Type := COMMAND_FILE | RESULT_FILE | READY_FILE.

(** The three files of the daemon's directory; [None] is an absent file.
    The result file holds the object that was serialised into it. *)
Record Files : Type :=
  { command_file : option string;
    result_file : option Response;
    ready_file : option string }.

Definition no_files : Files :=
  {| command_file := None; result_file := None; ready_file := None |}.

Definition file_exists (f : File) (fs : Files) : bool :=
  match f with
  | COMMAND_FILE => match command_file fs with Some _ => true | None => false end
  | RESULT_FILE => match result_file fs with Some _ => true | None => false end
  | READY_FILE => match ready_file fs with Some _ => true | None => false end
  end.

Definition unlink (f : File) (fs : Files) : Files :=
  match f with
  | COMMAND_FILE => {| command_file := None; result_file := result_file fs; ready_file := ready_file fs |}
  | RESULT_FILE => {| command_file := command_file fs; result_file := None; ready_file := ready_file fs |}
  | READY_FILE => {| command_file := command_file fs; result_file := result_file fs; ready_file := None |}
  end.

Definition write_command (d : string) (fs : Files) : Files :=
  {| command_file := Some d; result_file := result_file fs; ready_file := ready_file fs |}.

Definition write_result (r : Response) (fs : Files) : Files :=
  {| command_file := command_file fs; result_file := Some r; ready_file := ready_file fs |}.

Definition write_ready (d : string) (fs : Files) : Files :=
  {| command_file := command_file fs; result_file := result_file fs; ready_file := Some d |}.

(** ** The engine: the external collaborator *)

Definition handle : Type := nat.

Record LaunchConfig : Type :=
  { channel : string; headless : bool; args : list string }.

Record ScreenSize : Type :=
  { availWidth : Z; availHeight : Z; innerWidth : Z; innerHeight : Z }.

(** Where in the daemon a [page.goto] is issued. *)
Inductive GotoSite : Type :=
| AtNavigate   (* executeCommandInner, case 'navigate' *)
| AtRestore.   (* ensureBrowserReady, restoring lastURL *)

(** Playwright, as a black box with a state of its own.  An asynchronous
    call returns the new state, the console and page-error events the bound
    listeners received while the call was pending, and how the call
    completed. *)
Record Engine : Type :=
  { world : Type;
    chromium_launch : LaunchConfig -> world -> world * list PageEvent * result handle;
    browser_isConnected : handle -> world -> bool;
    browser_close : handle -> world -> world * list PageEvent * result unit;
    browser_newContext : handle -> world -> world * list PageEvent * result handle;
    context_newPage : handle -> world -> world * list PageEvent * result handle;
    page_screen : handle -> world -> world * list PageEvent * result ScreenSize;
    page_setViewportSize : handle -> jsval -> jsval -> world -> world * list PageEvent * result unit;
    page_goto : handle -> jsval -> string -> Z -> world -> world * list PageEvent * result unit;
    page_url : handle -> world -> string;
    page_title : handle -> world -> world * list PageEvent * result string;
    page_evaluate : handle -> jsval -> world -> world * list PageEvent * result jsval;
    page_on : handle -> world -> world;
    (** [JSON.parse] of a command file's text *)
    JSON_parse : string -> result jsval }.

(** ** Operations and programs *)

(** Every call the daemon makes on a collaborator, indexed by what the call
    gives back. *)
Inductive Op : Type -> Type :=
(* engine, asynchronous: the caller awaits them *)
| Launch (cfg : LaunchConfig) : Op (result handle)
| Close (b : handle) : Op (result unit)
| NewContext (b : handle) : Op (result handle)
| NewPage (c : handle) : Op (result handle)
| Screen (p : handle) : Op (result ScreenSize)
| SetViewportSize (p : handle) (w h : jsval) : Op (result unit)
| Goto (site : GotoSite) (p : handle) (url : jsval) (waitUntil : string) (timeout : Z) : Op (result unit)
| Title (p : handle) : Op (result string)
| Evaluate (p : handle) (code : jsval) : Op (result jsval)
(* engine, synchronous *)
| IsConnected (b : handle) : Op bool
| Url (p : handle) : Op string
| On (p : handle) : Op unit
(* file system *)
| ExistsSync (f : File) : Op bool
| ReadCommandSync : Op (result string)
| UnlinkSync (f : File) : Op (result unit)
| WriteResultSync (r : Response) : Op unit
| WriteReadySync (d : string) : Op unit
(* console and process *)
| ConsoleLog (args : list jsval) : Op unit
| ConsoleError (args : list jsval) : Op unit
| SetInterval (ms : Z) : Op unit
| OnSigint : Op unit.

(** The calls at which an [async] function is suspended. *)
Definition is_await {X : Type} (op : Op X) : bool :=
  match op with
  | Launch _ | Close _ | NewContext _ | NewPage _ | Screen _
  | SetViewportSize _ _ _ | Goto _ _ _ _ _ | Title _ | Evaluate _ _ => true
  | _ => false
  end.

(** The module-level variables of the daemon. *)
Record Vars : Type :=
  { browser : option handle;
    context : option handle;
    page : option handle;
    consoleLogs : list ConsoleLogEntry;
    isRestarting : bool;
    lastURL : string }.

Definition initial_vars : Vars :=
  {| browser := None; context := None; page := None;
     consoleLogs := []; isRestarting := false; lastURL := "about:blank" |}.

Definition set_browser (b : option handle) (v : Vars) : Vars :=
  {| browser := b; context := context v; page := page v;
     consoleLogs := consoleLogs v; isRestarting := isRestarting v; lastURL := lastURL v |}.
Definition set_context (c : option handle) (v : Vars) : Vars :=
  {| browser := browser v; context := c; page := page v;
     consoleLogs := consoleLogs v; isRestarting := isRestarting v; lastURL := lastURL v |}.
Definition set_page (p : option handle) (v : Vars) : Vars :=
  {| browser := browser v; context := context v; page := p;
     consoleLogs := consoleLogs v; isRestarting := isRestarting v; lastURL := lastURL v |}.
Definition set_consoleLogs (l : list ConsoleLogEntry) (v : Vars) : Vars :=
  {| browser := browser v; context := context v; page := page v;
     consoleLogs := l; isRestarting := isRestarting v; lastURL := lastURL v |}.
Definition set_isRestarting (r : bool) (v : Vars) : Vars :=
  {| browser := browser v; context := context v; page := page v;
     consoleLogs := consoleLogs v; isRestarting := r; lastURL := lastURL v |}.
Definition set_lastURL (u : string) (v : Vars) : Vars :=
  {| browser := browser v; context := context v; page := page v;
     consoleLogs := consoleLogs v; isRestarting := isRestarting v; lastURL := u |}.

(** [consoleLogs.push(log)] *)
Definition push_log (e : ConsoleLogEntry) (v : Vars) : Vars :=
  set_consoleLogs (consoleLogs v ++ [e]) v.

(** A daemon function: a tree of reads and writes of the module variables
    and of calls on the collaborators, ending in a return, a thrown error or
    [process.exit]. *)
Inductive Prog (A : Type) : Type :=
| Ret (a : A)
| Throw (msg : string)
| Exit (code : Z)
| Get (k : Vars -> Prog A)
| Put (f : Vars -> Vars) (k : Prog A)
| Vis {X : Type} (op : Op X) (k : X -> Prog A).
Arguments Ret {A} a.
Arguments Throw {A} msg.
Arguments Exit {A} code.
Arguments Get {A} k.
Arguments Put {A} f k.
Arguments Vis {A X} op k.

Fixpoint bind {A B : Type} (p : Prog A) (f : A -> Prog B) : Prog B :=
  match p with
  | Ret a => f a
  | Throw m => Throw m
  | Exit c => Exit c
  | Get k => Get (fun v => bind (k v) f)
  | Put g k => Put g (bind k f)
  | Vis op k => Vis op (fun x => bind (k x) f)
  end.

(** [try { p } catch (err) { h err }] and [p.catch(h)] *)
Fixpoint try_catch {A : Type} (p : Prog A) (h : string -> Prog A) : Prog A :=
  match p with
  | Ret a => Ret a
  | Throw m => h m
  | Exit c => Exit c
  | Get k => Get (fun v => try_catch (k v) h)
  | Put g k => Put g (try_catch k h)
  | Vis op k => Vis op (fun x => try_catch (k x) h)
  end.

(** [try { p } finally { q }] *)
Fixpoint finally {A : Type} (p : Prog A) (q : Prog unit) : Prog A :=
  match p with
  | Ret a => bind q (fun _ => Ret a)
  | Throw m => bind q (fun _ => Throw m)
  | Exit c => Exit c
  | Get k => Get (fun v => finally (k v) q)
  | Put g k => Put g (finally k q)
  | Vis op k => Vis op (fun x => finally (k x) q)
  end.

Declare Scope prog_scope.
Delimit Scope prog_scope with prog.
Notation "x <- p ;; q" := (bind p (fun x => q))
  (at level 61, p at next level, right associativity) : prog_scope.
Notation "p ;; q" := (bind p (fun _ => q))
  (at level 61, right associativity) : prog_scope.
Local Open Scope prog_scope.

(** A call whose completion is returned as it is. *)
Definition perform_op {X : Type} (op : Op X) : Prog X := Vis op Ret.

(** A call that may throw into the caller. *)
Definition call {X : Type} (op : Op (result X)) : Prog X :=
  Vis op (fun r => match r with Ok x => Ret x | Thrown m => Throw m end).

Definition of_result {X : Type} (r : result X) : Prog X :=
  match r with Ok x => Ret x | Thrown m => Throw m end.

Definition assign (f : Vars -> Vars) : Prog unit := Put f (Ret tt).

Definition console_log (args : list jsval) : Prog unit := perform_op (ConsoleLog args).
Definition console_error (args : list jsval) : Prog unit := perform_op (ConsoleError args).

(** The decimal notation of an integer. *)
Definition string_of_Z (n : Z) : string := NilZero.string_of_int (Z.to_int n).

(** [String(v)], as string concatenation coerces a value.  An array is
    joined with commas, its [null] and [undefined] elements giving the empty
    text.  The text of a number is its decimal notation, which is what
    JavaScript prints for the integers up to 2^53; past them JavaScript
    rounds the digits, and from 10^21 on it uses the exponent notation,
    neither of which is modelled: see [exactly_printed]. *)
Fixpoint js_string (v : jsval) : string :=
  match v with
  | JUndef => "undefined"
  | JNull => "null"
  | JBool true => "true"
  | JBool false => "false"
  | JNum n => string_of_Z n
  | JStr s => s
  | JArr items =>
      (fix join (l : list jsval) : string :=
         match l with
         | [] => ""
         | [x] => match x with JUndef | JNull => "" | _ => js_string x end
         | x :: rest =>
             match x with JUndef | JNull => "" | _ => js_string x end ++ "," ++ join rest
         end) items
  | JObj _ => "[object Object]"
  end.

(** The values whose coercion to a string [js_string] gives exactly: the
    numbers are integers up to 2^53 in absolute value, and no object has a
    field [toString] of its own, which would be found in the place of
    [Object.prototype.toString] and, not being a function, make the coercion
    throw. *)
Fixpoint exactly_printed (v : jsval) : bool :=
  match v with
  | JNum n => Z.abs n <=? 2 ^ 53
  | JArr items =>
      (fix all (l : list jsval) : bool :=
         match l with
         | [] => true
         | x :: rest => exactly_printed x && all rest
         end) items
  | JObj fields => negb (existsb (fun kv => String.eqb (fst kv) "toString") fields)
  | _ => true
  end.

(** ** What the daemon did: the trace *)

(** The calls made on the collaborators with what they gave back, the
    events the listeners received and the exit of the process; the most
    recent entry is the head of the list. *)
Inductive Event : Type :=
| Ev {X : Type} (op : Op X) (reply : X)
| Fired (e : PageEvent)
| Exited (code : Z).

(** How a program ended. *)
Inductive outcome (A : Type) : Type :=
| Done (a : A)
| Raised (msg : string)
| Halted (code : Z).
Arguments Done {A} a.
Arguments Raised {A} msg.
Arguments Halted {A} code.

Section Daemon.

Variable E : Engine.

(** ** The daemon process *)

Record St : Type :=
  { the_world : world E;
    vars : Vars;
    files : Files;
    interval : option Z;      (* the period given to setInterval, once set *)
    sigint_bound : bool;      (* process.on('SIGINT', ...) was called *)
    exit_code : option Z;     (* process.exit was called *)
    trace : list Event }.

Definition with_world (w : world E) (s : St) : St :=
  {| the_world := w; vars := vars s; files := files s; interval := interval s;
     sigint_bound := sigint_bound s; exit_code := exit_code s; trace := trace s |}.
Definition with_vars (v : Vars) (s : St) : St :=
  {| the_world := the_world s; vars := v; files := files s; interval := interval s;
     sigint_bound := sigint_bound s; exit_code := exit_code s; trace := trace s |}.
Definition with_files (f : Files) (s : St) : St :=
  {| the_world := the_world s; vars := vars s; files := f; interval := interval s;
     sigint_bound := sigint_bound s; exit_code := exit_code s; trace := trace s |}.
Definition with_interval (i : option Z) (s : St) : St :=
  {| the_world := the_world s; vars := vars s; files := files s; interval := i;
     sigint_bound := sigint_bound s; exit_code := exit_code s; trace := trace s |}.
Definition with_sigint (b : bool) (s : St) : St :=
  {| the_world := the_world s; vars := vars s; files := files s; interval := interval s;
     sigint_bound := b; exit_code := exit_code s; trace := trace s |}.
Definition with_exit (c : option Z) (s : St) : St :=
  {| the_world := the_world s; vars := vars s; files := files s; interval := interval s;
     sigint_bound := sigint_bound s; exit_code := c; trace := trace s |}.
Definition with_trace (t : list Event) (s : St) : St :=
  {| the_world := the_world s; vars := vars s; files := files s; interval := interval s;
     sigint_bound := sigint_bound s; exit_code := exit_code s; trace := t |}.

Definition record (e : Event) (s : St) : St := with_trace (e :: trace s) s.

(** The process as Node starts it, the engine being in state [w] and the
    directory holding the files [fs]. *)
Definition fresh (w : world E) (fs : Files) : St :=
  {| the_world := w; vars := initial_vars; files := fs; interval := None;
     sigint_bound := false; exit_code := None; trace := [] |}.

Definition enoent (f : File) : string :=
  "ENOENT: no such file or directory, "
  ++ match f with
     | COMMAND_FILE => "'.browser-command'"
     | RESULT_FILE => "'.browser-result'"
     | READY_FILE => "'.browser-ready'"
     end.

Definition engine_call {X : Type}
  (f : world E -> world E * list PageEvent * result X) (s : St)
  : St * list PageEvent * result X :=
  let '(w, evs, r) := f (the_world s) in (with_world w s, evs, r).

(** The effect of one call on the process and its collaborators, with the
    events the engine delivered while it was pending. *)
Definition exec_op {X : Type} (op : Op X) : St -> St * list PageEvent * X :=
  match op in Op X return St -> St * list PageEvent * X with
  | Launch cfg => engine_call (chromium_launch E cfg)
  | Close b => engine_call (browser_close E b)
  | NewContext b => engine_call (browser_newContext E b)
  | NewPage c => engine_call (context_newPage E c)
  | Screen p => engine_call (page_screen E p)
  | SetViewportSize p w h => engine_call (page_setViewportSize E p w h)
  | Goto _ p u wu t => engine_call (page_goto E p u wu t)
  | Title p => engine_call (page_title E p)
  | Evaluate p code => engine_call (page_evaluate E p code)
  | IsConnected b => fun s => (s, [], browser_isConnected E b (the_world s))
  | Url p => fun s => (s, [], page_url E p (the_world s))
  | On p => fun s => (with_world (page_on E p (the_world s)) s, [], tt)
  | ExistsSync f => fun s => (s, [], file_exists f (files s))
  | ReadCommandSync => fun s =>
      (s, [], match command_file (files s) with
              | Some d => Ok d
              | None => Thrown (enoent COMMAND_FILE)
              end)
  | UnlinkSync f => fun s =>
      if file_exists f (files s)
      then (with_files (unlink f (files s)) s, [], Ok tt)
      else (s, [], Thrown (enoent f))
  | WriteResultSync r => fun s => (with_files (write_result r (files s)) s, [], tt)
  | WriteReadySync d => fun s => (with_files (write_ready d (files s)) s, [], tt)
  | ConsoleLog _ => fun s => (s, [], tt)
  | ConsoleError _ => fun s => (s, [], tt)
  | SetInterval ms => fun s => (with_interval (Some ms) s, [], tt)
  | OnSigint => fun s => (with_sigint true s, [], tt)
  end.

(** One call, from its issue to its completion: the listeners handle the
    events that arrived meanwhile, in order, and the completed call is
    recorded; [deliver] is what a listener does with an event. *)
Definition perform_with (deliver : PageEvent -> St -> St) {X : Type} (op : Op X) (s : St)
  : St * X :=
  let '(s1, evs, x) := exec_op op s in
  (record (Ev op x) (fold_left (fun acc e => deliver e (record (Fired e) acc)) evs s1), x).

(** Running a program to its end. *)
Fixpoint run_with (deliver : PageEvent -> St -> St) {A : Type} (p : Prog A) (s : St)
  : St * outcome A :=
  match p with
  | Ret a => (s, Done a)
  | Throw m => (s, Raised m)
  | Exit c => (record (Exited c) (with_exit (Some c) s), Halted c)
  | Get k => run_with deliver (k (vars s)) s
  | Put f k => run_with deliver k (with_vars (f (vars s)) s)
  | Vis op k =>
      let '(s', x) := perform_with deliver op s in
      run_with deliver (k x) s'
  end.

(** *** setupPageListeners: the two listeners *)

Definition console_prefix (t : string) : string :=
  if String.eqb t "log" then "LOG"
  else if String.eqb t "info" then "INFO"
  else if String.eqb t "warn" then "WARN"
  else if String.eqb t "error" then "ERROR"
  else if String.eqb t "debug" then "DEBUG"
  else "MSG".

Definition on_console (msg_type msg_text : string) (loc : Location) : Prog unit :=
  let log := {| type := msg_type; text := msg_text; location := Some loc; stack := None |} in
  assign (push_log log);;
  console_log [JStr (console_prefix (type log) ++ " [" ++ toUpperCase (type log) ++ "] " ++ text log)].

Definition on_pageerror (message err_stack : string) : Prog unit :=
  console_log [JStr "[PAGE ERROR]"; JStr message];;
  assign (push_log {| type := "pageerror"; text := message; location := None; stack := Some err_stack |}).

Definition listener (e : PageEvent) : Prog unit :=
  match e with
  | ConsoleMsg t x l => on_console t x l
  | PageError m k => on_pageerror m k
  end.

(** A listener makes no engine call, so nothing is delivered while it runs. *)
Definition deliver (e : PageEvent) (s : St) : St :=
  fst (run_with (fun _ s' => s') (listener e) s).

Definition deliver_all (evs : list PageEvent) (s : St) : St :=
  fold_left (fun acc e => deliver e (record (Fired e) acc)) evs s.

Definition perform {X : Type} (op : Op X) (s : St) : St * X :=
  perform_with deliver op s.

Definition run {A : Type} (p : Prog A) (s : St) : St * outcome A :=
  run_with deliver p s.

Definition after {A : Type} (p : Prog A) (s : St) : St := fst (run p s).

End Daemon.

Arguments run {E A} p s.
Arguments after {E A} p s.
Arguments run_with {E} deliver {A} p s.
Arguments perform_with {E} deliver {X} op s : simpl never.
Arguments perform {E X} op s.
Arguments deliver_all {E} evs s.
Arguments deliver {E} e s.
Arguments exec_op {E X} op s.
Arguments record {E} e s.
Arguments fresh {E} w fs.
Arguments the_world {E} s.
Arguments vars {E} s.
Arguments files {E} s.
Arguments interval {E} s.
Arguments sigint_bound {E} s.
Arguments exit_code {E} s.
Arguments trace {E} s.
Arguments with_world {E} w s.
Arguments with_vars {E} v s.
Arguments with_files {E} f s.
Arguments with_trace {E} t s.
Arguments with_exit {E} c s.
Arguments with_interval {E} i s.
Arguments with_sigint {E} b s.

(** ** browser-daemon.js *)

Definition chrome : LaunchConfig :=
  {| channel := "chrome"; headless := false; args := ["--start-maximized"] |}.

Definition undefined_has_no (method : string) : string :=
  "Cannot read properties of undefined (reading '" ++ method ++ "')".

(** Reading the module variable [page] to call [method] on it. *)
Definition the_page (method : string) : Prog handle :=
  Get (fun v => match page v with
                | Some p => Ret p
                | None => Throw (undefined_has_no method)
                end).

(** [fs.writeFileSync(RESULT_FILE, JSON.stringify(data, null, 2))] *)
Definition writeResult (data : Response) : Prog unit :=
  perform_op (WriteResultSync data).

(** Both [page.on] registrations. *)
Definition setupPageListeners : Prog unit :=
  p <- the_page "on";;
  perform_op (On p).

Definition startBrowser : Prog unit :=
  console_log [JStr "Starting browser..."];;
  b <- call (Launch chrome);;
  assign (set_browser (Some b));;
  c <- call (NewContext b);;
  assign (set_context (Some c));;
  p <- call (NewPage c);;
  assign (set_page (Some p));;
  screenSize <- call (Screen p);;
  console_log [JStr "Screen available:"; JNum (availWidth screenSize);
               JStr "x"; JNum (availHeight screenSize)];;
  console_log [JStr "Window inner:"; JNum (innerWidth screenSize);
               JStr "x"; JNum (innerHeight screenSize)];;
  p' <- the_page "setViewportSize";;
  call (SetViewportSize p' (JNum (availWidth screenSize)) (JNum (availHeight screenSize)));;
  console_log [JStr "Viewport set to screen size"];;
  console_log [JStr ""];;
  setupPageListeners.

(** [browser && browser.isConnected()] *)
Definition browser_connected : Prog bool :=
  Get (fun v => match browser v with
                | Some b => perform_op (IsConnected b)
                | None => Ret false
                end).

(** The usability check: the value of [needsRestart] when the first [try]
    statement of [ensureBrowserReady] is left. *)
Definition probe : Prog bool :=
  try_catch
    (connected <- browser_connected;;
     Get (fun v =>
       match negb connected, page v with
       | false, Some p =>
           try_catch (call (Title p);; Ret false) (fun _ => Ret true)
       | _, _ => Ret true
       end))
    (fun _ => Ret true).

(** [if (browser && browser.isConnected()) await browser.close().catch(() => {})] *)
Definition teardown : Prog unit :=
  connected <- browser_connected;;
  if connected
  then Get (fun v => match browser v with
                     | Some b => try_catch (call (Close b)) (fun _ => Ret tt)
                     | None => Throw (undefined_has_no "close")
                     end)
  else Ret tt.

(** [lastURL && lastURL !== 'about:blank'] *)
Definition restorable (u : string) : bool :=
  negb (String.eqb u "") && negb (String.eqb u "about:blank").

(** [if (lastURL && lastURL !== 'about:blank') ...] *)
Definition restore : Prog unit :=
  Get (fun v =>
    let u := lastURL v in
    if restorable u
    then
      console_log [JStr ("Restoring last URL: " ++ u)];;
      p <- the_page "goto";;
      try_catch (call (Goto AtRestore p (JStr u) "networkidle" 30000))
                (fun m => console_log [JStr ("Failed to restore URL: " ++ m)])
    else Ret tt).

(** The body of [if (needsRestart)]. *)
Definition restart : Prog unit :=
  console_log [JStr "Browser/page closed, restarting..."];;
  assign (set_isRestarting true);;
  finally
    (try_catch
       (teardown;; startBrowser;; restore)
       (fun m => console_error [JStr "Failed to restart browser:"; JStr m];; Throw m))
    (assign (set_isRestarting false)).

Definition ensureBrowserReady : Prog unit :=
  needsRestart <- probe;;
  if needsRestart then restart else Ret tt.

(** The cases of the [switch] in [executeCommandInner]. *)
Definition case_navigate (data : jsval) : Prog unit :=
  p <- the_page "goto";;
  u <- of_result (prop "url" data);;
  call (Goto AtNavigate p u "networkidle" 30000);;
  p1 <- the_page "url";;
  here <- perform_op (Url p1);;
  assign (set_lastURL here);;
  p2 <- the_page "url";;
  url <- perform_op (Url p2);;
  p3 <- the_page "title";;
  title <- call (Title p3);;
  writeResult (RNavigated url title).

Definition case_exec (data : jsval) : Prog unit :=
  p <- the_page "evaluate";;
  code <- of_result (prop "code" data);;
  value <- call (Evaluate p code);;
  writeResult (RResult value).

Definition case_console : Prog unit :=
  Get (fun v => writeResult (RLogs (consoleLogs v))).

Definition case_console_clear : Prog unit :=
  assign (set_consoleLogs []);;
  writeResult RSuccess.

Definition case_status : Prog unit :=
  p <- the_page "url";;
  url <- perform_op (Url p);;
  p' <- the_page "title";;
  title <- call (Title p');;
  Get (fun v => writeResult (RStatus url title (length (consoleLogs v)))).

Definition case_resize (data : jsval) : Prog unit :=
  p <- the_page "setViewportSize";;
  w <- of_result (prop "width" data);;
  h <- of_result (prop "height" data);;
  call (SetViewportSize p w h);;
  w' <- of_result (prop "width" data);;
  h' <- of_result (prop "height" data);;
  writeResult (RResized w' h').

Definition case_default (action : jsval) : Prog unit :=
  writeResult (RError ("Unknown command: " ++ js_string action)).

(** [switch (action)]: the cases are compared with [===]. *)
Definition switch_action (action data : jsval) : Prog unit :=
  match action with
  | JStr a =>
      if String.eqb a "navigate" then case_navigate data
      else if String.eqb a "exec" then case_exec data
      else if String.eqb a "console" then case_console
      else if String.eqb a "console-clear" then case_console_clear
      else if String.eqb a "status" then case_status
      else if String.eqb a "resize" then case_resize data
      else case_default action
  | _ => case_default action
  end.

Definition executeCommandInner (command : jsval) : Prog unit :=
  ad <- of_result (destructure_command command);;
  switch_action (fst ad) (snd ad).

(** [err.message.includes('closed') || err.message.includes('disconnected')] *)
Definition session_lost (message : string) : bool :=
  includes message "closed" || includes message "disconnected".

Definition executeCommand (command : jsval) : Prog unit :=
  try_catch (executeCommandInner command)
    (fun m =>
       if session_lost m
       then
         console_log [JStr "Command failed, restarting browser..."];;
         try_catch (ensureBrowserReady;; executeCommandInner command)
                   (fun m' => writeResult (RError m'))
       else writeResult (RError m)).

(** The [try] statement of the interval callback: decode and dispatch. *)
Definition process (parse : string -> result jsval) (commandData : string) : Prog unit :=
  try_catch
    (command <- of_result (parse commandData);;
     executeCommand command)
    (fun m =>
       console_error [JStr "Command processing error:"; JStr m];;
       writeResult (RError m)).

(** The callback given to [setInterval] by [watchForCommands]. *)
Definition tick (parse : string -> result jsval) : Prog unit :=
  present <- perform_op (ExistsSync COMMAND_FILE);;
  if present
  then
    commandData <- call ReadCommandSync;;
    call (UnlinkSync COMMAND_FILE);;
    process parse commandData
  else Ret tt.

Definition watchForCommands : Prog unit := perform_op (SetInterval 100).

Definition cleanup_file (f : File) : Prog unit :=
  present <- perform_op (ExistsSync f);;
  if present then call (UnlinkSync f) else Ret tt.

Definition cleanup : Prog unit :=
  cleanup_file COMMAND_FILE;; cleanup_file RESULT_FILE;; cleanup_file READY_FILE.

Definition newline : string := String (ascii_of_nat 10) "".

(** The SIGINT handler bound by [startDaemon]. *)
Definition on_sigint : Prog unit :=
  console_log [JStr (newline ++ "Shutting down...")];;
  connected <- browser_connected;;
  (if connected
   then Get (fun v => match browser v with
                      | Some b => call (Close b)
                      | None => Throw (undefined_has_no "close")
                      end)
   else Ret tt);;
  cleanup;;
  Exit 0.

Definition startDaemon : Prog unit :=
  startBrowser;;
  perform_op (WriteReadySync "ready");;
  console_log [JStr "Listening for commands..."];;
  console_log [JStr ""];;
  watchForCommands;;
  perform_op OnSigint.

(** The module body: [cleanup(); startDaemon().catch(...)]. *)
Definition daemon_main : Prog unit :=
  cleanup;;
  try_catch startDaemon
    (fun m =>
       console_error [JStr "Fatal error:"; JStr m];;
       cleanup;;
       Exit 1).

(** ** Reading the trace *)

(** A completed [chromium.launch]: a fresh startup was attempted. *)
Definition is_launch (e : Event) : bool :=
  match e with
  | Ev op _ => match op with Launch _ => true | _ => false end
  | _ => false
  end.

(** A completed call of the engine. *)
Definition is_engine_call (e : Event) : bool :=
  match e with
  | Ev op _ => is_await op
  | _ => false
  end.

(** A completed [writeResult]. *)
Definition is_write_result (e : Event) : bool :=
  match e with
  | Ev op _ => match op with WriteResultSync _ => true | _ => false end
  | _ => false
  end.

(** A page load of the [navigate] command that succeeded. *)
Definition nav_ok (e : Event) : bool :=
  match e with
  | @Ev X op r =>
      match op in Op X return X -> bool with
      | Goto site _ _ _ _ => fun r =>
          match site, r with
          | AtNavigate, Ok _ => true
          | _, _ => false
          end
      | _ => fun _ => false
      end r
  | _ => false
  end.

(** The address given to a page load of the [navigate] command that
    succeeded. *)
Definition loaded_address (e : Event) : option string :=
  match e with
  | @Ev X op r =>
      match op in Op X return X -> option string with
      | Goto site _ u _ _ => fun r =>
          match site, u, r with
          | AtNavigate, JStr a, Ok _ => Some a
          | _, _, _ => None
          end
      | _ => fun _ => None
      end r
  | _ => None
  end.

(** The address of the most recent page load of a [navigate] command that
    succeeded; the blank page when there was none. *)
Fixpoint last_loaded (tr : list Event) : string :=
  match tr with
  | [] => "about:blank"
  | e :: older =>
      match loaded_address e with
      | Some a => a
      | None => last_loaded older
      end
  end.

(** The buffer entry a listener pushes for an event. *)
Definition entry_of (e : PageEvent) : ConsoleLogEntry :=
  match e with
  | ConsoleMsg t x l => {| type := t; text := x; location := Some l; stack := None |}
  | PageError m k => {| type := "pageerror"; text := m; location := None; stack := Some k |}
  end.

(** The entries of the events in a stretch of trace, oldest first. *)
Fixpoint fired_entries (tr : list Event) : list ConsoleLogEntry :=
  match tr with
  | [] => []
  | Fired e :: older => fired_entries older ++ [entry_of e]
  | _ :: older => fired_entries older
  end.

Definition count_events (f : Event -> bool) (tr : list Event) : nat :=
  length (filter f tr).

(** ** Footprints *)

(** [within okop okput p]: every call [p] can make satisfies [okop] and every
    assignment it can make satisfies [okput], and it never exits. *)
Fixpoint within (okop : forall X : Type, Op X -> Prop) (okput : (Vars -> Vars) -> Prop)
  {A : Type} (p : Prog A) : Prop :=
  match p with
  | Ret _ => True
  | Throw _ => True
  | Exit _ => False
  | Get k => forall v, within okop okput (k v)
  | Put f k => okput f /\ within okop okput k
  | Vis op k => okop _ op /\ forall x, within okop okput (k x)
  end.

(** ** The daemon among its clients *)

Section Reactive.

Variable E : Engine.

(** What can happen to a running daemon between two of its own steps. *)
Inductive Input : Type :=
| IntervalFires                                    (* the callback of setInterval runs *)
| Interrupt                                        (* SIGINT *)
| ClientWrites (d : string)                        (* a client writes the command file *)
| ClientUnlinksResult                              (* a client deletes the result file *)
| Outside (w : world E) (evs : list PageEvent).    (* the browser moves on by itself *)

(** The daemon handling one input, each handler running to its end. *)
Definition react (i : Input) (s : St E) : St E :=
  match exit_code s with
  | Some _ => s
  | None =>
      match i with
      | IntervalFires =>
          match interval s with
          | Some _ => after (tick (JSON_parse E)) s
          | None => s
          end
      | Interrupt =>
          if sigint_bound s
          then
            (* nothing handles a rejection of the handler's promise: Node
               ends the process with status 1 *)
            match run on_sigint s with
            | (s', Raised _) => record (Exited 1) (with_exit (Some 1) s')
            | (s', _) => s'
            end
          else
            (* without a handler Node is killed by the signal: status 128 + 2 *)
            with_exit (Some 130) s
      | ClientWrites d => with_files (write_command d (files s)) s
      | ClientUnlinksResult => with_files (unlink RESULT_FILE (files s)) s
      | Outside w evs => deliver_all evs (with_world w s)
      end
  end.

(** The daemon started in directory [fs] with the engine in state [w]. *)
Definition boot (w : world E) (fs : Files) : St E := after daemon_main (fresh w fs).

Definition daemon_after (inputs : list Input) (w : world E) (fs : Files) : St E :=
  fold_left (fun s i => react i s) inputs (boot w fs).

(** *** Overlapping callbacks

    [setInterval] does not wait for the promise of an [async] callback: a
    callback suspended at an awaited engine call leaves the thread to the
    next one.  A callback runs from one awaited call to the next without
    interruption. *)

(** Run until the next awaited call, or to the end. *)
Fixpoint advance (p : Prog unit) (s : St E) : St E * Prog unit :=
  match p with
  | Get k => advance (k (vars s)) s
  | Put f k => advance k (with_vars (f (vars s)) s)
  | Vis op k =>
      if is_await op then (s, p)
      else let '(s', x) := perform op s in advance (k x) s'
  | Exit c => (record (Exited c) (with_exit (Some c) s), Ret tt)
  | _ => (s, p)
  end.

(** Complete the call a callback is suspended at and run on. *)
Definition resume (p : Prog unit) (s : St E) : St E * Prog unit :=
  match p with
  | Vis op k => let '(s', x) := perform op s in advance (k x) s'
  | _ => (s, p)
  end.

Definition suspended (p : Prog unit) : bool :=
  match p with
  | Vis _ _ => true
  | _ => false
  end.

(** The process with the callbacks in flight, in the order they started. *)
Record Loop : Type := { proc : St E; callbacks : list (Prog unit) }.

Inductive Turn : Type :=
| Fire                        (* the interval fires: a new callback starts *)
| Complete (i : nat)          (* the call awaited by callback [i] completes *)
| Write (d : string)          (* a client writes the command file *)
| Drift (w : world E).        (* the browser moves on by itself *)

Fixpoint replace_nth {A : Type} (i : nat) (x : A) (l : list A) : list A :=
  match l, i with
  | [], _ => []
  | _ :: rest, O => x :: rest
  | y :: rest, S i' => y :: replace_nth i' x rest
  end.

Definition turn (t : Turn) (l : Loop) : Loop :=
  match exit_code (proc l) with
  | Some _ => l
  | None =>
  match t with
  | Fire =>
      let '(s, p) := advance (tick (JSON_parse E)) (proc l) in
      {| proc := s; callbacks := callbacks l ++ [p] |}
  | Complete i =>
      match nth_error (callbacks l) i with
      | Some p =>
          let '(s, p') := resume p (proc l) in
          {| proc := s; callbacks := replace_nth i p' (callbacks l) |}
      | None => l
      end
  | Write d =>
      {| proc := with_files (write_command d (files (proc l))) (proc l);
         callbacks := callbacks l |}
  | Drift w => {| proc := with_world w (proc l); callbacks := callbacks l |}
  end
  end.

Definition turns (ts : list Turn) (l : Loop) : Loop :=
  fold_left (fun acc t => turn t acc) ts l.

(** The callbacks that are inside the restart of [ensureBrowserReady]: the
    mark is set and they await the completion of [chromium.launch]. *)
Definition awaits_launch (p : Prog unit) : bool :=
  match p with
  | Vis op _ => match op with Launch _ => true | _ => false end
  | _ => false
  end.

End Reactive.

Arguments react {E} i s.
Arguments boot {E} w fs.
Arguments daemon_after {E} inputs w fs.
Arguments advance {E} p s.
Arguments resume {E} p s.
Arguments turn {E} t l.
Arguments turns {E} ts l.
Arguments IntervalFires {E}.
Arguments Interrupt {E}.
Arguments ClientWrites {E} d.
Arguments ClientUnlinksResult {E}.
Arguments Outside {E} w evs.
Arguments Fire {E}.
Arguments Complete {E} i.
Arguments Write {E} d.
Arguments Drift {E} w.
Arguments proc {E} l.
Arguments callbacks {E} l.

(** ** A small engine to run the daemon on

    A browser is connected until it is closed; a context or a page is usable
    while its browser is connected.  Launching needs Chrome to be installed,
    a page load needs the address to be up, a script [throw <msg>] throws
    and a script [console.log <text>] logs. *)
Module Toy.

Record World : Type :=
  { next_id : nat;
    connected : list handle;               (* browsers that are connected *)
    owner : list (handle * handle);        (* contexts and pages, with their browser *)
    located : list (handle * string);      (* the address of each page *)
    listening : list handle;               (* pages with listeners bound *)
    installed : bool;                      (* Chrome can be launched *)
    down : list string }.                  (* addresses that refuse connections *)

Definition mem (h : handle) (l : list handle) : bool := existsb (Nat.eqb h) l.

Fixpoint assoc {A : Type} (h : handle) (l : list (handle * A)) : option A :=
  match l with
  | [] => None
  | (h', a) :: rest => if Nat.eqb h h' then Some a else assoc h rest
  end.

Definition usable (h : handle) (w : World) : bool :=
  match assoc h (owner w) with
  | Some b => mem b (connected w)
  | None => false
  end.

Definition closed_error {A : Type} (api : string) : result A :=
  Thrown (api ++ ": Target page, context or browser has been closed").

Definition launch (cfg : LaunchConfig) (w : World) : World * list PageEvent * result handle :=
  if installed w
  then ({| next_id := S (next_id w); connected := next_id w :: connected w;
           owner := owner w; located := located w; listening := listening w;
           installed := installed w; down := down w |}, [], Ok (next_id w))
  else (w, [], Thrown ("browserType.launch: Chromium distribution '" ++ channel cfg ++ "' is not found")).

Definition isConnected (b : handle) (w : World) : bool := mem b (connected w).

Definition close (b : handle) (w : World) : World * list PageEvent * result unit :=
  ({| next_id := next_id w;
      connected := filter (fun b' => negb (Nat.eqb b b')) (connected w);
      owner := owner w; located := located w; listening := listening w;
      installed := installed w; down := down w |}, [], Ok tt).

Definition newContext (b : handle) (w : World) : World * list PageEvent * result handle :=
  if mem b (connected w)
  then ({| next_id := S (next_id w); connected := connected w;
           owner := (next_id w, b) :: owner w; located := located w;
           listening := listening w; installed := installed w; down := down w |},
        [], Ok (next_id w))
  else (w, [], closed_error "browser.newContext").

Definition newPage (c : handle) (w : World) : World * list PageEvent * result handle :=
  match assoc c (owner w), usable c w with
  | Some b, true =>
      ({| next_id := S (next_id w); connected := connected w;
          owner := (next_id w, b) :: owner w;
          located := (next_id w, "about:blank") :: located w;
          listening := listening w; installed := installed w; down := down w |},
       [], Ok (next_id w))
  | _, _ => (w, [], closed_error "browserContext.newPage")
  end.

Definition screen (p : handle) (w : World) : World * list PageEvent * result ScreenSize :=
  if usable p w
  then (w, [], Ok {| availWidth := 1920; availHeight := 1055;
                     innerWidth := 1200; innerHeight := 800 |})
  else (w, [], closed_error "page.evaluate").

Definition setViewportSize (p : handle) (wd ht : jsval) (w : World)
  : World * list PageEvent * result unit :=
  if usable p w then (w, [], Ok tt) else (w, [], closed_error "page.setViewportSize").

Definition url (p : handle) (w : World) : string :=
  match assoc p (located w) with
  | Some u => u
  | None => "about:blank"
  end.

Definition goto (p : handle) (u : jsval) (waitUntil : string) (timeout : Z) (w : World)
  : World * list PageEvent * result unit :=
  if usable p w
  then match u with
       | JStr a =>
           if existsb (String.eqb a) (down w)
           then (w, [], Thrown ("page.goto: net::ERR_CONNECTION_REFUSED at " ++ a))
           else ({| next_id := next_id w; connected := connected w; owner := owner w;
                    located := (p, a) :: located w; listening := listening w;
                    installed := installed w; down := down w |}, [], Ok tt)
       | _ => (w, [], Thrown "page.goto: url: expected string, got " )
       end
  else (w, [], closed_error "page.goto").

Definition title (p : handle) (w : World) : World * list PageEvent * result string :=
  if usable p w then (w, [], Ok ("Title of " ++ url p w)) else (w, [], closed_error "page.title").

Definition drop (n : nat) (s : string) : string := substring n (String.length s - n) s.

Definition evaluate (p : handle) (code : jsval) (w : World)
  : World * list PageEvent * result jsval :=
  if usable p w
  then match code with
       | JStr c =>
           if starts_with "throw " c
           then (w, [], Thrown ("page.evaluate: Error: " ++ drop 6 c))
           else if starts_with "console.log " c
           then (w,
                 if mem p (listening w)
                 then [ConsoleMsg "log" (drop 12 c) {| loc_url := url p w; lineNumber := 1 |}]
                 else [],
                 Ok JUndef)
           else (w, [], Ok (JStr c))
       | _ => (w, [], Ok code)
       end
  else (w, [], closed_error "page.evaluate").

Definition on (p : handle) (w : World) : World :=
  {| next_id := next_id w; connected := connected w; owner := owner w;
     located := located w; listening := p :: listening w;
     installed := installed w; down := down w |}.

(** The requests the clients of the examples send, as JSON text. *)

Definition request_text (action : string) (data : list (string * string)) : string :=
  "{" ++ quoted "action" ++ ":" ++ quoted action ++ "," ++ quoted "data" ++ ":{"
  ++ String.concat "," (map (fun kv => quoted (fst kv) ++ ":" ++ quoted (snd kv)) data)
  ++ "}}".

Definition request (action : string) (data : list (string * string)) : jsval :=
  JObj [("action", JStr action);
        ("data", JObj (map (fun kv => (fst kv, JStr (snd kv))) data))].

Definition known_requests : list (string * list (string * string)) :=
  [("status", []); ("console", []); ("console-clear", []);
   ("navigate", [("url", "http://localhost:8080/")]);
   ("navigate", [("url", "http://localhost:9/")]);
   ("exec", [("code", "document.title")]);
   ("exec", [("code", "throw socket closed")]);
   ("exec", [("code", "console.log hello")])].

(** [JSON.parse] on the texts above; any other text of the examples is not
    JSON. *)
Definition parse (text : string) : result jsval :=
  match find (fun r => String.eqb (request_text (fst r) (snd r)) text) known_requests with
  | Some r => Ok (request (fst r) (snd r))
  | None => Thrown ("Unexpected token in JSON: " ++ text)
  end.

Definition engine : Engine :=
  {| world := World;
     chromium_launch := launch;
     browser_isConnected := isConnected;
     browser_close := close;
     browser_newContext := newContext;
     context_newPage := newPage;
     page_screen := screen;
     page_setViewportSize := setViewportSize;
     page_goto := goto;
     page_url := url;
     page_title := title;
     page_evaluate := evaluate;
     page_on := on;
     JSON_parse := parse |}.

(** A machine with Chrome installed and nothing running; port 9 is down. *)
Definition machine : World :=
  {| next_id := 1; connected := []; owner := []; located := []; listening := [];
     installed := true; down := ["http://localhost:9/"] |}.

(** The user closes every browser window. *)
Definition windows_closed (w : World) : World :=
  {| next_id := next_id w; connected := []; owner := owner w; located := located w;
     listening := listening w; installed := installed w; down := down w |}.

(** Chrome is removed from the machine. *)
Definition chrome_removed (w : World) : World :=
  {| next_id := next_id w; connected := connected w; owner := owner w; located := located w;
     listening := listening w; installed := false; down := down w |}.

End Toy.

(** The small engine with one page that moves on as soon as it is loaded,
    so that its title cannot be read. *)
Module Moving.

Definition address : string := "http://localhost:8080/moving".

Definition title (p : handle) (w : Toy.World)
  : Toy.World * list PageEvent * result string :=
  if Toy.usable p w && String.eqb (Toy.url p w) address
  then (w, [],
        Thrown "page.title: Execution context was destroyed, most likely because of a navigation")
  else Toy.title p w.

Definition parse (text : string) : result jsval :=
  if String.eqb text (Toy.request_text "navigate" [("url", address)])
  then Ok (Toy.request "navigate" [("url", address)])
  else Toy.parse text.

Definition engine : Engine :=
  {| world := Toy.World;
     chromium_launch := Toy.launch;
     browser_isConnected := Toy.isConnected;
     browser_close := Toy.close;
     browser_newContext := Toy.newContext;
     context_newPage := Toy.newPage;
     page_screen := Toy.screen;
     page_setViewportSize := Toy.setViewportSize;
     page_goto := Toy.goto;
     page_url := Toy.url;
     page_title := title;
     page_evaluate := Toy.evaluate;
     page_on := Toy.on;
     JSON_parse := parse |}.

(** The daemon has started on it, in an empty directory. *)
Definition running : St engine := boot (E := engine) Toy.machine no_files.

End Moving.

(** ** browser-client.js *)

(** What the client prints. *)
Inductive Out : Type :=
| Log (args : list jsval)      (* console.log *)
| Error (args : list jsval).   (* console.error *)

(** The fields the client reads from the collected object. *)
Definition field_url (r : Response) : jsval :=
  match r with
  | RNavigated u _ | RStatus u _ _ => JStr u
  | _ => JUndef
  end.
Definition field_title (r : Response) : jsval :=
  match r with
  | RNavigated _ t | RStatus _ t _ => JStr t
  | _ => JUndef
  end.
Definition field_result (r : Response) : jsval :=
  match r with
  | RResult v => v
  | _ => JUndef
  end.
Definition field_logs (r : Response) : option (list ConsoleLogEntry) :=
  match r with
  | RLogs l => Some l
  | _ => None
  end.
Definition field_consoleLogsCount (r : Response) : jsval :=
  match r with
  | RStatus _ _ n => JNum (Z.of_nat n)
  | _ => JUndef
  end.
Definition field_width (r : Response) : jsval :=
  match r with
  | RResized w _ => w
  | _ => JUndef
  end.
Definition field_height (r : Response) : jsval :=
  match r with
  | RResized _ h => h
  | _ => JUndef
  end.
Definition field_error (r : Response) : jsval :=
  match r with
  | RError m => JStr m
  | _ => JUndef
  end.

(** [typeof v === 'object'] *)
Definition typeof_object (v : jsval) : bool :=
  match v with
  | JNull | JArr _ | JObj _ => true
  | _ => false
  end.

(** The client's surroundings while it waits: what [Date.now() - startTime]
    is when the [k]-th callback of its 50 ms interval runs, and what the
    other processes did to the files since the previous one. *)
Record Surroundings : Type :=
  { elapsed : nat -> Z;
    others : nat -> Files -> Files }.

Section Client.

(** [JSON.stringify(v)], [JSON.stringify(v, null, 2)] and [parseInt] of an
    argument that may be missing ([None] is NaN). *)
Variable JSON_stringify : jsval -> string.
Variable JSON_stringify_indented : jsval -> string.
Variable parseInt : option string -> option Z.

(** The interval callback of [sendCommand], from its [k]-th run on; [None]
    when the promise is still pending after [n] runs. *)
Fixpoint await_result (sur : Surroundings) (k n : nat) (fs : Files)
  : Files * option (result Response) :=
  match n with
  | O => (fs, None)
  | S n' =>
      let fs1 := others sur k fs in
      match result_file fs1 with
      | Some r => (unlink RESULT_FILE fs1, Some (Ok r))
      | None =>
          if elapsed sur k >? 30000
          then (fs1, Some (Thrown "Command timeout"))
          else await_result sur (S k) n' fs1
      end
  end.

(** The synchronous part of [sendCommand]: delete old result, write command. *)
Definition post_command (command : jsval) (fs : Files) : Files :=
  let fs1 := if file_exists RESULT_FILE fs then unlink RESULT_FILE fs else fs in
  write_command (JSON_stringify command) fs1.

Definition sendCommand (command : jsval) (sur : Surroundings) (n : nat) (fs : Files)
  : Files * option (result Response) :=
  await_result sur 0 n (post_command command fs).

(** How the process ended: what it printed, its exit code and the files. *)
Record Ended : Type := { printed : list Out; code : Z; left : Files }.

Definition console_line (log : ConsoleLogEntry) : list Out :=
  let prefix :=
    if String.eqb (type log) "log" then "LOG"
    else if String.eqb (type log) "info" then "INFO"
    else if String.eqb (type log) "warn" then "WARN"
    else if String.eqb (type log) "error" then "ERROR"
    else if String.eqb (type log) "debug" then "DEBUG"
    else if String.eqb (type log) "pageerror" then "PAGEERROR"
    else "MSG" in
  Log [JStr (prefix ++ " [" ++ toUpperCase (type log) ++ "] " ++ text log)]
  :: match location log with
     | Some l =>
         if negb (String.eqb (loc_url l) "")
         then [Log [JStr ("   └─ " ++ loc_url l ++ ":" ++ string_of_Z (lineNumber l))]]
         else []
     | None => []
     end.

(** What a [case] of [main] does with the collected object: the lines it
    prints, and the message of the error it throws, if it throws. *)
Definition report_error (r : Response) : list Out * option string :=
  ([Error [JStr "Error:"; field_error r]], None).

Definition report_navigate (r : Response) : list Out * option string :=
  if success r
  then ([Log [JStr "Navigated successfully!"];
         Log [JStr "URL:"; field_url r];
         Log [JStr "Title:"; field_title r]], None)
  else report_error r.

Definition report_exec (r : Response) : list Out * option string :=
  if success r
  then ([Log [JStr "Result:"];
         if typeof_object (field_result r)
         then Log [JStr (JSON_stringify_indented (field_result r))]
         else Log [field_result r]], None)
  else report_error r.

Definition report_console (r : Response) : list Out * option string :=
  if success r
  then match field_logs r with
       | Some logs =>
           (Log [JStr ("Console logs (" ++ string_of_Z (Z.of_nat (length logs)) ++ " entries):")]
            :: Log [JStr ""]
            :: flat_map console_line logs, None)
       | None => ([], Some (undefined_has_no "length"))
       end
  else report_error r.

Definition report_console_clear (r : Response) : list Out * option string :=
  ([Log [JStr "Console logs cleared"]], None).

Definition report_status (r : Response) : list Out * option string :=
  if success r
  then ([Log [JStr "Browser daemon is running"];
         Log [JStr "Current URL:"; field_url r];
         Log [JStr "Current title:"; field_title r];
         Log [JStr "Console logs:"; field_consoleLogsCount r]], None)
  else report_error r.

Definition report_resize (r : Response) : list Out * option string :=
  if success r
  then ([Log [JStr "Viewport resized!"];
         Log [JStr "New size:"; field_width r; JStr "x"; field_height r]], None)
  else report_error r.

(** [command = ...; result = await sendCommand(command); ...] inside the
    [try] of [main]: a rejected promise or a thrown error is printed by the
    [catch], which exits with 1; otherwise [main] returns and the process
    ends with 0. *)
Definition exchange (command : jsval) (report : Response -> list Out * option string)
  (sur : Surroundings) (n : nat) (fs : Files) : option Ended :=
  match sendCommand command sur n fs with
  | (_, None) => None
  | (fs', Some (Thrown m)) =>
      Some {| printed := [Error [JStr "Error:"; JStr m]]; code := 1; left := fs' |}
  | (fs', Some (Ok r)) =>
      match report r with
      | (out, None) => Some {| printed := out; code := 0; left := fs' |}
      | (out, Some m) =>
          Some {| printed := out ++ [Error [JStr "Error:"; JStr m]]; code := 1; left := fs' |}
      end
  end.

Definition the_command (action : string) (data : list (string * jsval)) : jsval :=
  JObj [("action", JStr action); ("data", JObj data)].

(** [!x] for an argument that may be missing. *)
Definition missing (a : option string) : bool :=
  match a with
  | None => true
  | Some x => String.eqb x ""
  end.

(** [!n] for a number that may be NaN. *)
Definition falsy_number (n : option Z) : bool :=
  match n with
  | None => true
  | Some z => z =? 0
  end.

(** What a [case] of the [switch] in [main] does: exit with a usage message
    before anything is sent, or send a command and report the answer. *)
Inductive Choice : Type :=
| Refuse (lines : list Out)
| Send (command : jsval) (report : Response -> list Out * option string).

Definition usage_lines (lines : list string) : list Out :=
  map (fun l => Error [JStr l]) lines.

Definition help_lines : list Out :=
  map (fun l => Log [JStr l])
    ["Browser Daemon Client"; ""; "Usage:";
     "  node browser-client.js navigate <url>";
     "  node browser-client.js exec " ++ quoted "javascript code";
     "  node browser-client.js console";
     "  node browser-client.js console-clear";
     "  node browser-client.js resize <width> <height>";
     "  node browser-client.js status"].

(** [switch (action)] on [process.argv] from its third entry on. *)
Definition choose (argv : list string) : Choice :=
  match nth_error argv 0 with
  | Some action =>
      if String.eqb action "navigate" then
        if missing (nth_error argv 1)
        then Refuse (usage_lines ["Usage: node browser-client.js navigate <url>"])
        else Send (the_command "navigate" [("url", JStr (nth 1 argv ""))]) report_navigate
      else if String.eqb action "exec" then
        if missing (nth_error argv 1)
        then Refuse (usage_lines
                       ["Usage: node browser-client.js exec " ++ quoted "javascript code"])
        else Send (the_command "exec" [("code", JStr (nth 1 argv ""))]) report_exec
      else if String.eqb action "console" then
        Send (the_command "console" []) report_console
      else if String.eqb action "console-clear" then
        Send (the_command "console-clear" []) report_console_clear
      else if String.eqb action "status" then
        Send (the_command "status" []) report_status
      else if String.eqb action "resize" then
        let width := parseInt (nth_error argv 1) in
        let height := parseInt (nth_error argv 2) in
        if falsy_number width || falsy_number height
        then Refuse (usage_lines ["Usage: node browser-client.js resize <width> <height>"])
        else Send (the_command "resize"
                     [("width", JNum (match width with Some z => z | None => 0 end));
                      ("height", JNum (match height with Some z => z | None => 0 end))])
                  report_resize
      else Refuse help_lines
  | None => Refuse help_lines
  end.

(** The client process from [main()] to its exit; [None] when it is still
    waiting after [n] callbacks of its interval. *)
Definition client_main (argv : list string) (sur : Surroundings) (n : nat) (fs : Files)
  : option Ended :=
  if negb (file_exists READY_FILE fs)
  then Some {| printed := usage_lines ["Browser daemon not running!";
                                       "Start it with: node browser-daemon.js"];
               code := 1; left := fs |}
  else
    match choose argv with
    | Refuse lines => Some {| printed := lines; code := 1; left := fs |}
    | Send command report => exchange command report sur n fs
    end.

End Client.

(** ** Vocabulary of the statements *)

(** The requests as the client builds them. *)
Definition console_request : jsval := the_command "console" [].
Definition console_clear_request : jsval := the_command "console-clear" [].
Definition status_request : jsval := the_command "status" [].
Definition navigate_request (url : jsval) : jsval := the_command "navigate" [("url", url)].
Definition exec_request (code : jsval) : jsval := the_command "exec" [("code", code)].

(** What a listener leaves in the trace: the event and the line it logs. *)
Definition listener_event (e : Event) : bool :=
  match e with
  | Fired _ => true
  | Ev op _ => match op with ConsoleLog _ => true | _ => false end
  | Exited _ => false
  end.

Definition any_op (X : Type) (op : Op X) : Prop := True.

(** An assignment that leaves the console log buffer alone. *)
Definition keeps_logs (f : Vars -> Vars) : Prop :=
  forall v, consoleLogs (f v) = consoleLogs v.

(** [p] only adds to the console log buffer, and what it adds are the
    entries of the events its listeners received while it ran. *)
Definition buffer_grows_by_events {E : Engine} {A : Type} (p : Prog A) : Prop :=
  forall s : St E,
    exists new,
      trace (after p s) = (new ++ trace s)%list /\
      consoleLogs (vars (after p s)) = (consoleLogs (vars s) ++ fired_entries new)%list.

Definition any_put (f : Vars -> Vars) : Prop := True.

(** The process once the interval callback has found the request [d], read
    it and deleted its file. *)
Definition consumed {E : Engine} (d : string) (s : St E) : St E :=
  record (Ev (UnlinkSync COMMAND_FILE) (Ok tt))
    (with_files (unlink COMMAND_FILE (files s))
       (record (Ev ReadCommandSync (Ok d))
          (record (Ev (ExistsSync COMMAND_FILE) true) s))).

(** The process once an error Response with message [m] has been written
    for a request that could not be decoded. *)
Definition rejected {E : Engine} (m : string) (s : St E) : St E :=
  record (Ev (WriteResultSync (RError m)) tt)
    (with_files (write_result (RError m) (files s))
       (record (Ev (ConsoleError [JStr "Command processing error:"; JStr m]) tt) s)).

(** The process when the restart has announced itself and set its mark. *)
Definition marked {E : Engine} (s : St E) : St E :=
  with_vars (set_isRestarting true (vars s))
    (record (Ev (ConsoleLog [JStr "Browser/page closed, restarting..."]) tt) s).

(** The [finally] of the restart: the mark is cleared. *)
Definition unmarked {E : Engine} (s : St E) : St E :=
  with_vars (set_isRestarting false (vars s)) s.

(** The [catch] of the restart has logged the failure [m]. *)
Definition restart_failure_logged {E : Engine} (m : string) (s : St E) : St E :=
  record (Ev (ConsoleError [JStr "Failed to restart browser:"; JStr m]) tt) s.

(** [writeResult(data)] was called. *)
Definition answered {E : Engine} (data : Response) (s : St E) : St E :=
  record (Ev (WriteResultSync data) tt) (with_files (write_result data (files s)) s).

(** The dispatcher has caught a session-loss error and announced the
    restart. *)
Definition retry_announced {E : Engine} (s : St E) : St E :=
  record (Ev (ConsoleLog [JStr "Command failed, restarting browser..."]) tt) s.

(** The restoration has been announced. *)
Definition restore_announced {E : Engine} (s : St E) : St E :=
  record (Ev (ConsoleLog [JStr ("Restoring last URL: " ++ lastURL (vars s))]) tt) s.

(** The failed restoration has been logged. *)
Definition restore_failure_logged {E : Engine} (m : string) (s : St E) : St E :=
  record (Ev (ConsoleLog [JStr ("Failed to restore URL: " ++ m)]) tt) s.

(** How many fresh startups [p] attempted when run from [s]. *)
Definition restarts_during {E : Engine} {A : Type} (p : Prog A) (s : St E) : nat :=
  count_events is_launch (trace (after p s)) - count_events is_launch (trace s).

(** [p] calls [chromium.launch] at most [n] times. *)
Fixpoint launches_at_most {A : Type} (p : Prog A) (n : nat) {struct p} : Prop :=
  match p with
  | Get k => forall v, launches_at_most (k v) n
  | Put _ k => launches_at_most k n
  | Vis op k =>
      match op with
      | Launch _ =>
          match n with
          | O => False
          | S n' => forall x, launches_at_most (k x) n'
          end
      | _ => forall x, launches_at_most (k x) n
      end
  | _ => True
  end.

(** The engine contract behind [page.goto(url) -> navigates]: a load that
    succeeds leaves the page at the address it was given. *)
Definition goto_lands (E : Engine) : Prop :=
  forall p u waitUntil timeout w w' evs,
    page_goto E p (JStr u) waitUntil timeout w = (w', evs, Ok tt) ->
    page_url E p w' = u.

(** An assignment that leaves [lastURL] alone. *)
Definition keeps_lastURL (f : Vars -> Vars) : Prop :=
  forall v, lastURL (f v) = lastURL v.

(** A call that neither deletes nor writes the ready marker. *)
Definition leaves_ready (X : Type) (op : Op X) : Prop :=
  match op with
  | UnlinkSync READY_FILE => False
  | WriteReadySync _ => False
  | _ => True
  end.

(** A [chromium.launch] that threw: a fresh startup that failed. *)
Definition is_failed_launch (e : Event) : bool :=
  match e with
  | @Ev X op r =>
      match op in Op X return X -> bool with
      | Launch _ => fun r => match r with Thrown _ => true | Ok _ => false end
      | _ => fun _ => false
      end r
  | _ => false
  end.

(** A script was evaluated for an [exec] command. *)
Definition is_evaluate (e : Event) : bool :=
  match e with
  | Ev op _ => match op with Evaluate _ _ => true | _ => false end
  | _ => false
  end.

(** *** The claims that the code does not meet, as they are stated *)

(** How a dispatch ends when the command is executed once more from [s2]. *)
Definition retried {E : Engine} (command : jsval) (s2 : St E) : St E :=
  match run (executeCommandInner command) s2 with
  | (s3, Raised m3) => answered (RError m3) s3
  | (s3, _) => s3
  end.

(** C1 as stated: a command whose execution throws a message containing
    'closed' or 'disconnected' is answered with exactly one restart, after
    which the Health Monitor has restored the session and the command is
    executed a second time. *)
Definition one_restart_and_retry {E : Engine} (command : jsval) (s : St E) : Prop :=
  forall s1 m,
    run (executeCommandInner command) s = (s1, Raised m) ->
    session_lost m = true ->
    restarts_during (executeCommand command) s = 1%nat /\
    exists s2,
      run ensureBrowserReady (retry_announced s1) = (s2, Done tt) /\
      after (executeCommand command) s = retried command s2.

(** C2 as stated: when a fresh startup failed between [before] and
    [afterwards], the daemon has cleaned the channel files up and has
    terminated with a non-zero exit status. *)
Definition startup_failure_is_fatal {E : Engine} (before afterwards : St E) : Prop :=
  (count_events is_failed_launch (trace before)
   < count_events is_failed_launch (trace afterwards))%nat ->
  exists c, exit_code afterwards = Some c /\ c <> 0 /\ files afterwards = no_files.

(** C1 as amended, for a command whose execution from [s] threw [m],
    leaving the process in [s1]. *)
Definition retry_discipline {E : Engine} (command : jsval) (s s1 : St E) (m : string)
  : Prop :=
  (session_lost m = false ->
     run (executeCommand command) s = (answered (RError m) s1, Done tt)) /\
  (session_lost m = true ->
     match run ensureBrowserReady (retry_announced s1) with
     | (s2, Done _) =>
         match run (executeCommandInner command) s2 with
         | (s3, Done _) => run (executeCommand command) s = (s3, Done tt)
         | (s3, Raised m3) =>
             run (executeCommand command) s = (answered (RError m3) s3, Done tt)
         | (s3, Halted _) => False
         end
     | (s2, Raised m2) =>
         run (executeCommand command) s = (answered (RError m2) s2, Done tt)
     | (s2, Halted _) => False
     end) /\
  (restarts_during (executeCommand command) s <= 1)%nat.

(** C7, for a restart entered in [s] whose fresh startup succeeded and left
    the process in [sb]: the new page [p] is sent to [lastURL] with a
    timeout of 30 s; the restart completes whether or not that load
    succeeds, a failure being logged; the daemon keeps running. *)
Definition restores_last_url {E : Engine} (s sb : St E) : Prop :=
  exists p,
    page (vars sb) = Some p /\
    lastURL (vars sb) = lastURL (vars s) /\
    exit_code (after restart s) = exit_code s /\
    match perform (Goto AtRestore p (JStr (lastURL (vars s))) "networkidle" 30000)
                  (restore_announced sb) with
    | (sg, Ok _) =>
        run restart s = (unmarked sg, Done tt) /\
        (goto_lands E -> page_url E p (the_world (after restart s)) = lastURL (vars s))
    | (sg, Thrown m) =>
        run restart s = (unmarked (restore_failure_logged m sg), Done tt)
    end.

(** The [catch] of the module body has logged the failure [m]. *)
Definition fatal_error_logged {E : Engine} (m : string) (s : St E) : St E :=
  record (Ev (ConsoleError [JStr "Fatal error:"; JStr m]) tt) s.

(** C2 as amended, at boot: the fresh startup of a daemon started in
    directory [fs] with the engine in [w] threw [m], leaving the process in
    [s1]. *)
Definition fatal_at_boot {E : Engine} (w : world E) (fs : Files) (s1 : St E) (m : string)
  : Prop :=
  boot w fs = after (cleanup;; Exit 1 : Prog unit) (fatal_error_logged m s1) /\
  exit_code (boot w fs) = Some 1 /\
  files (boot w fs) = no_files.

(** C2 as amended, in a lazy restart: the failure [m2] of the fresh startup,
    which left the process in [sf], is logged and answered with an error
    Response; the daemon keeps running and its ready marker stays. *)
Definition survived_in_restart {E : Engine} (command : jsval) (s sf : St E) (m2 : string)
  : Prop :=
  after (executeCommand command) s
  = answered (RError m2) (unmarked (restart_failure_logged m2 sf)) /\
  exit_code (after (executeCommand command) s) = exit_code s /\
  ready_file (files (after (executeCommand command) s)) = ready_file (files s).

(** A call that is not the page load of a [navigate] command. *)
Definition not_navigate_load (X : Type) (op : Op X) : Prop :=
  match op with
  | Goto AtNavigate _ _ _ _ => False
  | _ => True
  end.

(** The engine contract behind the target of a navigation: a page load
    that succeeds was given an address, and leaves the page at it. *)
Definition loads_land (E : Engine) : Prop :=
  forall p u waitUntil timeout w w' evs,
    page_goto E p u waitUntil timeout w = (w', evs, Ok tt) ->
    u = JStr (page_url E p w').

(** [lastURL] is the address of the most recent page load of a [navigate]
    command that succeeded. *)
Definition remembers {E : Engine} (s : St E) : Prop :=
  lastURL (vars s) = last_loaded (trace s).

(** C5 as stated, for the dispatch of [command] from [s]: [lastURL] is
    updated on success only, so that a dispatch answered with an error
    leaves it as it was. *)
Definition updated_on_success_only {E : Engine} (command : jsval) (s : St E) : Prop :=
  let s' := after (executeCommand command) s in
  (exists m, result_file (files s') = Some (RError m)) ->
  lastURL (vars s') = lastURL (vars s).

(** The process when the page load of a [navigate] has left it in [s1] and
    the three synchronous statements that follow have run: [page.url()] of
    the page [p] is read and assigned to [lastURL], and read again for the
    Response. *)
Definition landing_stored {E : Engine} (p : handle) (s1 : St E) : St E :=
  let here := page_url E p (the_world s1) in
  let read := record (Ev (Url p) here) s1 in
  record (Ev (Url p) here) (with_vars (set_lastURL here (vars read)) read).

(** C5 as amended, the assignment: the page load of the [navigate] request
    [command], issued from [s] on the page [p] for the address [u], has
    succeeded and left the process in [s1].  Then [lastURL] is what
    [page.url()] reports, before the title is asked for and whatever
    becomes of that: when [page.title()] throws, the command fails with
    [lastURL] changed, and unless the message is taken for a lost session
    it is answered with that error. *)
Definition stores_the_landing {E : Engine}
  (command : jsval) (p : handle) (s s1 : St E) : Prop :=
  let here := page_url E p (the_world s1) in
  match perform (Title p) (landing_stored p s1) with
  | (s2, Ok t) =>
      run (executeCommand command) s = (answered (RNavigated here t) s2, Done tt) /\
      lastURL (vars s2) = here
  | (s2, Thrown m) =>
      run (executeCommandInner command) s = (s2, Raised m) /\
      lastURL (vars s2) = here /\
      (session_lost m = false ->
       run (executeCommand command) s = (answered (RError m) s2, Done tt))
  end.

(** C5 as amended, with overlapping callbacks: the dispatch of the
    [navigate] request [command] from [s] is suspended at its page load on
    [p]; in whatever state [s'] that load completes successfully, the
    callback assigns to [lastURL], before it yields again, what
    [page.url()] reports of the page [p1] that is held then. *)
Definition stores_when_the_load_completes {E : Engine}
  (command : jsval) (p : handle) (u : jsval) (s : St E) : Prop :=
  exists k,
    advance (executeCommand command) s
    = (s, Vis (Goto AtNavigate p u "networkidle" 30000) k) /\
    forall (s' s1 : St E) (p1 : handle),
      page (vars s') = Some p1 ->
      perform (Goto AtNavigate p u "networkidle" 30000) s' = (s1, Ok tt) ->
      lastURL (vars (fst (resume (Vis (Goto AtNavigate p u "networkidle" 30000) k) s')))
      = page_url E p1 (the_world s1).

(** C5 as amended, for the dispatch of a command from [s]: when no page
    load of the command succeeded, an error Response is written and
    [lastURL] is what it was. *)
Definition failed_navigation_changes_nothing {E : Engine} (command : jsval) (s : St E)
  : Prop :=
  let s' := after (executeCommand command) s in
  count_events nav_ok (trace s') = count_events nav_ok (trace s) ->
  lastURL (vars s') = lastURL (vars s) /\
  exists m, result_file (files s') = Some (RError m).

(** The process with the restart mark set to [b]. *)
Definition remark {E : Engine} (b : bool) (s : St E) : St E :=
  with_vars (set_isRestarting b (vars s)) s.

(** [p] never reads the restart mark: what it goes on to do does not depend
    on it, and the values it assigns depend on it only in the mark they
    carry. *)
Fixpoint blind_to_mark {A : Type} (p : Prog A) : Prop :=
  match p with
  | Get k =>
      (forall v b, k (set_isRestarting b v) = k v) /\ (forall v, blind_to_mark (k v))
  | Put f k =>
      (forall v b, exists b', f (set_isRestarting b v) = set_isRestarting b' (f v))
      /\ blind_to_mark k
  | Vis _ k => forall x, blind_to_mark (k x)
  | _ => True
  end.

(** [p] does the same whatever the restart mark is. *)
Definition ignores_mark {E : Engine} {A : Type} (p : Prog A) : Prop :=
  forall (b : bool) (s : St E),
    snd (run p (remark b s)) = snd (run p s) /\
    exists b', after p (remark b s) = remark b' (after p s).

(** ** Situations on the small engine *)
Module Scenario.

(** The daemon has started in an empty directory. *)
Definition running : St Toy.engine := boot (E := Toy.engine) Toy.machine no_files.

(** A client has navigated to the local server. *)
Definition visited : St Toy.engine :=
  react IntervalFires
    (react (ClientWrites (Toy.request_text "navigate" [("url", "http://localhost:8080/")]))
       running).

(** Then the user has closed the browser window. *)
Definition window_closed : St Toy.engine :=
  react (Outside (E := Toy.engine) (Toy.windows_closed (the_world visited)) []) visited.

(** The window is closed and Chrome has been removed from the machine. *)
Definition chrome_gone : St Toy.engine :=
  react (Outside (E := Toy.engine)
           (Toy.chrome_removed (Toy.windows_closed (the_world running))) []) running.

(** A directory with files left by a daemon that crashed. *)
Definition stale_files : Files :=
  {| command_file := Some "{"; result_file := Some RSuccess; ready_file := Some "ready" |}.

(** The window is closed and nothing is being dispatched. *)
Definition idle_loop : Loop Toy.engine :=
  {| proc := window_closed; callbacks := [] |}.

(** A first client asks for the status; its callback finds the page closed
    and has begun the restart when a second client sends a script, whose
    callback finds the page closed as well. *)
Definition two_clients : list (Turn Toy.engine) :=
  [Write (Toy.request_text "status" []); Fire; Complete 0;
   Write (Toy.request_text "exec" [("code", "document.title")]); Fire; Complete 1].

(** The engine completes the calls of the first callback, then those of
    the second. *)
Definition both_complete : list (Turn Toy.engine) :=
  repeat (Complete 0) 8 ++ repeat (Complete 1) 8.

End Scenario.

(** *** The client's surroundings *)

(** The timer of the client never fires early. *)
Definition punctual (sur : Surroundings) : Prop :=
  forall k, 50 * (Z.of_nat k + 1) <= elapsed sur k.

(** The daemon writes the Response [r] before the first callback, and the
    timer is exact. *)
Definition answers_with (r : Response) : Surroundings :=
  {| elapsed := fun k => 50 * (Z.of_nat k + 1);
     others := fun k fs => match k with O => write_result r fs | S _ => fs end |}.

(** Nobody answers. *)
Definition silence : Surroundings :=
  {| elapsed := fun k => 50 * (Z.of_nat k + 1); others := fun _ fs => fs |}.

(** The directory with [old] in the response slot. *)
Definition with_result (old : option Response) (fs : Files) : Files :=
  {| command_file := command_file fs; result_file := old; ready_file := ready_file fs |}.

(** C4 as stated, for a client that is answered with [r]: it exits with 0
    when [r] reports success and with 1 when [r] reports an error. *)
Definition exit_status_reports_outcome
  (JSON_stringify JSON_stringify_indented : jsval -> string)
  (parseInt : option string -> option Z)
  (argv : list string) (r : Response) (fs : Files) : Prop :=
  forall e,
    client_main JSON_stringify JSON_stringify_indented parseInt argv (answers_with r) 1 fs
    = Some e ->
    (success r = true -> code e = 0) /\ (success r = false -> code e = 1).

(** The one report that throws: [console] reads [result.logs.length] of a
    success Response that carries no logs. *)
Definition reads_missing_logs (argv : list string) (r : Response) : bool :=
  match nth_error argv 0 with
  | Some action =>
      String.eqb action "console" && success r
      && match field_logs r with None => true | Some _ => false end
  | None => false
  end.

(** What the client prints when the Response it collected reports an
    error: [console-clear] does not look at the Response. *)
Definition error_lines (argv : list string) (r : Response) : list Out :=
  match nth_error argv 0 with
  | Some action =>
      if String.eqb action "console-clear"
      then [Log [JStr "Console logs cleared"]]
      else [Error [JStr "Error:"; field_error r]]
  | None => []
  end.

(** C4 as amended, for a client started with [argv] in directory [fs]. *)
Definition exit_status_of_client
  (JSON_stringify JSON_stringify_indented : jsval -> string)
  (parseInt : option string -> option Z)
  (argv : list string) (sur : Surroundings) (n : nat) (fs : Files) : Prop :=
  let main := client_main JSON_stringify JSON_stringify_indented parseInt argv sur n fs in
  (ready_file fs = None ->
   main = Some {| printed := [Error [JStr "Browser daemon not running!"];
                              Error [JStr "Start it with: node browser-daemon.js"]];
                  code := 1; left := fs |}) /\
  (ready_file fs <> None ->
   match choose JSON_stringify_indented parseInt argv with
   | Refuse lines => main = Some {| printed := lines; code := 1; left := fs |}
   | Send command report =>
       match sendCommand JSON_stringify command sur n fs with
       | (_, None) => main = None
       | (fs', Some (Thrown m)) =>
           m = "Command timeout" /\
           main = Some {| printed := [Error [JStr "Error:"; JStr "Command timeout"]];
                          code := 1; left := fs' |}
       | (fs', Some (Ok r)) =>
           if reads_missing_logs argv r
           then
             main = Some {| printed := [Error [JStr "Error:";
                                               JStr (undefined_has_no "length")]];
                            code := 1; left := fs' |}
           else
             main = Some {| printed := fst (report r); code := 0; left := fs' |} /\
             (success r = false -> fst (report r) = error_lines argv r)
       end
   end) /\
  (punctual sur -> (601 <= n)%nat -> main <> None).

(** C10, for a client that sends [command] in directory [fs]. *)
Definition no_stale_response
  (JSON_stringify : jsval -> string)
  (command : jsval) (sur : Surroundings) (n : nat) (fs : Files) : Prop :=
  result_file (post_command JSON_stringify command fs) = None /\
  command_file (post_command JSON_stringify command fs) = Some (JSON_stringify command) /\
  (forall old,
     sendCommand JSON_stringify command sur n (with_result old fs)
     = sendCommand JSON_stringify command sur n (with_result None fs)) /\
  (forall fs' r,
     sendCommand JSON_stringify command sur n fs = (fs', Some (Ok r)) ->
     exists k before,
       result_file before = None /\ result_file (others sur k before) = Some r).

(** Stand-ins for [JSON.stringify] and [parseInt] on the values and the
    arguments of the examples: no escapes, no indentation, decimal digits
    only. *)
Fixpoint toy_stringify (v : jsval) : string :=
  match v with
  | JUndef => "undefined"
  | JNull => "null"
  | JBool true => "true"
  | JBool false => "false"
  | JNum n => string_of_Z n
  | JStr s => quoted s
  | JArr items =>
      "[" ++ (fix join (l : list jsval) : string :=
                match l with
                | [] => ""
                | [x] => toy_stringify x
                | x :: rest => toy_stringify x ++ "," ++ join rest
                end) items ++ "]"
  | JObj fields =>
      "{" ++ (fix join (l : list (string * jsval)) : string :=
                match l with
                | [] => ""
                | [(k, x)] => quoted k ++ ":" ++ toy_stringify x
                | (k, x) :: rest => quoted k ++ ":" ++ toy_stringify x ++ "," ++ join rest
                end) fields ++ "}"
  end.

Fixpoint toy_digits (s : string) (acc : option Z) : option Z :=
  match s with
  | EmptyString => acc
  | String c rest =>
      let n := nat_of_ascii c in
      if (Nat.leb 48 n && Nat.leb n 57)%bool
      then toy_digits rest
             (Some (10 * match acc with Some a => a | None => 0 end + Z.of_nat (n - 48)))
      else acc
  end.

Definition toy_parseInt (a : option string) : option Z :=
  match a with
  | Some s => toy_digits s None
  | None => None
  end.

(** A directory in which a daemon is running. *)
Definition daemon_ready : Files :=
  {| command_file := None; result_file := None; ready_file := Some "ready" |}.

(** *** Further vocabulary *)

(** A call that neither writes nor deletes the result file. *)
Definition leaves_result (X : Type) (op : Op X) : Prop :=
  match op with
  | WriteResultSync _ => False
  | UnlinkSync RESULT_FILE => False
  | _ => True
  end.

(** On every path [p] either throws without having touched the result file,
    or calls [writeResult] once, with a Response that satisfies [ok], as the
    last thing it does, and returns. *)
Fixpoint answers_last (ok : Response -> Prop) {A : Type} (p : Prog A) : Prop :=
  match p with
  | Ret _ => False
  | Throw _ => True
  | Exit _ => False
  | Get k => forall v, answers_last ok (k v)
  | Put _ k => answers_last ok k
  | Vis op k =>
      match op with
      | WriteResultSync r => ok r /\ forall x, exists a, k x = Ret a
      | UnlinkSync RESULT_FILE => False
      | _ => forall x, answers_last ok (k x)
      end
  end.

(** The Response is the one of the requested [action], or an error; the
    one of [resize] gives back the width and the height of the request. *)
Definition fits (action data : jsval) (r : Response) : Prop :=
  match r with
  | RError _ => True
  | RNavigated _ _ => action = JStr "navigate"
  | RResult _ => action = JStr "exec"
  | RLogs _ => action = JStr "console"
  | RSuccess => action = JStr "console-clear"
  | RStatus _ _ _ => action = JStr "status"
  | RResized w h =>
      action = JStr "resize" /\ prop "width" data = Ok w /\ prop "height" data = Ok h
  end.

(** What the dispatch of [command] may answer. *)
Definition fits_command (command : jsval) (r : Response) : Prop :=
  match destructure_command command with
  | Ok (action, data) => fits action data r
  | Thrown _ => match r with RError _ => True | _ => False end
  end.

(** The actions with a [case] of their own in [executeCommandInner]. *)
Definition known_action (action : jsval) : bool :=
  match action with
  | JStr a =>
      String.eqb a "navigate" || String.eqb a "exec" || String.eqb a "console"
      || String.eqb a "console-clear" || String.eqb a "status" || String.eqb a "resize"
  | _ => false
  end.

(** A daemon that has booted and serves: its marker is in place, its poll
    loop runs every 100 ms, its SIGINT handler is bound, and it holds a
    browser and a page, usable or not. *)
Definition serving {E : Engine} (s : St E) : Prop :=
  ready_file (files s) = Some "ready" /\ interval s = Some 100 /\ sigint_bound s = true /\
  browser (vars s) <> None /\ page (vars s) <> None.

(** A call that leaves the three channel files alone. *)
Definition leaves_files (X : Type) (op : Op X) : Prop :=
  match op with
  | UnlinkSync _ => False
  | WriteResultSync _ => False
  | WriteReadySync _ => False
  | _ => True
  end.

(** A call that leaves the ready marker, the poll loop and the SIGINT
    handler as they are. *)
Definition keeps_serving (X : Type) (op : Op X) : Prop :=
  match op with
  | UnlinkSync READY_FILE => False
  | WriteReadySync _ => False
  | SetInterval _ => False
  | OnSigint => False
  | _ => True
  end.

(** An assignment that does not forget the browser or the page. *)
Definition keeps_handles (f : Vars -> Vars) : Prop :=
  forall v, (browser v <> None -> browser (f v) <> None) /\
            (page v <> None -> page (f v) <> None).

(** Inputs without SIGINT. *)
Definition uninterrupted {E : Engine} (inputs : list (Input E)) : Prop :=
  Forall (fun i => match i with Interrupt => False | _ => True end) inputs.

(** The process once [startDaemon] has gone on from a startup that left it
    in [s1]: the marker is written, the poll loop is set up and the SIGINT
    handler is bound. *)
Definition listening {E : Engine} (s1 : St E) : St E :=
  record (Ev OnSigint tt)
    (with_sigint true
       (record (Ev (SetInterval 100) tt)
          (with_interval (Some 100)
             (record (Ev (ConsoleLog [JStr ""]) tt)
                (record (Ev (ConsoleLog [JStr "Listening for commands..."]) tt)
                   (record (Ev (WriteReadySync "ready") tt)
                      (with_files (write_ready "ready" (files s1)) s1))))))).

(** The process once the SIGINT handler has announced the shutdown and
    looked at the browser. *)
Definition shutdown_announced {E : Engine} (s : St E) : St E :=
  let s1 := record (Ev (ConsoleLog [JStr (newline ++ "Shutting down...")]) tt) s in
  match browser (vars s) with
  | Some b => record (Ev (IsConnected b) (browser_isConnected E b (the_world s))) s1
  | None => s1
  end.

(** [browser && browser.isConnected()] as a value. *)
Definition holds_connected_browser {E : Engine} (s : St E) : option handle :=
  match browser (vars s) with
  | Some b => if browser_isConnected E b (the_world s) then Some b else None
  | None => None
  end.

(** The files after the other processes have acted [k] times, [fs] being
    what the client left when it posted its request: at its look number
    [k] at the result file the client finds [files_by_look sur (S k) fs]. *)
Fixpoint files_by_look (sur : Surroundings) (k : nat) (fs : Files) : Files :=
  match k with
  | O => fs
  | S k' => others sur k' (files_by_look sur k' fs)
  end.

(** The daemon [s] answers the request posted in [fs] before the client's
    look number [j] at the result file: at the looks before, the client
    finds no Response, whatever else has happened to the files, and its
    30 s are not over; at look [j] it finds the files as the daemon's
    interval callback leaves them, run on the posted files with the
    dispatch it began completed. *)
Definition answered_before_look {E : Engine}
  (sur : Surroundings) (j : nat) (s : St E) (fs : Files) : Prop :=
  (forall k, (k < j)%nat ->
     result_file (files_by_look sur (S k) fs) = None /\ elapsed sur k <= 30000) /\
  files_by_look sur (S j) fs = files (react IntervalFires (with_files fs s)).

(** No Response to the request posted in [fs] is there at any of the
    client's looks while its 30 s run. *)
Definition unanswered_in_time (sur : Surroundings) (fs : Files) : Prop :=
  forall k, (k <= 600)%nat -> result_file (files_by_look sur (S k) fs) = None.

(** Surroundings in which nobody touches the files. *)
Definition undisturbed (sur : Surroundings) : Prop :=
  forall k fs, others sur k fs = fs.

(** Turns among which no client writes a request. *)
Definition unwritten {E : Engine} (ts : list (Turn E)) : Prop :=
  Forall (fun t => match t with Write _ => False | _ => True end) ts.

(** On every path [p] calls [writeResult] exactly once, as the last thing
    it does, and returns: it neither throws nor exits. *)
Fixpoint answers_once {A : Type} (p : Prog A) : Prop :=
  match p with
  | Ret _ => False
  | Throw _ => False
  | Exit _ => False
  | Get k => forall v, answers_once (k v)
  | Put _ k => answers_once k
  | Vis op k =>
      match op with
      | WriteResultSync _ => forall x, exists a, k x = Ret a
      | UnlinkSync RESULT_FILE => False
      | _ => forall x, answers_once (k x)
      end
  end.

(** A callback and the process once [n] more of the calls the callback
    awaits have completed, nothing else happening in between. *)
Fixpoint completions {E : Engine} (n : nat) (sp : St E * Prog unit) : St E * Prog unit :=
  match n with
  | O => sp
  | S n' => completions n' (resume (snd sp) (fst sp))
  end.

(** The callback [p], started in [s], when [n] of the calls it awaits have
    completed. *)
Definition after_completions {E : Engine} (n : nat) (p : Prog unit) (s : St E)
  : St E * Prog unit :=
  completions n (advance p s).

(** Where a dispatch started in [s] stands: either it is suspended at a
    call it awaits, and then it has written no Response and the result
    file is as it was; or it has returned, and then it has written exactly
    one Response, as the last thing it did. *)
Definition dispatch_state {E : Engine} (s : St E) (sp : St E * Prog unit) : Prop :=
  (suspended (snd sp) = true /\
   count_events is_write_result (trace (fst sp)) = count_events is_write_result (trace s) /\
   result_file (files (fst sp)) = result_file (files s)) \/
  (snd sp = Ret tt /\
   exists r s0,
     fst sp = answered r s0 /\
     count_events is_write_result (trace s0) = count_events is_write_result (trace s)).

(** The files while the interval callback of the daemon [s], which found
    the request posted in [fs], waits for the first call it awaits. *)
Definition taken {E : Engine} (s : St E) (fs : Files) : Files :=
  files (fst (after_completions 0 (tick (JSON_parse E)) (with_files fs s))).

(** The surroundings of a client with an exact timer, whose request,
    posted in [fs], the daemon [s] takes before the client's first look
    and answers before its look number [j]. *)
Definition served_at {E : Engine} (j : nat) (s : St E) (fs : Files) : Surroundings :=
  {| elapsed := fun k => 50 * (Z.of_nat k + 1);
     others := fun k now =>
       if Nat.ltb k j then taken s fs
       else if Nat.eqb k j then files (react IntervalFires (with_files fs s))
       else now |}.

(** The surroundings of a client with an exact timer, whose request,
    posted in [fs], the daemon [s] takes before the client's first look;
    a call the dispatch awaits never settles. *)
Definition never_served {E : Engine} (s : St E) (fs : Files) : Surroundings :=
  {| elapsed := fun k => 50 * (Z.of_nat k + 1);
     others := fun _ _ => taken s fs |}.

(** * Properties *)

(** ** The interpreter and the control operators *)

Section Semantics.

Variable E : Engine.
Implicit Types s : St E.

Lemma run_bind {A B : Type} (p : Prog A) (f : A -> Prog B) s :
  run (bind p f) s =
  match run p s with
  | (s', Done a) => run (f a) s'
  | (s', Raised m) => (s', Raised m)
  | (s', Halted c) => (s', Halted c)
  end.
Proof.
  unfold run. revert s.
  induction p as [a | m | c | k IH | g k IH | X op k IH]; intros s; cbn; auto.
  destruct (perform_with deliver op s) as [s' x]. apply IH.
Qed.

Lemma run_try_catch {A : Type} (p : Prog A) (h : string -> Prog A) s :
  run (try_catch p h) s =
  match run p s with
  | (s', Raised m) => run (h m) s'
  | other => other
  end.
Proof.
  unfold run. revert s.
  induction p as [a | m | c | k IH | g k IH | X op k IH]; intros s; cbn; auto.
  destruct (perform_with deliver op s) as [s' x]. apply IH.
Qed.

Lemma run_finally {A : Type} (p : Prog A) (q : Prog unit) s :
  run (finally p q) s =
  match run p s with
  | (s', Done a) => run (q;; Ret a) s'
  | (s', Raised m) => run (q;; Throw m) s'
  | (s', Halted c) => (s', Halted c)
  end.
Proof.
  unfold run. revert s.
  induction p as [a | m | c | k IH | g k IH | X op k IH]; intros s; cbn; auto.
  destruct (perform_with deliver op s) as [s' x]. apply IH.
Qed.

Lemma run_call {X : Type} (op : Op (result X)) s :
  run (call op) s =
  match perform op s with
  | (s', Ok x) => (s', Done x)
  | (s', Thrown m) => (s', Raised m)
  end.
Proof.
  unfold run, call, perform. cbn.
  destruct (perform_with deliver op s) as [s' [x | m]]; reflexivity.
Qed.

Lemma run_perform_op {X : Type} (op : Op X) s :
  run (perform_op op) s = (fst (perform op s), Done (snd (perform op s))).
Proof.
  unfold run, perform_op, perform. cbn.
  destruct (perform_with deliver op s) as [s' x]; reflexivity.
Qed.

Lemma after_bind {A B : Type} (p : Prog A) (f : A -> Prog B) s :
  after (bind p f) s =
  match run p s with
  | (s', Done a) => after (f a) s'
  | (s', _) => s'
  end.
Proof.
  unfold after. rewrite run_bind.
  destruct (run p s) as [s' [a | m | c]]; reflexivity.
Qed.

Lemma after_try_catch {A : Type} (p : Prog A) (h : string -> Prog A) s :
  after (try_catch p h) s =
  match run p s with
  | (s', Raised m) => after (h m) s'
  | (s', _) => s'
  end.
Proof.
  unfold after. rewrite run_try_catch.
  destruct (run p s) as [s' [a | m | c]]; reflexivity.
Qed.

(** *** Invariants from footprints *)

(** A property of the process that every permitted call and assignment
    keeps is kept by every program made of them, however it ends. *)
Lemma within_keeps (I : St E -> Prop)
  (okop : forall X : Type, Op X -> Prop) (okput : (Vars -> Vars) -> Prop) :
  (forall X (op : Op X) s, okop X op -> I s -> I (fst (perform op s))) ->
  (forall f s, okput f -> I s -> I (with_vars (f (vars s)) s)) ->
  forall (A : Type) (p : Prog A) s, within okop okput p -> I s -> I (after p s).
Proof.
  intros Hop Hput A p. unfold after, run.
  induction p as [a | m | c | k IH | g k IH | X op k IH]; intros s W HI; cbn in *; auto.
  - contradiction.
  - destruct W as [Wg Wk]. apply IH; auto.
  - destruct W as [Wop Wk].
    specialize (Hop X op s Wop HI). unfold perform in Hop.
    destruct (perform_with deliver op s) as [s' x]. cbn in Hop. apply IH; auto.
Qed.

Lemma within_bind okop okput {A B : Type} (p : Prog A) (f : A -> Prog B) :
  within okop okput p -> (forall a, within okop okput (f a)) ->
  within okop okput (bind p f).
Proof.
  induction p as [a | m | c | k IH | g k IH | X op k IH]; cbn; intros W Wf; auto.
  - destruct W; split; auto.
  - destruct W; split; auto.
Qed.

Lemma within_try_catch okop okput {A : Type} (p : Prog A) (h : string -> Prog A) :
  within okop okput p -> (forall m, within okop okput (h m)) ->
  within okop okput (try_catch p h).
Proof.
  induction p as [a | m | c | k IH | g k IH | X op k IH]; cbn; intros W Wh; auto.
  - destruct W; split; auto.
  - destruct W; split; auto.
Qed.

Lemma within_finally okop okput {A : Type} (p : Prog A) (q : Prog unit) :
  within okop okput p -> within okop okput q ->
  within okop okput (finally p q).
Proof.
  induction p as [a | m | c | k IH | g k IH | X op k IH]; cbn; intros W Wq; auto.
  - apply within_bind; cbn; auto.
  - apply within_bind; cbn; auto.
  - destruct W; split; auto.
  - destruct W; split; auto.
Qed.

End Semantics.

(** ** Calls, listeners and the buffer *)

Ltac footprint :=
  repeat first
    [ progress cbn
    | progress intros
    | split
    | exact I
    | reflexivity
    | match goal with
      | |- context [match ?x with _ => _ end] => destruct x
      end
    | progress unfold of_result, prop, destructure_command ].

Section Effects.

Variable E : Engine.
Implicit Types s : St E.

Lemma fired_entries_app (new2 new1 : list Event) :
  fired_entries (new2 ++ new1) = (fired_entries new1 ++ fired_entries new2)%list.
Proof.
  induction new2 as [| e new2 IH]; cbn.
  - now rewrite app_nil_r.
  - destruct e as [X op r | e | c]; rewrite IH; auto using app_assoc.
Qed.

Lemma fired_entries_listener_free (new : list Event) :
  forallb (fun e => negb (match e with Fired _ => true | _ => false end)) new = true ->
  fired_entries new = [].
Proof.
  induction new as [| e new IH]; cbn; auto.
  destruct e; cbn; auto. discriminate.
Qed.

(** A call by itself touches neither the variables nor the trace. *)
Lemma exec_op_frame {X : Type} (op : Op X) s :
  vars (fst (fst (exec_op op s))) = vars s /\
  trace (fst (fst (exec_op op s))) = trace s /\
  exit_code (fst (fst (exec_op op s))) = exit_code s.
Proof.
  destruct op; cbn; unfold engine_call; auto;
    repeat match goal with
           | |- context [match ?c with _ => _ end] => destruct c
           end; cbn; auto.
Qed.

(** A listener pushes the entry of its event and logs one line. *)
Lemma deliver_effect (e : PageEvent) s :
  exists line,
    deliver e (record (Fired e) s) =
    record (Ev (ConsoleLog line) tt)
      (record (Fired e) (with_vars (push_log (entry_of e) (vars s)) s)).
Proof.
  destruct e as [t x l | m k]; eexists; unfold deliver; cbn; reflexivity.
Qed.

Lemma deliver_all_effect (evs : list PageEvent) s :
  exists new,
    forallb listener_event new = true /\
    fired_entries new = map entry_of evs /\
    deliver_all evs s =
    with_trace (new ++ trace s)
      (with_vars (set_consoleLogs (consoleLogs (vars s) ++ map entry_of evs) (vars s)) s).
Proof.
  revert s. induction evs as [| e evs IH]; intros s.
  - exists []. cbn. repeat split. rewrite app_nil_r.
    destruct s as [w [b c p l r u] f i g x t]; reflexivity.
  - cbn [deliver_all fold_left].
    destruct (deliver_effect e s) as [line He]. rewrite He.
    destruct (IH (record (Ev (ConsoleLog line) tt)
                    (record (Fired e) (with_vars (push_log (entry_of e) (vars s)) s))))
      as (new & Hq & Hf & Hd).
    unfold deliver_all in Hd. rewrite Hd.
    exists (new ++ [Ev (ConsoleLog line) tt; Fired e])%list. repeat split.
    + rewrite forallb_app, Hq. reflexivity.
    + rewrite fired_entries_app, Hf. reflexivity.
    + cbn. rewrite <- !app_assoc. reflexivity.
Qed.

(** One completed call: the buffer gains the entries of the events that
    arrived meanwhile and nothing else about the variables changes. *)
Lemma perform_effect {X : Type} (op : Op X) s :
  exists new,
    forallb listener_event new = true /\
    trace (fst (perform op s)) = (Ev op (snd (perform op s)) :: new ++ trace s)%list /\
    vars (fst (perform op s)) =
    set_consoleLogs (consoleLogs (vars s) ++ fired_entries new) (vars s) /\
    exit_code (fst (perform op s)) = exit_code s.
Proof.
  unfold perform, perform_with.
  pose proof (exec_op_frame op s) as (Hv & Ht & Hx).
  destruct (exec_op op s) as [[s1 evs] x]. cbn in Hv, Ht, Hx. cbn [fst snd].
  destruct (deliver_all_effect evs s1) as (new & Hq & Hf & Hd).
  unfold deliver_all in Hd. rewrite Hd.
  exists new. cbn. rewrite Hv, Ht, Hx, Hf. auto.
Qed.

Lemma buffer_grows_within {A : Type} (p : Prog A) :
  within any_op keeps_logs p -> buffer_grows_by_events (E := E) p.
Proof.
  intros W s0.
  apply (within_keeps E
           (fun s => exists new,
              trace s = (new ++ trace s0)%list /\
              consoleLogs (vars s) = (consoleLogs (vars s0) ++ fired_entries new)%list)
           any_op keeps_logs); auto.
  - intros X op s _ (new & Ht & Hl).
    destruct (perform_effect op s) as (new' & _ & Ht' & Hv' & _).
    exists (Ev op (snd (perform op s)) :: new' ++ new)%list. split.
    + rewrite Ht', Ht, app_assoc. reflexivity.
    + rewrite Hv'. cbn [consoleLogs set_consoleLogs fired_entries].
      rewrite Hl, fired_entries_app, app_assoc. reflexivity.
  - intros f s Hf (new & Ht & Hl). exists new. cbn. rewrite Hf. auto.
  - exists []. cbn. rewrite app_nil_r. auto.
Qed.

Lemma startBrowser_keeps_logs : within any_op keeps_logs startBrowser.
Proof. unfold any_op, keeps_logs. footprint. Qed.

Lemma ensureBrowserReady_keeps_logs : within any_op keeps_logs ensureBrowserReady.
Proof. unfold any_op, keeps_logs. footprint. Qed.

Lemma restart_keeps_logs : within any_op keeps_logs restart.
Proof. unfold any_op, keeps_logs. footprint. Qed.

(** C8. A restart by the Session Health Monitor does not clear the console
    log buffer and removes no entry from it: after the fresh startup, after
    the restart and after the whole usability check with its restart, the
    buffer is what it was before, followed by the entries of the events the
    listeners received meanwhile. *)
Theorem restart_keeps_console_log_buffer :
  buffer_grows_by_events (E := E) startBrowser /\
  buffer_grows_by_events (E := E) restart /\
  buffer_grows_by_events (E := E) ensureBrowserReady.
Proof.
  repeat split; apply buffer_grows_within.
  - apply startBrowser_keeps_logs.
  - apply restart_keeps_logs.
  - apply ensureBrowserReady_keeps_logs.
Qed.

(** C9. Whatever the buffer held, [console-clear] directly followed by
    [console] answers with a success Response whose logs are the empty
    sequence. *)
Theorem console_after_console_clear_is_empty s :
  result_file (files (after (executeCommand console_request)
                        (after (executeCommand console_clear_request) s)))
  = Some (RLogs []).
Proof.
  unfold after, run. cbn. reflexivity.
Qed.

End Effects.

(** ** The poll loop *)

Section PollLoop.

Variable E : Engine.
Implicit Types s : St E.

Lemma perform_files {X : Type} (op : Op X) s :
  files (fst (perform op s)) = files (fst (fst (exec_op op s))) /\
  the_world (fst (perform op s)) = the_world (fst (fst (exec_op op s))) /\
  snd (perform op s) = snd (exec_op op s).
Proof.
  unfold perform, perform_with.
  destruct (exec_op op s) as [[s1 evs] x]. cbn [fst snd].
  destruct (deliver_all_effect E evs s1) as (new & _ & _ & Hd).
  unfold deliver_all in Hd. rewrite Hd. cbn. auto.
Qed.

(** No call of the daemon creates the command file. *)
Lemma exec_op_command_file {X : Type} (op : Op X) s :
  command_file (files s) = None ->
  command_file (files (fst (fst (exec_op op s)))) = None.
Proof.
  intros H. destruct op; cbn; unfold engine_call; auto;
    try match goal with f : File |- _ => destruct f end; cbn; rewrite ?H;
    repeat match goal with
           | |- context [match ?c with _ => _ end] => destruct c
           end; cbn; auto.
Qed.

Lemma trace_grows {A : Type} (p : Prog A) s :
  exists new, trace (after p s) = (new ++ trace s)%list.
Proof.
  unfold after, run. revert s.
  induction p as [a | m | c | k IH | g k IH | X op k IH]; intros s; cbn.
  - now exists [].
  - now exists [].
  - now exists [Exited c].
  - apply IH.
  - destruct (IH (with_vars (g (vars s)) s)) as [new H]. exists new. exact H.
  - destruct (perform_effect E op s) as (new & _ & Ht & _).
    unfold perform in Ht.
    destruct (perform_with deliver op s) as [s' x]. cbn [fst snd] in Ht.
    destruct (IH x s') as [new' H]. exists (new' ++ Ev op x :: new)%list.
    rewrite H, Ht, <- app_assoc. reflexivity.
Qed.

(** The programs below never exit. *)
Lemma switch_action_stays (action data : jsval) :
  within any_op any_put (switch_action action data).
Proof.
  unfold any_op, any_put, switch_action.
  destruct action; unfold case_default; footprint.
Qed.

Lemma executeCommandInner_stays (command : jsval) :
  within any_op any_put (executeCommandInner command).
Proof.
  unfold executeCommandInner. apply within_bind.
  - destruct (destructure_command command); cbn; auto.
  - intros ad. apply switch_action_stays.
Qed.

Lemma ensureBrowserReady_stays : within any_op any_put ensureBrowserReady.
Proof. unfold any_op, any_put. footprint. Qed.

Lemma executeCommand_stays (command : jsval) :
  within any_op any_put (executeCommand command).
Proof.
  unfold executeCommand. apply within_try_catch.
  - apply executeCommandInner_stays.
  - intros m. destruct (session_lost m).
    + apply within_bind; [unfold any_op; footprint |]. intros _.
      apply within_try_catch; [| unfold any_op; footprint].
      apply within_bind; [apply ensureBrowserReady_stays |].
      intros _. apply executeCommandInner_stays.
    + unfold any_op. footprint.
Qed.

Lemma process_stays parse (d : string) : within any_op any_put (process parse d).
Proof.
  unfold process. apply within_try_catch.
  - apply within_bind.
    + destruct (parse d); cbn; auto.
    + intros c. apply executeCommand_stays.
  - intros m. unfold any_op, any_put. footprint.
Qed.

Lemma command_file_stays_absent {A : Type} (p : Prog A) s :
  within any_op any_put p ->
  command_file (files s) = None -> command_file (files (after p s)) = None.
Proof.
  intros W. apply (within_keeps E (fun s => command_file (files s) = None) any_op any_put); auto.
  intros X op s1 _ H. destruct (perform_files op s1) as (Hf & _).
  rewrite Hf. now apply exec_op_command_file.
Qed.

Lemma tick_consumes_first parse d s :
  command_file (files s) = Some d ->
  run (tick parse) s = run (process parse d) (consumed d s).
Proof.
  intros H. unfold tick, run.
  repeat (cbn; unfold perform_with; cbn; rewrite ?H).
  reflexivity.
Qed.

Lemma tick_idle parse s :
  command_file (files s) = None ->
  run (tick parse) s = (record (Ev (ExistsSync COMMAND_FILE) false) s, Done tt).
Proof.
  intros H. unfold tick, run.
  repeat (cbn; unfold perform_with; cbn; rewrite ?H).
  reflexivity.
Qed.

Lemma process_malformed parse d m s :
  parse d = Thrown m ->
  run (process parse d) s = (rejected m s, Done tt).
Proof.
  intros H. unfold process, run. rewrite H. cbn. reflexivity.
Qed.

(** C6. A request found at a poll tick is read and its file deleted before
    anything else happens: decoding and dispatch start from a process in
    which the request slot is already free, the slot is still free when the
    callback ends, and the next tick finds nothing to dispatch.  When the
    request cannot be decoded, the callback does nothing but log the failure
    and write one error Response carrying the decoder's message. *)
Theorem request_is_consumed_before_dispatch (d : string) s :
  command_file (files s) = Some d ->
  let s' := after (tick (JSON_parse E)) s in
  run (tick (JSON_parse E)) s = run (process (JSON_parse E) d) (consumed d s) /\
  command_file (files (consumed d s)) = None /\
  command_file (files s') = None /\
  run (tick (JSON_parse E)) s' = (record (Ev (ExistsSync COMMAND_FILE) false) s', Done tt) /\
  (forall m, JSON_parse E d = Thrown m ->
     s' = rejected m (consumed d s) /\
     result_file (files s') = Some (RError m) /\
     count_events is_write_result (trace s') = S (count_events is_write_result (trace s)) /\
     count_events is_engine_call (trace s') = count_events is_engine_call (trace s)).
Proof.
  intros H s'.
  assert (Hs' : command_file (files s') = None).
  { unfold s', after. rewrite (tick_consumes_first _ d s H).
    apply command_file_stays_absent; [apply process_stays | reflexivity]. }
  repeat split; auto.
  - now apply tick_consumes_first.
  - now apply tick_idle.
  - unfold s', after. rewrite (tick_consumes_first _ d s H).
    now rewrite (process_malformed _ d m).
  - unfold s', after. rewrite (tick_consumes_first _ d s H).
    now rewrite (process_malformed _ d m).
  - unfold s', after. rewrite (tick_consumes_first _ d s H).
    now rewrite (process_malformed _ d m).
  - unfold s', after. rewrite (tick_consumes_first _ d s H).
    now rewrite (process_malformed _ d m).
Qed.

End PollLoop.

(** A daemon on the small engine finds a text that is not JSON. *)
Lemma request_is_consumed_before_dispatch_witness :
  let s := react (ClientWrites "{not json") (boot (E := Toy.engine) Toy.machine no_files) in
  command_file (files s) = Some "{not json" /\
  command_file (files (after (tick Toy.parse) s)) = None /\
  result_file (files (after (tick Toy.parse) s))
  = Some (RError "Unexpected token in JSON: {not json").
Proof.
  intros s.
  destruct (request_is_consumed_before_dispatch Toy.engine "{not json" s eq_refl)
    as (_ & _ & Hc & _ & Hm).
  destruct (Hm "Unexpected token in JSON: {not json" eq_refl) as (_ & Hr & _).
  split; [reflexivity | split; [exact Hc | exact Hr]].
Defined.

(** ** Single calls *)

Section Calls.

Variable E : Engine.
Implicit Types s : St E.

Lemma perform_vars_fields {X : Type} (op : Op X) s :
  browser (vars (fst (perform op s))) = browser (vars s) /\
  context (vars (fst (perform op s))) = context (vars s) /\
  page (vars (fst (perform op s))) = page (vars s) /\
  isRestarting (vars (fst (perform op s))) = isRestarting (vars s) /\
  lastURL (vars (fst (perform op s))) = lastURL (vars s).
Proof.
  destruct (perform_effect E op s) as (new & _ & _ & Hv & _). rewrite Hv. cbn. auto.
Qed.

(** The synchronous calls, computed. *)
Lemma perform_log a s :
  perform_with deliver (ConsoleLog a) s = (record (Ev (ConsoleLog a) tt) s, tt).
Proof. reflexivity. Qed.

Lemma perform_error a s :
  perform_with deliver (ConsoleError a) s = (record (Ev (ConsoleError a) tt) s, tt).
Proof. reflexivity. Qed.

Lemma perform_write_result r s :
  perform_with deliver (WriteResultSync r) s = (answered r s, tt).
Proof. reflexivity. Qed.

Lemma perform_on p s :
  perform_with deliver (On p) s =
  (record (Ev (On p) tt) (with_world (page_on E p (the_world s)) s), tt).
Proof. reflexivity. Qed.

Lemma perform_is_connected b s :
  perform_with deliver (IsConnected b) s =
  (record (Ev (IsConnected b) (browser_isConnected E b (the_world s))) s,
   browser_isConnected E b (the_world s)).
Proof. reflexivity. Qed.

Lemma perform_url p s :
  perform_with deliver (Url p) s =
  (record (Ev (Url p) (page_url E p (the_world s))) s, page_url E p (the_world s)).
Proof. reflexivity. Qed.

End Calls.

(** Compute the synchronous calls of the goal. *)
Ltac sync :=
  rewrite ?perform_log, ?perform_error, ?perform_write_result, ?perform_on,
    ?perform_is_connected, ?perform_url.

(** Name the completion of the next awaited call of the goal. *)
Ltac step :=
  match goal with
  | |- context [perform_with deliver ?op ?s] =>
      let s' := fresh "s" in
      let x := fresh "x" in
      let Hp := fresh "Hp" in
      destruct (perform_with deliver op s) as [s' x] eqn:Hp
  end.

(** ** The session health monitor *)

Section HealthMonitor.

Variable E : Engine.
Implicit Types s : St E.

(** The teardown of the old session cannot fail. *)
Lemma teardown_done s : exists st, run teardown s = (st, Done tt).
Proof.
  unfold teardown, browser_connected, run. cbn.
  destruct (browser (vars s)) as [b |] eqn:Hb; cbn.
  - sync. cbn. destruct (browser_isConnected E b (the_world s)); cbn.
    + rewrite Hb. cbn. step. destruct x as [[] | m]; cbn; eauto.
    + eauto.
  - eauto.
Qed.

(** The usability check cannot fail: it answers whether to restart. *)
Lemma probe_done s : exists sp needsRestart, run probe s = (sp, Done needsRestart).
Proof.
  unfold probe, browser_connected, run. cbn.
  destruct (browser (vars s)) as [b |] eqn:Hb; cbn.
  - sync. cbn. destruct (browser_isConnected E b (the_world s)); cbn.
    + destruct (page (vars s)) as [p |]; cbn.
      * step. destruct x; cbn; eauto.
      * eauto.
    + eauto.
  - eauto.
Qed.

Lemma run_restart s :
  run restart s =
  match run teardown (marked s) with
  | (st, Done _) =>
      match run startBrowser st with
      | (sb, Done _) =>
          match run restore sb with
          | (sr, Done _) => (unmarked sr, Done tt)
          | (sr, Raised m) => (unmarked (restart_failure_logged m sr), Raised m)
          | (sr, Halted c) => (sr, Halted c)
          end
      | (sb, Raised m) => (unmarked (restart_failure_logged m sb), Raised m)
      | (sb, Halted c) => (sb, Halted c)
      end
  | (st, Raised m) => (unmarked (restart_failure_logged m st), Raised m)
  | (st, Halted c) => (st, Halted c)
  end.
Proof.
  assert (H : run restart s =
              run (finally
                     (try_catch
                        (teardown;; startBrowser;; restore)
                        (fun m => console_error [JStr "Failed to restart browser:"; JStr m];;
                                  Throw m))
                     (assign (set_isRestarting false))) (marked s)) by reflexivity.
  rewrite H. clear H.
  rewrite run_finally, run_try_catch, run_bind.
  destruct (run teardown (marked s)) as [st [[] | m | c]].
  - rewrite run_bind. destruct (run startBrowser st) as [sb [[] | m | c]].
    + destruct (run restore sb) as [sr [[] | m | c]]; reflexivity.
    + reflexivity.
    + reflexivity.
  - reflexivity.
  - reflexivity.
Qed.

Lemma run_ensureBrowserReady s :
  run ensureBrowserReady s =
  match run probe s with
  | (sp, Done true) => run restart sp
  | (sp, Done false) => (sp, Done tt)
  | (sp, Raised m) => (sp, Raised m)
  | (sp, Halted c) => (sp, Halted c)
  end.
Proof.
  unfold ensureBrowserReady. rewrite run_bind.
  destruct (run probe s) as [sp [[|] | m | c]]; reflexivity.
Qed.

(** A fresh startup that succeeds leaves a page in [page]. *)
Lemma startBrowser_sets_page s sb :
  run startBrowser s = (sb, Done tt) -> exists p, page (vars sb) = Some p.
Proof.
  unfold startBrowser, run. cbn. sync. cbn.
  step. destruct x as [b | m]; cbn; [| discriminate].
  step. destruct x as [c | m]; cbn; [| discriminate].
  step. destruct x as [p | m]; cbn; [| discriminate].
  step. destruct x as [sz | m]; cbn; [| discriminate].
  sync. cbn.
  pose proof (perform_vars_fields E (Screen p) (with_vars (set_page (Some p) (vars s2)) s2))
    as (_ & _ & Hpage & _).
  unfold perform in Hpage. rewrite Hp2 in Hpage. cbn in Hpage. rewrite Hpage. cbn.
  step. destruct x as [[] | m]; cbn; [| discriminate].
  sync. cbn.
  pose proof (perform_vars_fields E
                (SetViewportSize p (JNum (availWidth sz)) (JNum (availHeight sz)))
                (record (Ev (ConsoleLog [JStr "Window inner:"; JNum (innerWidth sz);
                                         JStr "x"; JNum (innerHeight sz)]) tt)
                   (record (Ev (ConsoleLog [JStr "Screen available:"; JNum (availWidth sz);
                                            JStr "x"; JNum (availHeight sz)]) tt) s3)))
    as (_ & _ & Hpage' & _).
  unfold perform in Hpage'. rewrite Hp3 in Hpage'. cbn in Hpage'.
  rewrite Hpage', Hpage. cbn. sync. cbn.
  intros H. inversion H; subst. cbn. rewrite Hpage', Hpage. eauto.
Qed.

(** The restoration of [lastURL] on a session that has a page: it is
    attempted when the address is restorable, with the timeout of 30 s, and
    a failure is logged and goes no further. *)
Lemma run_restore s p :
  page (vars s) = Some p ->
  run restore s =
  if restorable (lastURL (vars s))
  then
    match perform (Goto AtRestore p (JStr (lastURL (vars s))) "networkidle" 30000)
                  (restore_announced s) with
    | (sg, Ok _) => (sg, Done tt)
    | (sg, Thrown m) => (restore_failure_logged m sg, Done tt)
    end
  else (s, Done tt).
Proof.
  intros Hp. unfold restore, run, perform, restore_announced. cbn.
  destruct (restorable (lastURL (vars s))); [| reflexivity].
  cbn. sync. cbn. rewrite Hp. cbn.
  step. destruct x as [[] | m]; cbn; sync; reflexivity.
Qed.

End HealthMonitor.

(** ** What a dispatch leaves alone, and how often it launches *)

Section Frames.

Variable E : Engine.
Implicit Types s : St E.

Lemma lastURL_kept {A : Type} (p : Prog A) s :
  within any_op keeps_lastURL p -> lastURL (vars (after p s)) = lastURL (vars s).
Proof.
  intros W.
  apply (within_keeps E (fun s' => lastURL (vars s') = lastURL (vars s))
           any_op keeps_lastURL); auto.
  - intros X op s1 _ H. destruct (perform_vars_fields E op s1) as (_ & _ & _ & _ & Hu).
    congruence.
  - intros f s1 Hf H. cbn. rewrite Hf. exact H.
Qed.

Lemma exit_code_kept {A : Type} (p : Prog A) s :
  within any_op any_put p -> exit_code (after p s) = exit_code s.
Proof.
  intros W.
  apply (within_keeps E (fun s' => exit_code s' = exit_code s) any_op any_put); auto.
  intros X op s1 _ H. destruct (perform_effect E op s1) as (_ & _ & _ & _ & Hx).
  congruence.
Qed.

Lemma exec_op_ready_file {X : Type} (op : Op X) s :
  leaves_ready X op ->
  ready_file (files (fst (fst (exec_op op s)))) = ready_file (files s).
Proof.
  destruct op; cbn; unfold engine_call; auto;
    try match goal with f : File |- _ => destruct f end; cbn; try contradiction;
    repeat match goal with
           | |- context [match ?c with _ => _ end] => destruct c
           end; cbn; auto.
Qed.

Lemma ready_file_kept {A : Type} (p : Prog A) s :
  within leaves_ready any_put p -> ready_file (files (after p s)) = ready_file (files s).
Proof.
  intros W.
  apply (within_keeps E (fun s' => ready_file (files s') = ready_file (files s))
           leaves_ready any_put); auto.
  intros X op s1 Hop H. destruct (perform_files E op s1) as (Hf & _).
  rewrite Hf, exec_op_ready_file; auto.
Qed.

Lemma teardown_keeps_lastURL : within any_op keeps_lastURL teardown.
Proof. unfold any_op, keeps_lastURL. footprint. Qed.

Lemma startBrowser_keeps_lastURL : within any_op keeps_lastURL startBrowser.
Proof. unfold any_op, keeps_lastURL. footprint. Qed.

Lemma ensureBrowserReady_keeps_lastURL : within any_op keeps_lastURL ensureBrowserReady.
Proof. unfold any_op, keeps_lastURL. footprint. Qed.

Lemma restart_stays : within any_op any_put restart.
Proof. unfold any_op, any_put. footprint. Qed.

Lemma executeCommand_leaves_ready (command : jsval) :
  within leaves_ready any_put (executeCommand command).
Proof.
  unfold executeCommand. apply within_try_catch.
  - unfold executeCommandInner. apply within_bind.
    + destruct (destructure_command command); cbn; auto.
    + intros ad. unfold any_put, switch_action.
      destruct (fst ad); unfold case_default; footprint.
  - intros m. destruct (session_lost m).
    + apply within_bind; [unfold any_put; footprint |]. intros _.
      apply within_try_catch; [| unfold any_put; footprint].
      apply within_bind; [unfold any_put; footprint |].
      intros _. unfold executeCommandInner. apply within_bind.
      * destruct (destructure_command command); cbn; auto.
      * intros ad. unfold any_put, switch_action.
        destruct (fst ad); unfold case_default; footprint.
    + unfold any_put. footprint.
Qed.

(** *** Counting launches *)

Lemma count_events_app (f : Event -> bool) (a b : list Event) :
  count_events f (a ++ b) = (count_events f a + count_events f b)%nat.
Proof. unfold count_events. now rewrite filter_app, length_app. Qed.

Lemma count_listener_events (f : Event -> bool) (new : list Event) :
  (forall e, listener_event e = true -> f e = false) ->
  forallb listener_event new = true -> count_events f new = 0%nat.
Proof.
  intros Hf. unfold count_events. induction new as [| e new IH]; cbn; auto.
  intros H. apply andb_prop in H as [He Hn]. rewrite (Hf e He). auto.
Qed.

Lemma listener_not_launch e : listener_event e = true -> is_launch e = false.
Proof. destruct e as [X op r | e | c]; cbn; auto. destruct op; cbn; auto; discriminate. Qed.

Lemma listener_not_engine_call e : listener_event e = true -> is_engine_call e = false.
Proof. destruct e as [X op r | e | c]; cbn; auto. destruct op; cbn; auto; discriminate. Qed.

Lemma listener_not_write_result e : listener_event e = true -> is_write_result e = false.
Proof. destruct e as [X op r | e | c]; cbn; auto. destruct op; cbn; auto; discriminate. Qed.

Lemma launches_bounded {A : Type} (p : Prog A) :
  forall n s, launches_at_most p n ->
    (count_events is_launch (trace (after p s))
     <= count_events is_launch (trace s) + n)%nat.
Proof.
  unfold after, run.
  induction p as [a | m | c | k IH | g k IH | X op k IH]; intros n s W; cbn in *;
    try lia.
  - unfold count_events. cbn. lia.
  - apply IH, W.
  - apply (IH n (with_vars (g (vars s)) s) W).
  - destruct (perform_effect E op s) as (new & Hq & Ht & _).
    unfold perform in Ht.
    destruct (perform_with deliver op s) as [s' x]. cbn [fst snd] in Ht.
    assert (Hc : count_events is_launch (trace s')
                 = ((if is_launch (Ev op x) then 1 else 0)
                    + count_events is_launch (trace s))%nat).
    { rewrite Ht. change (Ev op x :: new ++ trace s)%list
        with ([Ev op x] ++ new ++ trace s)%list.
      rewrite !count_events_app.
      rewrite (count_listener_events is_launch new listener_not_launch Hq).
      unfold count_events at 1. cbn [filter].
      destruct (is_launch (Ev op x)); cbn [length]; lia. }
    destruct op; cbn in Hc;
      try (specialize (IH x n s' (W x)); lia).
    destruct n as [| n']; [contradiction |].
    specialize (IH x n' s' (W x)). lia.
Qed.

Lemma launches_at_most_more {A : Type} (p : Prog A) :
  forall n n', (n <= n')%nat -> launches_at_most p n -> launches_at_most p n'.
Proof.
  induction p as [a | m | c | k IH | g k IH | X op k IH]; intros n n' Hn W; cbn in *; auto.
  - intros v. eapply IH; eauto.
  - eapply IH; eauto.
  - destruct op; try (intros x; eapply IH; eauto).
    destruct n as [| n0]; [contradiction |].
    destruct n' as [| n1]; [lia |].
    intros x. eapply (IH x n0 n1); [lia | apply W].
Qed.

Lemma launches_at_most_bind {A B : Type} (p : Prog A) (f : A -> Prog B) :
  forall n m, launches_at_most p n -> (forall a, launches_at_most (f a) m) ->
    launches_at_most (bind p f) (n + m).
Proof.
  induction p as [a | e | c | k IH | g k IH | X op k IH]; intros n m W Wf; cbn in *; auto.
  - apply (launches_at_most_more (f a) m); [lia | apply Wf].
  - destruct op; try (intros x; apply IH; auto).
    destruct n as [| n0]; [contradiction |].
    intros x. apply (IH x n0 m); auto.
Qed.

Lemma launches_at_most_try_catch {A : Type} (p : Prog A) (h : string -> Prog A) :
  forall n m, launches_at_most p n -> (forall e, launches_at_most (h e) m) ->
    launches_at_most (try_catch p h) (n + m).
Proof.
  induction p as [a | e | c | k IH | g k IH | X op k IH]; intros n m W Wh; cbn in *; auto.
  - apply (launches_at_most_more (h e) m); [lia | apply Wh].
  - destruct op; try (intros x; apply IH; auto).
    destruct n as [| n0]; [contradiction |].
    intros x. apply (IH x n0 m); auto.
Qed.

Lemma executeCommandInner_never_launches (command : jsval) :
  launches_at_most (executeCommandInner command) 0.
Proof.
  unfold executeCommandInner.
  apply (launches_at_most_bind _ _ 0 0).
  - destruct (destructure_command command); cbn; auto.
  - intros ad. unfold switch_action. destruct (fst ad); unfold case_default; footprint.
Qed.

Lemma ensureBrowserReady_launches_once : launches_at_most ensureBrowserReady 1.
Proof. footprint. Qed.

Lemma executeCommand_launches_once (command : jsval) :
  launches_at_most (executeCommand command) 1.
Proof.
  unfold executeCommand.
  apply (launches_at_most_try_catch _ _ 0 1).
  - apply executeCommandInner_never_launches.
  - intros m. destruct (session_lost m); [| footprint].
    apply (launches_at_most_bind _ _ 0 1); [footprint |]. intros _.
    apply (launches_at_most_try_catch _ _ 1 0); [| intros e; footprint].
    apply (launches_at_most_bind _ _ 1 0).
    + apply ensureBrowserReady_launches_once.
    + intros _. apply executeCommandInner_never_launches.
Qed.

End Frames.

(** ** The command dispatcher *)

Section Dispatcher.

Variable E : Engine.
Implicit Types s : St E.

(** A program that stays within the daemon does not end the process. *)
Lemma never_halts {A : Type} (p : Prog A) :
  within any_op any_put p -> forall s c, snd (run p s) <> Halted c.
Proof.
  unfold run.
  induction p as [a | m | c0 | k IH | g k IH | X op k IH]; intros W s c; cbn in *;
    try discriminate.
  - contradiction.
  - apply IH, W.
  - apply IH, W.
  - destruct (perform_with deliver op s) as [s' x]. apply IH, W.
Qed.

Lemma run_executeCommand command s :
  run (executeCommand command) s =
  match run (executeCommandInner command) s with
  | (s1, Raised m) =>
      if session_lost m
      then
        match run ensureBrowserReady (retry_announced s1) with
        | (s2, Done _) =>
            match run (executeCommandInner command) s2 with
            | (s3, Raised m3) => (answered (RError m3) s3, Done tt)
            | other => other
            end
        | (s2, Raised m2) => (answered (RError m2) s2, Done tt)
        | (s2, Halted c) => (s2, Halted c)
        end
      else (answered (RError m) s1, Done tt)
  | other => other
  end.
Proof.
  unfold executeCommand. rewrite run_try_catch.
  destruct (run (executeCommandInner command) s) as [s1 [[] | m | c]]; try reflexivity.
  destruct (session_lost m); [| reflexivity].
  rewrite run_bind.
  assert (H : run (console_log [JStr "Command failed, restarting browser..."]) s1
              = (retry_announced s1, Done tt)) by reflexivity.
  rewrite H. rewrite run_try_catch, run_bind.
  destruct (run ensureBrowserReady (retry_announced s1)) as [s2 [[] | m2 | c]];
    reflexivity.
Qed.

(** C1, as the code has it.  When the execution of a command throws and the
    message contains neither 'closed' nor 'disconnected', the dispatcher
    writes an error Response with that message and does nothing else: no
    restart, no retry.  When the message contains one of them, the
    dispatcher calls the Health Monitor once, which restarts the session
    only if it finds it unusable; if the Health Monitor returns, the same
    command is executed a second and last time, and when that execution
    succeeds the Response is the one it wrote and the first error is not
    surfaced; if the Health Monitor or the second execution throws, an error
    Response carries the message of that later error.  A dispatch never
    starts more than one fresh session. *)
Theorem dispatcher_retries_once_after_session_loss command s s1 m :
  run (executeCommandInner command) s = (s1, Raised m) ->
  retry_discipline command s s1 m.
Proof.
  intros H. split; [| split].
  - intros Hm. rewrite run_executeCommand, H, Hm. reflexivity.
  - intros Hm. rewrite run_executeCommand, H, Hm.
    pose proof (never_halts ensureBrowserReady ensureBrowserReady_stays
                  (retry_announced s1)) as Hh.
    destruct (run ensureBrowserReady (retry_announced s1)) as [s2 [[] | m2 | c]];
      cbn in Hh.
    + pose proof (never_halts (executeCommandInner command)
                    (executeCommandInner_stays command) s2) as Hh'.
      destruct (run (executeCommandInner command) s2) as [s3 [[] | m3 | c]];
        cbn in Hh'; try reflexivity.
      now apply (Hh' c).
    + reflexivity.
    + now apply (Hh c).
  - unfold restarts_during.
    pose proof (launches_bounded E (executeCommand command) 1 s
                  (executeCommand_launches_once command)).
    lia.
Qed.

End Dispatcher.

(** On a usable session the script [throw socket closed] throws a message
    that contains 'closed'. *)
Lemma dispatcher_retries_once_after_session_loss_witness :
  let command := exec_request (JStr "throw socket closed") in
  let s1 := fst (run (executeCommandInner command) Scenario.running) in
  let m := "page.evaluate: Error: socket closed" in
  run (executeCommandInner command) Scenario.running = (s1, Raised m) /\
  retry_discipline command Scenario.running s1 m.
Proof.
  intros command s1 m.
  assert (H : run (executeCommandInner command) Scenario.running = (s1, Raised m))
    by (vm_compute; reflexivity).
  split; [exact H |].
  exact (dispatcher_retries_once_after_session_loss Toy.engine command
           Scenario.running s1 m H).
Defined.

(** C1 as stated fails twice over.  There the message contains 'closed',
    the Health Monitor finds the session usable and no restart takes place:
    the script is merely evaluated a second time.  And when the window is
    closed and Chrome cannot be launched, the restart throws and the command
    is not executed a second time. *)
Lemma one_restart_and_retry_counterexample :
  ~ one_restart_and_retry (exec_request (JStr "throw socket closed")) Scenario.running /\
  ~ one_restart_and_retry status_request Scenario.chrome_gone.
Proof.
  split; intros H.
  - destruct (H (fst (run (executeCommandInner (exec_request (JStr "throw socket closed")))
                        Scenario.running))
                "page.evaluate: Error: socket closed") as [Hone _].
    + vm_compute. reflexivity.
    + reflexivity.
    + vm_compute in Hone. discriminate Hone.
  - destruct (H (fst (run (executeCommandInner status_request) Scenario.chrome_gone))
                "page.title: Target page, context or browser has been closed")
      as [_ (s2 & Hdone & _)].
    + vm_compute. reflexivity.
    + reflexivity.
    + assert (Hraised : snd (run ensureBrowserReady
                               (retry_announced
                                  (fst (run (executeCommandInner status_request)
                                          Scenario.chrome_gone))))
                        = Raised "browserType.launch: Chromium distribution 'chrome' is not found")
        by (vm_compute; reflexivity).
      rewrite Hdone in Hraised. discriminate Hraised.
Qed.

(** The script was evaluated twice and the second error was reported. *)
Example session_loss_on_usable_session :
  let s' := after (executeCommand (exec_request (JStr "throw socket closed")))
                  Scenario.running in
  count_events is_evaluate (trace s') = 2%nat /\
  count_events is_launch (trace s') = count_events is_launch (trace Scenario.running) /\
  result_file (files s') = Some (RError "page.evaluate: Error: socket closed").
Proof. vm_compute. repeat split. Qed.

(** ** Restarting and restoring *)

Section Restart.

Variable E : Engine.
Implicit Types s : St E.

Lemma after_eq {A : Type} (p : Prog A) s s' o : run p s = (s', o) -> after p s = s'.
Proof. unfold after. now intros ->. Qed.

(** C7. In a restart whose fresh startup succeeded, with a [lastURL] that is
    set and is not the blank page, the new page is sent to [lastURL] with
    the 30 s timeout.  If that load fails, the failure is logged and the
    restart completes all the same; the daemon keeps running.  If it
    succeeds, on an engine whose successful loads land where they were
    sent, the restored page is at [lastURL]. *)
Theorem restart_restores_last_url s sb :
  run startBrowser (after teardown (marked s)) = (sb, Done tt) ->
  restorable (lastURL (vars s)) = true ->
  restores_last_url s sb.
Proof.
  intros Hstart Hu.
  destruct (teardown_done E (marked s)) as [st Ht].
  rewrite (after_eq _ _ _ _ Ht) in Hstart.
  destruct (startBrowser_sets_page E st sb Hstart) as [p Hp].
  assert (Hlast : lastURL (vars sb) = lastURL (vars s)).
  { rewrite <- (after_eq _ _ _ _ Hstart), (lastURL_kept E startBrowser st).
    - rewrite <- (after_eq _ _ _ _ Ht), (lastURL_kept E teardown (marked s)).
      + reflexivity.
      + apply teardown_keeps_lastURL.
    - apply startBrowser_keeps_lastURL. }
  exists p. repeat split; auto.
  - apply exit_code_kept, restart_stays.
  - assert (Hr : run restart s = match run restore sb with
                                 | (sr, Done _) => (unmarked sr, Done tt)
                                 | (sr, Raised m) =>
                                     (unmarked (restart_failure_logged m sr), Raised m)
                                 | (sr, Halted c) => (sr, Halted c)
                                 end).
    { rewrite run_restart, Ht, Hstart. reflexivity. }
    rewrite (run_restore E sb p Hp), Hlast, Hu in Hr.
    pose proof (perform_files E
                  (Goto AtRestore p (JStr (lastURL (vars s))) "networkidle" 30000)
                  (restore_announced sb)) as (_ & Hw & Hx).
    destruct (perform (Goto AtRestore p (JStr (lastURL (vars s))) "networkidle" 30000)
                (restore_announced sb)) as [sg [[] | m]]; [| exact Hr].
    split; [exact Hr |].
    intros Hlands. rewrite (after_eq _ _ _ _ Hr). cbn [unmarked with_vars the_world].
    cbn [fst snd] in Hw, Hx. rewrite Hw.
    cbn [exec_op] in Hx |- *. unfold engine_call in Hx |- *.
    destruct (page_goto E p (JStr (lastURL (vars s))) "networkidle" 30000
                (the_world (restore_announced sb))) as [[w evs] r] eqn:Hg.
    cbn in Hx |- *. subst r. exact (Hlands _ _ _ _ _ _ _ Hg).
Qed.

(** [cleanup] deletes whichever of the three files exist and cannot fail. *)
Lemma cleanup_done s :
  run cleanup s = (after cleanup s, Done tt) /\ files (after cleanup s) = no_files.
Proof.
  destruct s as [w v [[c |] [r |] [y |]] i g x t]; split; reflexivity.
Qed.

Lemma exit_after_cleanup s :
  exit_code (after (cleanup;; Exit 1 : Prog unit) s) = Some 1 /\
  files (after (cleanup;; Exit 1 : Prog unit) s) = no_files.
Proof.
  destruct (cleanup_done s) as [Hc Hf].
  rewrite after_bind, Hc. unfold after, run. cbn. auto.
Qed.

(** C2, as the code has it.  A fresh startup that fails when the daemon
    boots is fatal: the failure is logged, the channel files are cleaned up
    and the process exits with status 1.  A fresh startup that fails in the
    lazy restart of a dispatched command is not: the restart logs the
    failure and clears its mark, the dispatcher answers with an error
    Response carrying the failure's message, and the daemon keeps running
    with its ready marker in place. *)
Theorem startup_failure_is_fatal_only_at_boot :
  (forall (w : world E) fs s1 m,
     run startBrowser (after cleanup (fresh w fs)) = (s1, Raised m) ->
     fatal_at_boot w fs s1 m) /\
  (forall command s s1 m sp sf m2,
     run (executeCommandInner command) s = (s1, Raised m) ->
     session_lost m = true ->
     run probe (retry_announced s1) = (sp, Done true) ->
     run startBrowser (after teardown (marked sp)) = (sf, Raised m2) ->
     survived_in_restart command s sf m2).
Proof.
  split.
  - intros w fs s1 m H.
    assert (Hb : boot w fs = after (cleanup;; Exit 1 : Prog unit) (fatal_error_logged m s1)).
    { unfold boot, daemon_main. rewrite after_bind.
      destruct (cleanup_done (fresh w fs)) as [Hc _]. rewrite Hc.
      rewrite after_try_catch. unfold startDaemon. rewrite run_bind, H. reflexivity. }
    destruct (exit_after_cleanup (fatal_error_logged m s1)) as [Hx Hf].
    split; [exact Hb |]. rewrite Hb. auto.
  - intros command s s1 m sp sf m2 H Hm Hprobe Hstart.
    destruct (teardown_done E (marked sp)) as [st Ht].
    rewrite (after_eq _ _ _ _ Ht) in Hstart.
    assert (Hr : run (executeCommand command) s
                 = (answered (RError m2) (unmarked (restart_failure_logged m2 sf)), Done tt)).
    { rewrite run_executeCommand, H, Hm.
      rewrite run_ensureBrowserReady, Hprobe, run_restart, Ht, Hstart. reflexivity. }
    split; [exact (after_eq _ _ _ _ Hr) |]. split.
    + apply exit_code_kept, executeCommand_stays.
    + apply ready_file_kept, executeCommand_leaves_ready.
Qed.

End Restart.

(** On the small engine a load that succeeds lands where it was sent. *)
Lemma toy_goto_lands : goto_lands Toy.engine.
Proof.
  intros p u wu t w w' evs. cbn. unfold Toy.goto.
  destruct (Toy.usable p w); [| discriminate].
  destruct (existsb (String.eqb u) (Toy.down w)); [discriminate |].
  intros H. inversion H; subst. unfold Toy.url. cbn.
  now rewrite Nat.eqb_refl.
Qed.

(** The window of a daemon that had navigated to the local server was
    closed. *)
Lemma restart_restores_last_url_witness :
  let s := Scenario.window_closed in
  let sb := fst (run startBrowser (after teardown (marked s))) in
  run startBrowser (after teardown (marked s)) = (sb, Done tt) /\
  restorable (lastURL (vars s)) = true /\
  restores_last_url s sb.
Proof.
  intros s sb.
  assert (H : run startBrowser (after teardown (marked s)) = (sb, Done tt))
    by (vm_compute; reflexivity).
  assert (Hu : restorable (lastURL (vars s)) = true) by (vm_compute; reflexivity).
  split; [exact H |]. split; [exact Hu |].
  exact (restart_restores_last_url Toy.engine s sb H Hu).
Defined.

(** There the restored page is at the address navigated to before. *)
Example restored_page_is_at_last_url :
  let s' := after restart Scenario.window_closed in
  lastURL (vars Scenario.window_closed) = "http://localhost:8080/" /\
  option_map (fun p => page_url Toy.engine p (the_world s')) (page (vars s'))
  = Some "http://localhost:8080/" /\
  page (vars s') <> page (vars Scenario.window_closed).
Proof. vm_compute. repeat split. discriminate. Qed.

(** Chrome is missing when a daemon boots among stale files, and when a
    running daemon must restart for a [status] request. *)
Lemma startup_failure_is_fatal_only_at_boot_witness :
  let missing := "browserType.launch: Chromium distribution 'chrome' is not found" in
  let w := Toy.chrome_removed Toy.machine : world Toy.engine in
  let s1 := fst (run startBrowser (after cleanup (fresh w Scenario.stale_files))) in
  let s := Scenario.chrome_gone in
  let t1 := fst (run (executeCommandInner status_request) s) in
  let sp := fst (run probe (retry_announced t1)) in
  let sf := fst (run startBrowser (after teardown (marked sp))) in
  fatal_at_boot w Scenario.stale_files s1 missing /\
  survived_in_restart status_request s sf missing.
Proof.
  intros missing w s1 s t1 sp sf.
  destruct (startup_failure_is_fatal_only_at_boot Toy.engine) as [Hboot Hrestart].
  split.
  - apply Hboot. vm_compute. reflexivity.
  - apply (Hrestart status_request s t1
             "page.title: Target page, context or browser has been closed" sp sf missing);
      vm_compute; reflexivity.
Defined.

(** C2 as stated fails in the lazy restart: the fresh startup has failed,
    and the daemon has neither exited nor removed its files. *)
Lemma startup_failure_is_fatal_counterexample :
  ~ startup_failure_is_fatal Scenario.chrome_gone
      (react IntervalFires
         (react (ClientWrites (Toy.request_text "status" [])) Scenario.chrome_gone)).
Proof.
  intros H. destruct H as (c & Hc & _).
  - vm_compute. lia.
  - vm_compute in Hc. discriminate Hc.
Qed.

(** What the client of that request finds. *)
Example daemon_survives_failed_restart :
  let s' := react IntervalFires
              (react (ClientWrites (Toy.request_text "status" [])) Scenario.chrome_gone) in
  exit_code s' = None /\
  ready_file (files s') = Some "ready" /\
  result_file (files s')
  = Some (RError "browserType.launch: Chromium distribution 'chrome' is not found") /\
  isRestarting (vars s') = false.
Proof. vm_compute. repeat split. Qed.

(** ** The last successful navigation *)

Section Navigation.

Variable E : Engine.
Implicit Types s : St E.

Lemma listener_not_nav_ok e : listener_event e = true -> nav_ok e = false.
Proof. destruct e as [X op r | e | c]; cbn; auto. destruct op; cbn; auto; discriminate. Qed.

Lemma not_navigate_load_nav_ok {X : Type} (op : Op X) (x : X) :
  not_navigate_load X op -> nav_ok (Ev op x) = false.
Proof.
  destruct op; cbn; auto.
  destruct site; [contradiction |]. intros _. destruct x; reflexivity.
Qed.

Lemma listener_not_loaded e : listener_event e = true -> loaded_address e = None.
Proof. destruct e as [X op r | e | c]; cbn; auto. destruct op; cbn; auto; discriminate. Qed.

Lemma not_navigate_load_loaded {X : Type} (op : Op X) (x : X) :
  not_navigate_load X op -> loaded_address (Ev op x) = None.
Proof.
  destruct op; cbn; auto.
  destruct site; [contradiction |]. reflexivity.
Qed.

(** Events that are no successful load of a [navigate] leave the last
    loaded address where it was. *)
Lemma last_loaded_quiet (new tr : list Event) :
  forallb listener_event new = true -> last_loaded (new ++ tr) = last_loaded tr.
Proof.
  induction new as [| e new IH]; cbn [app forallb last_loaded]; intros Hq; [reflexivity |].
  apply andb_prop in Hq as [He Hn]. rewrite (listener_not_loaded e He). now apply IH.
Qed.

Lemma remembers_perform {X : Type} (op : Op X) s :
  loaded_address (Ev op (snd (perform op s))) = None ->
  remembers s -> remembers (fst (perform op s)).
Proof.
  intros Hop Hs.
  destruct (perform_effect E op s) as (new & Hq & Ht & Hv & _).
  unfold remembers. rewrite Ht, Hv. cbn [lastURL set_consoleLogs last_loaded].
  rewrite Hop, (last_loaded_quiet new (trace s) Hq). exact Hs.
Qed.

(** The events of one call, counted. *)
Lemma count_after_perform (f : Event -> bool) {X : Type} (op : Op X) s :
  (forall e, listener_event e = true -> f e = false) ->
  count_events f (trace (fst (perform op s)))
  = ((if f (Ev op (snd (perform op s))) then 1 else 0) + count_events f (trace s))%nat.
Proof.
  intros Hf. destruct (perform_effect E op s) as (new & Hq & Ht & _).
  rewrite Ht.
  change (Ev op (snd (perform op s)) :: new ++ trace s)%list
    with ([Ev op (snd (perform op s))] ++ new ++ trace s)%list.
  rewrite !count_events_app, (count_listener_events f new Hf Hq).
  unfold count_events at 1. cbn [filter].
  destruct (f (Ev op (snd (perform op s)))); cbn [length]; lia.
Qed.

Lemma count_grows (f : Event -> bool) {A : Type} (p : Prog A) s :
  (count_events f (trace s) <= count_events f (trace (after p s)))%nat.
Proof.
  destruct (trace_grows E p s) as [new Ht]. rewrite Ht, count_events_app. lia.
Qed.

Lemma remembers_kept {A : Type} (p : Prog A) s :
  within not_navigate_load keeps_lastURL p ->
  remembers s -> remembers (after p s).
Proof.
  intros W. apply (within_keeps E remembers not_navigate_load keeps_lastURL); auto.
  - intros X op s1 Hop. apply remembers_perform. now apply not_navigate_load_loaded.
  - intros f s1 Hf Hs. unfold remembers. cbn. rewrite Hf. exact Hs.
Qed.

(** What a page load that succeeded was given, on an engine whose loads
    land. *)
Lemma load_landed (site : GotoSite) (p : handle) (u : jsval) (wu : string) (t : Z) s s1 :
  loads_land E ->
  perform (Goto site p u wu t) s = (s1, Ok tt) ->
  u = JStr (page_url E p (the_world s1)).
Proof.
  intros Hlands Hp.
  pose proof (perform_files E (Goto site p u wu t) s) as (_ & Hw & Hx).
  rewrite Hp in Hw, Hx. cbn [fst snd] in Hw, Hx. rewrite Hw.
  cbn [exec_op] in Hx |- *. unfold engine_call in Hx |- *.
  destruct (page_goto E p u wu t (the_world s)) as [[w evs] r] eqn:Hg.
  cbn in Hx |- *. subst r. exact (Hlands _ _ _ _ _ _ _ Hg).
Qed.

(** One execution of the [navigate] case: on an engine whose loads land it
    keeps [lastURL] on the address last loaded, and unless its page load
    succeeded it throws and leaves [lastURL] as it was. *)
Lemma navigate_attempt (data : jsval) s :
  (loads_land E -> remembers s -> remembers (after (case_navigate data) s)) /\
  (count_events nav_ok (trace (after (case_navigate data) s))
   = count_events nav_ok (trace s) ->
   lastURL (vars (after (case_navigate data) s)) = lastURL (vars s) /\
   exists m, snd (run (case_navigate data) s) = Raised m).
Proof.
  unfold after, case_navigate, run. cbn.
  destruct (page (vars s)) as [p |] eqn:Hpage; cbn; [| eauto].
  destruct (prop "url" data) as [u | m]; cbn; [| eauto].
  pose proof (perform_effect E (Goto AtNavigate p u "networkidle" 30000) s)
    as (new & Hq & Ht & Hv & _).
  pose proof (remembers_perform (Goto AtNavigate p u "networkidle" 30000) s) as Htr.
  pose proof (count_after_perform nav_ok (Goto AtNavigate p u "networkidle" 30000) s
                listener_not_nav_ok) as Hc.
  pose proof (load_landed AtNavigate p u "networkidle" 30000 s) as Hland.
  unfold perform in *. step. cbn [fst snd] in *.
  destruct x as [[] | m]; cbn.
  - (* the page is loaded *)
    rewrite Hv. cbn. rewrite Hpage. cbn. sync. cbn.
    rewrite ?Hpage. cbn. sync. cbn. rewrite ?Hpage. cbn.
    match goal with
    | |- context [run_with deliver ?rest ?sa] =>
        pose proof (remembers_kept rest sa) as Hrest;
        pose proof (count_grows nav_ok rest sa) as Hgrow;
        unfold after, run in Hrest, Hgrow;
        destruct (run_with deliver rest sa) as [s1 o]
    end.
    cbn [fst snd] in *. split.
    + intros Hlands Hs. apply Hrest.
      * unfold keeps_lastURL. footprint.
      * unfold remembers. cbn -[last_loaded]. rewrite Ht.
        cbn [last_loaded loaded_address].
        rewrite (Hland s0 Hlands eq_refl). reflexivity.
    + intros Heq. unfold count_events in *.
      cbn [trace with_vars record with_trace filter nav_ok] in Hgrow.
      cbn [nav_ok] in Hc. lia.
  - (* the page load threw *)
    split.
    + intros _ Hs. apply Htr; [destruct u; reflexivity | exact Hs].
    + intros _. rewrite Hv. cbn. eauto.
Qed.

Lemma kept_bind (I : St E -> Prop) {A B : Type} (p : Prog A) (f : A -> Prog B) :
  (forall s, I s -> I (after p s)) ->
  (forall a s, I s -> I (after (f a) s)) ->
  forall s, I s -> I (after (bind p f) s).
Proof.
  intros Hp Hf s Hs. rewrite after_bind. specialize (Hp s Hs). unfold after in Hp.
  destruct (run p s) as [s' [a | m | c]]; cbn in Hp; auto.
Qed.

Lemma kept_try_catch (I : St E -> Prop) {A : Type} (p : Prog A) (h : string -> Prog A) :
  (forall s, I s -> I (after p s)) ->
  (forall m s, I s -> I (after (h m) s)) ->
  forall s, I s -> I (after (try_catch p h) s).
Proof.
  intros Hp Hh s Hs. rewrite after_try_catch. specialize (Hp s Hs). unfold after in Hp.
  destruct (run p s) as [s' [a | m | c]]; cbn in Hp; auto.
Qed.

Lemma remembers_exit (c : Z) s :
  remembers s -> remembers (after (Exit c : Prog unit) s).
Proof. intros Hs. exact Hs. Qed.

Section Landing_engine.

Hypothesis lands : loads_land E.

Ltac quiet := solve [apply remembers_kept; unfold keeps_lastURL, case_default; footprint].

Lemma executeCommandInner_remembers (command : jsval) s :
  remembers s -> remembers (after (executeCommandInner command) s).
Proof.
  revert s. unfold executeCommandInner. apply kept_bind.
  - intros s. quiet.
  - intros ad s. unfold switch_action.
    destruct (fst ad) as [| | b | n | a | items | fields]; try quiet.
    destruct (String.eqb a "navigate"); [now apply navigate_attempt | quiet].
Qed.

Lemma executeCommand_remembers (command : jsval) s :
  remembers s -> remembers (after (executeCommand command) s).
Proof.
  revert s. unfold executeCommand. apply kept_try_catch.
  - apply executeCommandInner_remembers.
  - intros m. destruct (session_lost m); [| intros s; quiet].
    apply kept_bind; [intros s; quiet |]. intros _.
    apply kept_try_catch; [| intros m' s; quiet].
    apply kept_bind; [intros s; quiet |]. intros _.
    apply executeCommandInner_remembers.
Qed.

Lemma tick_remembers parse s :
  remembers s -> remembers (after (tick parse) s).
Proof.
  revert s. unfold tick. apply kept_bind; [intros s; quiet |].
  intros [|]; [| intros s; quiet].
  apply kept_bind; [intros s; quiet |]. intros d.
  apply kept_bind; [intros s; quiet |]. intros _.
  unfold process. apply kept_try_catch; [| intros m s; quiet].
  apply kept_bind; [intros s; quiet |]. intros command.
  apply executeCommand_remembers.
Qed.

Lemma on_sigint_remembers s :
  remembers s -> remembers (after on_sigint s).
Proof.
  revert s. unfold on_sigint.
  apply kept_bind; [intros s; quiet |]. intros _.
  apply kept_bind; [intros s; quiet |]. intros connected.
  apply kept_bind; [intros s; quiet |]. intros _.
  apply kept_bind; [intros s; quiet |]. intros _.
  apply remembers_exit.
Qed.

Lemma daemon_main_remembers s :
  remembers s -> remembers (after daemon_main s).
Proof.
  revert s. unfold daemon_main.
  apply kept_bind; [intros s; quiet |]. intros _.
  apply kept_try_catch; [intros s; quiet |]. intros m.
  apply kept_bind; [intros s; quiet |]. intros _.
  apply kept_bind; [intros s; quiet |]. intros _.
  apply remembers_exit.
Qed.

Lemma react_remembers (i : Input E) s :
  remembers s -> remembers (react i s).
Proof.
  intros Hs. unfold react. destruct (exit_code s); [exact Hs |].
  destruct i as [| | d | | w evs].
  - destruct (interval s); [now apply tick_remembers | exact Hs].
  - destruct (sigint_bound s); [| exact Hs].
    pose proof (on_sigint_remembers s Hs) as H. unfold after in H.
    destruct (run on_sigint s) as [s' [[] | m | c]]; exact H.
  - exact Hs.
  - exact Hs.
  - destruct (deliver_all_effect E evs (with_world w s)) as (new & Hq & _ & Hd).
    rewrite Hd. unfold remembers. cbn. rewrite (last_loaded_quiet new (trace s) Hq).
    exact Hs.
Qed.

Lemma daemon_remembers (inputs : list (Input E)) (w : world E) (fs : Files) :
  remembers (daemon_after inputs w fs).
Proof.
  unfold daemon_after.
  assert (H : remembers (boot w fs)).
  { apply daemon_main_remembers. reflexivity. }
  revert H. generalize (boot w fs).
  induction inputs as [| i inputs IH]; intros s Hs; cbn; auto.
  apply IH. now apply react_remembers.
Qed.

End Landing_engine.

(** Programs without the page load of [navigate] add no successful
    navigation to the trace. *)
Lemma navigations_kept {A : Type} (p : Prog A) s :
  within not_navigate_load any_put p ->
  count_events nav_ok (trace (after p s)) = count_events nav_ok (trace s).
Proof.
  intros W.
  apply (within_keeps E
           (fun s' => count_events nav_ok (trace s') = count_events nav_ok (trace s))
           not_navigate_load any_put); auto.
  intros X op s1 Hop H.
  rewrite (count_after_perform nav_ok op s1 listener_not_nav_ok).
  rewrite (not_navigate_load_nav_ok op _ Hop). exact H.
Qed.

Lemma ensureBrowserReady_never_navigates : within not_navigate_load any_put ensureBrowserReady.
Proof. unfold any_put. footprint. Qed.

Lemma run_navigate_command (fields : list (string * jsval)) s :
  lookup_field "action" fields = JStr "navigate" ->
  run (executeCommandInner (JObj fields)) s
  = run (case_navigate (lookup_field "data" fields)) s.
Proof.
  intros H. unfold executeCommandInner. cbn. rewrite H. reflexivity.
Qed.

Lemma failed_navigate (fields : list (string * jsval)) s :
  lookup_field "action" fields = JStr "navigate" ->
  failed_navigation_changes_nothing (JObj fields) s.
Proof.
  intros Hact. unfold failed_navigation_changes_nothing. cbv zeta. unfold after.
  rewrite run_executeCommand, (run_navigate_command fields s Hact).
  set (data := lookup_field "data" fields).
  destruct (navigate_attempt data s) as [_ H1].
  pose proof (count_grows nav_ok (case_navigate data) s) as G1.
  unfold after in H1, G1.
  destruct (run (case_navigate data) s) as [s1 o1]. cbn [fst snd] in H1, G1.
  destruct o1 as [[] | m | c]; cbn [fst].
  - intros Heq. destruct (H1 Heq) as (_ & m & Hm). discriminate Hm.
  - destruct (session_lost m).
    + pose proof (navigations_kept ensureBrowserReady (retry_announced s1)
                    ensureBrowserReady_never_navigates) as K2.
      pose proof (lastURL_kept E ensureBrowserReady (retry_announced s1)
                    ensureBrowserReady_keeps_lastURL) as L2.
      pose proof (never_halts E ensureBrowserReady ensureBrowserReady_stays
                    (retry_announced s1)) as N2.
      unfold after in K2, L2.
      destruct (run ensureBrowserReady (retry_announced s1)) as [s2 o2].
      cbn [fst snd] in K2, L2, N2.
      change (count_events nav_ok (trace (retry_announced s1)))
        with (count_events nav_ok (trace s1)) in K2.
      change (lastURL (vars (retry_announced s1))) with (lastURL (vars s1)) in L2.
      destruct o2 as [[] | m2 | c]; cbn [fst].
      * rewrite (run_navigate_command fields s2 Hact). fold data.
        destruct (navigate_attempt data s2) as [_ H3].
        pose proof (count_grows nav_ok (case_navigate data) s2) as G3.
        unfold after in H3, G3.
        destruct (run (case_navigate data) s2) as [s3 o3]. cbn [fst snd] in H3, G3.
        assert (Hback : count_events nav_ok (trace s3) = count_events nav_ok (trace s) ->
                        lastURL (vars s3) = lastURL (vars s) /\ exists m3, o3 = Raised m3).
        { intros Heq.
          assert (Heq3 : count_events nav_ok (trace s3) = count_events nav_ok (trace s2))
            by lia.
          assert (Heq1 : count_events nav_ok (trace s1) = count_events nav_ok (trace s))
            by lia.
          destruct (H3 Heq3) as (L3 & M3). destruct (H1 Heq1) as (L1 & _).
          split; [congruence | exact M3]. }
        destruct o3 as [[] | m3 | c]; cbn [fst]; intros Heq.
        -- destruct (Hback Heq) as (_ & m3 & Hm). discriminate Hm.
        -- destruct (Hback Heq) as (L & _). split; [exact L | eexists; reflexivity].
        -- destruct (Hback Heq) as (_ & m3 & Hm). discriminate Hm.
      * intros Heq.
        assert (Heq1 : count_events nav_ok (trace s1) = count_events nav_ok (trace s)).
        { change (count_events nav_ok (trace (answered (RError m2) s2)))
            with (count_events nav_ok (trace s2)) in Heq. lia. }
        destruct (H1 Heq1) as (L1 & _).
        split; [cbn; congruence | eexists; reflexivity].
      * exfalso. exact (N2 c eq_refl).
    + intros Heq. destruct (H1 Heq) as (L1 & _).
      split; [exact L1 | eexists; reflexivity].
  - intros Heq. destruct (H1 Heq) as (_ & m & Hm). discriminate Hm.
Qed.

(** The page load of a [navigate] has succeeded: what the command goes on
    to do. *)
Lemma run_landed (command data : jsval) (p : handle) (u : jsval) s s1 :
  destructure_command command = Ok (JStr "navigate", data) ->
  page (vars s) = Some p ->
  prop "url" data = Ok u ->
  perform (Goto AtNavigate p u "networkidle" 30000) s = (s1, Ok tt) ->
  run (executeCommandInner command) s =
  match perform (Title p) (landing_stored p s1) with
  | (s2, Ok t) => (answered (RNavigated (page_url E p (the_world s1)) t) s2, Done tt)
  | (s2, Thrown m) => (s2, Raised m)
  end.
Proof.
  intros Hc Hpage Hprop Hgoto.
  pose proof (perform_vars_fields E (Goto AtNavigate p u "networkidle" 30000) s)
    as (_ & _ & Hp1 & _).
  rewrite Hgoto in Hp1. cbn [fst] in Hp1. rewrite Hpage in Hp1.
  unfold executeCommandInner. rewrite Hc. cbn [of_result bind fst snd].
  unfold switch_action. cbn [String.eqb Ascii.eqb Bool.eqb].
  unfold case_navigate, run, perform in *. cbn. rewrite Hpage. cbn. rewrite Hprop. cbn.
  rewrite Hgoto. cbn. rewrite Hp1. cbn. sync. cbn. rewrite Hp1. cbn. sync. cbn.
  rewrite Hp1. cbn.
  change (perform_with deliver (Title p)
            (record (Ev (Url p) (page_url E p (the_world s1)))
               (with_vars (set_lastURL (page_url E p (the_world s1)) (vars s1))
                  (record (Ev (Url p) (page_url E p (the_world s1))) s1))))
    with (perform_with deliver (Title p) (landing_stored p s1)).
  destruct (perform_with deliver (Title p) (landing_stored p s1)) as [s2 [t | m]]; cbn.
  - sync. reflexivity.
  - reflexivity.
Qed.

Lemma landing (command data : jsval) (p : handle) (u : jsval) s s1 :
  destructure_command command = Ok (JStr "navigate", data) ->
  page (vars s) = Some p ->
  prop "url" data = Ok u ->
  perform (Goto AtNavigate p u "networkidle" 30000) s = (s1, Ok tt) ->
  stores_the_landing command p s s1.
Proof.
  intros Hc Hpage Hprop Hgoto.
  pose proof (run_landed command data p u s s1 Hc Hpage Hprop Hgoto) as Hin.
  pose proof (perform_vars_fields E (Title p) (landing_stored p s1)) as (_ & _ & _ & _ & Hl).
  unfold stores_the_landing. cbv zeta.
  destruct (perform (Title p) (landing_stored p s1)) as [s2 [t | m]]; cbn [fst] in Hl.
  - split; [| exact Hl]. rewrite run_executeCommand, Hin. reflexivity.
  - split; [exact Hin |]. split; [exact Hl |].
    intros Hm. rewrite run_executeCommand, Hin, Hm. reflexivity.
Qed.

Lemma landing_in_overlap (command data : jsval) (p : handle) (u : jsval) s :
  destructure_command command = Ok (JStr "navigate", data) ->
  page (vars s) = Some p ->
  prop "url" data = Ok u ->
  stores_when_the_load_completes command p u s.
Proof.
  intros Hc Hpage Hprop. unfold stores_when_the_load_completes.
  eexists. split.
  - unfold executeCommand, executeCommandInner. rewrite Hc. cbn [of_result bind fst snd].
    unfold switch_action. cbn [String.eqb Ascii.eqb Bool.eqb].
    unfold case_navigate. cbn. rewrite Hpage. cbn. rewrite Hprop. cbn. reflexivity.
  - intros s' s1 p1 Hp1 Hgoto.
    pose proof (perform_vars_fields E (Goto AtNavigate p u "networkidle" 30000) s')
      as (_ & _ & Hq & _).
    rewrite Hgoto in Hq. cbn [fst] in Hq. rewrite Hp1 in Hq.
    cbn [resume]. rewrite Hgoto.
    repeat first [rewrite Hq | progress cbn | progress unfold perform | progress sync].
    reflexivity.
Qed.


End Navigation.

Lemma toy_loads_land : loads_land Toy.engine.
Proof.
  intros p u waitUntil timeout w w' evs. cbn. unfold Toy.goto.
  destruct (Toy.usable p w); [| discriminate].
  destruct u as [| | b | n | a | items | fields]; try discriminate.
  destruct (existsb (String.eqb a) (Toy.down w)); [discriminate |].
  intros H. inversion H. subst. unfold Toy.url. cbn. rewrite Nat.eqb_refl. reflexivity.
Qed.



(** The same through the command file: no [navigate] has been answered
    with success, and [lastURL] is no longer the blank page. *)
Example failed_navigate_changes_lastURL :
  let s' := daemon_after
              [ClientWrites (E := Moving.engine)
                 (Toy.request_text "navigate" [("url", Moving.address)]);
               IntervalFires]
              Toy.machine no_files in
  lastURL (vars Moving.running) = "about:blank" /\
  result_file (files s')
  = Some (RError
            "page.title: Execution context was destroyed, most likely because of a navigation") /\
  lastURL (vars s') = Moving.address /\
  count_events is_write_result (trace s') = 1%nat.
Proof. vm_compute. repeat split. Qed.

(** There the error is the engine's and [lastURL] is still the local
    server. *)
Example unreachable_address_keeps_lastURL :
  let s' := after (executeCommand (navigate_request (JStr "http://localhost:9/")))
                  Scenario.visited in
  lastURL (vars Scenario.visited) = "http://localhost:8080/" /\
  lastURL (vars s') = "http://localhost:8080/" /\
  result_file (files s')
  = Some (RError "page.goto: net::ERR_CONNECTION_REFUSED at http://localhost:9/") /\
  count_events nav_ok (trace s') = count_events nav_ok (trace Scenario.visited).
Proof. vm_compute. repeat split. Qed.


(** ** Where a navigation lands *)

Section Landing.

Variable E : Engine.
Implicit Types s : St E.

(** On an engine whose successful loads land where they were sent, a
    [navigate] whose load succeeds leaves the requested address in
    [lastURL]. *)
Lemma navigate_lands_on_target (data : jsval) (u : string) s p :
  goto_lands E ->
  page (vars s) = Some p ->
  prop "url" data = Ok (JStr u) ->
  snd (perform (Goto AtNavigate p (JStr u) "networkidle" 30000) s) = Ok tt ->
  lastURL (vars (after (case_navigate data) s)) = u.
Proof.
  intros Hlands Hpage Hprop Hok.
  unfold after, case_navigate, run. cbn. rewrite Hpage. cbn. rewrite Hprop. cbn.
  pose proof (perform_effect E (Goto AtNavigate p (JStr u) "networkidle" 30000) s)
    as (new & _ & _ & Hv & _).
  pose proof (perform_files E (Goto AtNavigate p (JStr u) "networkidle" 30000) s)
    as (_ & Hw & Hx).
  unfold perform in *. step. cbn [fst snd] in *. subst x. cbn.
  rewrite Hv. cbn. rewrite Hpage. cbn. sync. cbn.
  match goal with
  | |- context [run_with deliver ?rest ?sa] =>
      pose proof (lastURL_kept E rest sa) as Hrest
  end.
  unfold after, run in Hrest. rewrite Hrest; [| unfold keeps_lastURL; footprint].
  cbn. rewrite Hw.
  cbn [exec_op] in Hx |- *. unfold engine_call in Hx |- *.
  destruct (page_goto E p (JStr u) "networkidle" 30000 (the_world s))
    as [[w evs] r] eqn:Hg.
  cbn in Hx |- *. subst r. exact (Hlands _ _ _ _ _ _ _ Hg).
Qed.

End Landing.

(** ** The restart mark is write-only *)

Section Mark.

Variable E : Engine.
Implicit Types s : St E.

Lemma exec_op_remark {X : Type} (op : Op X) (b : bool) s :
  exec_op op (remark b s) =
  (remark b (fst (fst (exec_op op s))), snd (fst (exec_op op s)), snd (exec_op op s)).
Proof.
  destruct op; cbn; unfold engine_call; cbn;
    repeat match goal with
           | |- context [match ?c with _ => _ end] => destruct c
           end; reflexivity.
Qed.

Lemma deliver_remark (e : PageEvent) (b : bool) s :
  deliver e (record (Fired e) (remark b s)) = remark b (deliver e (record (Fired e) s)).
Proof. destruct e; reflexivity. Qed.

Lemma deliver_all_remark (evs : list PageEvent) (b : bool) s :
  deliver_all evs (remark b s) = remark b (deliver_all evs s).
Proof.
  unfold deliver_all. revert s.
  induction evs as [| e evs IH]; intros s; cbn; [reflexivity |].
  rewrite deliver_remark. apply IH.
Qed.

Lemma perform_remark {X : Type} (op : Op X) (b : bool) s :
  perform op (remark b s) = (remark b (fst (perform op s)), snd (perform op s)).
Proof.
  unfold perform, perform_with. rewrite exec_op_remark.
  destruct (exec_op op s) as [[s1 evs] x]. cbn [fst snd].
  fold (deliver_all evs (remark b s1)). fold (deliver_all evs s1).
  rewrite deliver_all_remark. reflexivity.
Qed.

(** A program that never reads the mark does the same whatever it is. *)
Lemma blind_ignores {A : Type} (p : Prog A) :
  blind_to_mark p -> ignores_mark (E := E) p.
Proof.
  unfold ignores_mark, after, run.
  induction p as [a | m | c | k IH | g k IH | X op k IH]; intros B b s; cbn in *.
  - split; [reflexivity | now exists b].
  - split; [reflexivity | now exists b].
  - split; [reflexivity | now exists b].
  - destruct B as [Bk Bn]. rewrite Bk. apply IH, Bn.
  - destruct B as [Bf Bn]. destruct (Bf (vars s) b) as [b' Hb']. rewrite Hb'.
    apply (IH Bn b' (with_vars (g (vars s)) s)).
  - pose proof (perform_remark op b s) as Hp. unfold perform in Hp.
    change (with_vars (set_isRestarting b (vars s)) s) with (remark b s).
    rewrite Hp. destruct (perform_with deliver op s) as [s1 x]. cbn [fst snd].
    apply (IH x (B x) b s1).
Qed.

Lemma blind_bind {A B : Type} (p : Prog A) (f : A -> Prog B) :
  blind_to_mark p -> (forall a, blind_to_mark (f a)) -> blind_to_mark (bind p f).
Proof.
  induction p as [a | m | c | k IH | g k IH | X op k IH]; cbn; intros W Wf; auto.
  - destruct W as [Wk Wn]. split; [| auto]. intros v b. now rewrite Wk.
  - destruct W; split; auto.
Qed.

Lemma blind_try_catch {A : Type} (p : Prog A) (h : string -> Prog A) :
  blind_to_mark p -> (forall m, blind_to_mark (h m)) -> blind_to_mark (try_catch p h).
Proof.
  induction p as [a | m | c | k IH | g k IH | X op k IH]; cbn; intros W Wh; auto.
  - destruct W as [Wk Wn]. split; [| auto]. intros v b. now rewrite Wk.
  - destruct W; split; auto.
Qed.

Ltac blind :=
  repeat first
    [ progress cbn
    | progress intros
    | split
    | exact I
    | reflexivity
    | solve [eexists; reflexivity]
    | match goal with
      | |- context [match ?x with _ => _ end] => destruct x
      end
    | progress unfold of_result, prop, destructure_command ].

Lemma ensureBrowserReady_blind : blind_to_mark ensureBrowserReady.
Proof. blind. Qed.

Lemma executeCommandInner_blind (command : jsval) :
  blind_to_mark (executeCommandInner command).
Proof.
  unfold executeCommandInner. apply blind_bind.
  - destruct (destructure_command command); cbn; auto.
  - intros ad. unfold switch_action. destruct (fst ad); unfold case_default; blind.
Qed.

Lemma executeCommand_blind (command : jsval) : blind_to_mark (executeCommand command).
Proof.
  unfold executeCommand. apply blind_try_catch.
  - apply executeCommandInner_blind.
  - intros m. destruct (session_lost m); [| blind].
    apply blind_bind; [blind |]. intros _.
    apply blind_try_catch; [| intros m'; blind].
    apply blind_bind; [apply ensureBrowserReady_blind |].
    intros _. apply executeCommandInner_blind.
Qed.

Lemma tick_blind parse : blind_to_mark (tick parse).
Proof.
  unfold tick. apply blind_bind; [blind |]. intros [|]; [| blind].
  apply blind_bind; [blind |]. intros d.
  apply blind_bind; [blind |]. intros _.
  unfold process. apply blind_try_catch; [| intros m; blind].
  apply blind_bind; [destruct (parse d); cbn; auto |].
  intros command. apply executeCommand_blind.
Qed.

(** Nothing the daemon runs for a request reads the mark: the usability
    check with its restart, the dispatch of a command and the interval
    callback end the same way and leave the same process, up to the mark
    itself, whether the mark is set or not. *)
Lemma restart_mark_is_never_read parse command :
  ignores_mark (E := E) ensureBrowserReady /\
  ignores_mark (E := E) (executeCommand command) /\
  ignores_mark (E := E) (tick parse).
Proof.
  split; [| split]; apply blind_ignores.
  - apply ensureBrowserReady_blind.
  - apply executeCommand_blind.
  - apply tick_blind.
Qed.

End Mark.

(** ** Overlapping callbacks and the restart mark *)

Section Overlap.

Variable E : Engine.
Implicit Types s : St E.

(** A callback driven alone from one awaited call to the next ends where
    running it in one go ends. *)
Lemma advance_after (p : Prog unit) s :
  after (snd (advance p s)) (fst (advance p s)) = after p s.
Proof.
  unfold after, run. revert s.
  induction p as [a | m | c | k IH | g k IH | X op k IH]; intros s; cbn; auto.
  destruct (is_await op) eqn:Ha; cbn.
  - reflexivity.
  - unfold perform. destruct (perform_with deliver op s) as [s' x]. apply IH.
Qed.

Lemma resume_after (p : Prog unit) s :
  after (snd (resume p s)) (fst (resume p s)) = after p s.
Proof.
  destruct p as [a | m | c | k | g k | X op k]; try reflexivity.
  unfold resume, perform, after at 2, run. cbn [run_with].
  destruct (perform_with deliver op s) as [s' x].
  apply advance_after.
Qed.

End Overlap.

(** C3.  The mark does not suppress a second restart.  With the browser
    window closed, the callback of a first request has set the mark and
    awaits [chromium.launch]; the callback of a second request, started
    meanwhile, enters the restart as well and awaits a launch of its own.
    When both have completed two browsers were launched, both are still
    connected, and the daemon holds only the second. *)
Theorem restart_mark_does_not_suppress_second_restart :
  let during := turns Scenario.two_clients Scenario.idle_loop in
  let done := turns Scenario.both_complete during in
  isRestarting (vars (proc during)) = true /\
  map awaits_launch (callbacks during) = [true; true] /\
  map suspended (callbacks done) = [false; false] /\
  count_events is_launch (trace (proc done))
  = (2 + count_events is_launch (trace (proc Scenario.idle_loop)))%nat /\
  Toy.connected (the_world (proc done)) = [7%nat; 4%nat] /\
  browser (vars (proc done)) = Some 7%nat.
Proof.
  vm_compute. repeat split.
Qed.

(** ** The client *)

Section ClientProperties.

Variable JSON_stringify JSON_stringify_indented : jsval -> string.
Variable parseInt : option string -> option Z.

(** The promise of [sendCommand] is only ever rejected with a timeout. *)
Lemma await_result_rejects_with_timeout (sur : Surroundings) (n : nat) :
  forall k fs fs' m,
    await_result sur k n fs = (fs', Some (Thrown m)) -> m = "Command timeout".
Proof.
  induction n as [| n IH]; intros k fs fs' m; cbn; [discriminate |].
  destruct (result_file (others sur k fs)); [discriminate |].
  destruct (elapsed sur k >? 30000).
  - intros H. now inversion H.
  - apply IH.
Qed.

(** A Response that is collected was put into an empty slot by another
    process, and the client leaves the slot empty. *)
Lemma await_result_collects_fresh (sur : Surroundings) (n : nat) :
  forall k fs fs' r,
    result_file fs = None ->
    await_result sur k n fs = (fs', Some (Ok r)) ->
    exists k' before,
      result_file before = None /\ result_file (others sur k' before) = Some r.
Proof.
  induction n as [| n IH]; intros k fs fs' r Hnone; cbn; [discriminate |].
  destruct (result_file (others sur k fs)) as [r0 |] eqn:Hr.
  - intros H. inversion H; subst. now exists k, fs.
  - destruct (elapsed sur k >? 30000); [discriminate |].
    apply IH. exact Hr.
Qed.

(** With a timer that never fires early the wait ends within 601
    callbacks. *)
Lemma await_result_ends (sur : Surroundings) :
  punctual sur ->
  forall n k fs, (k <= 600)%nat -> (601 <= n + k)%nat ->
    snd (await_result sur k n fs) <> None.
Proof.
  intros Hp. induction n as [| n IH]; intros k fs Hk Hn; [lia |].
  cbn. destruct (result_file (others sur k fs)); [discriminate |].
  destruct (elapsed sur k >? 30000) eqn:He; [discriminate |].
  apply IH.
  - rewrite Z.gtb_ltb in He. apply Z.ltb_ge in He. specialize (Hp k). lia.
  - lia.
Qed.

Lemma post_command_slots (command : jsval) (fs : Files) :
  result_file (post_command JSON_stringify command fs) = None /\
  command_file (post_command JSON_stringify command fs) = Some (JSON_stringify command).
Proof.
  unfold post_command, file_exists.
  destruct (result_file fs) eqn:Hr; cbn; auto.
Qed.

Lemma post_command_forgets (command : jsval) (old : option Response) (fs : Files) :
  post_command JSON_stringify command (with_result old fs)
  = post_command JSON_stringify command (with_result None fs).
Proof.
  unfold post_command, file_exists, with_result. destruct old; reflexivity.
Qed.

(** C10.  Before it writes a Request the client deletes the Response slot if
    there is one: when the Request is written the slot is empty, what the
    client then collects does not depend on what the slot held before, and a
    Response that it collects was put into the empty slot by another
    process after the Request was written. *)
Theorem client_never_collects_stale_response command sur n fs :
  no_stale_response JSON_stringify command sur n fs.
Proof.
  unfold no_stale_response.
  destruct (post_command_slots command fs) as [Hr Hc].
  repeat split; auto.
  - intros old. unfold sendCommand. now rewrite post_command_forgets.
  - intros fs' r. unfold sendCommand. apply await_result_collects_fresh. exact Hr.
Qed.

(** The reports of [main]: only the one of [console] can throw, on a
    success Response without logs. *)
Lemma chosen_report argv command report r :
  choose JSON_stringify_indented parseInt argv = Send command report ->
  snd (report r) = None \/
  (command = the_command "console" [] /\ success r = true /\ field_logs r = None /\
   exists m, snd (report r) = Some m).
Proof.
  unfold choose.
  destruct (nth_error argv 0) as [action |]; [| discriminate].
  repeat match goal with
         | |- context [if ?b then _ else _] => destruct b
         end;
    intros H; inversion H; subst;
    unfold report_navigate, report_exec, report_console, report_console_clear,
      report_status, report_resize, report_error;
    destruct (success r) eqn:Hs; cbn; auto.
  destruct (field_logs r) eqn:Hl; cbn; [auto |].
  right. repeat split; auto. eexists; reflexivity.
Qed.

Lemma chosen_report_of_error argv command report r :
  choose JSON_stringify_indented parseInt argv = Send command report -> success r = false -> snd (report r) = None.
Proof.
  intros H Hs. destruct (chosen_report argv command report r H) as [Hn | (_ & Ht & _)];
    [exact Hn | congruence].
Qed.

(** What [main] does with a Response it has collected. *)
Lemma collected_report argv command report r :
  choose JSON_stringify_indented parseInt argv = Send command report ->
  (if reads_missing_logs argv r
   then report r = ([], Some (undefined_has_no "length"))
   else snd (report r) = None) /\
  (success r = false -> fst (report r) = error_lines argv r).
Proof.
  intros Hc. unfold choose in Hc. unfold reads_missing_logs, error_lines.
  destruct (nth_error argv 0) as [action |]; [| discriminate].
  repeat match type of Hc with
         | context [if String.eqb action ?k then _ else _] =>
             let H := fresh "H" in
             destruct (String.eqb action k) eqn:H;
             [apply String.eqb_eq in H; subst action |]
         end;
    repeat match type of Hc with
           | context [if ?b then _ else _] => destruct b
           end;
    try discriminate; inversion Hc; subst; cbn [String.eqb Ascii.eqb Bool.eqb andb];
    unfold report_navigate, report_exec, report_console, report_console_clear,
      report_status, report_resize, report_error;
    destruct (success r) eqn:Hs; cbn; try (split; [reflexivity | congruence]);
    try (split; [reflexivity | reflexivity]).
  destruct (field_logs r); cbn; split; try reflexivity; congruence.
Qed.

(** C4, as the code has it.  The client exits with 1 when the ready marker
    is absent, when its arguments are refused, and when the wait for the
    Response times out, and says which: that the daemon is not running, how
    it is used, or [Error: Command timeout].  Once it has collected a
    Response it prints its report of it and exits with 0, whether the
    Response reports success or an error; for an error the report is
    [Error: <message>], except that of [console-clear], which is
    [Console logs cleared] whatever the Response.  The one exit with 1
    after a Response is that of [console] with a success Response that
    carries no logs, whose report throws into the [catch] of [main].  With
    a timer that does not fire early the client has exited after 601
    callbacks of its interval. *)
Theorem client_exit_status argv sur n fs :
  exit_status_of_client JSON_stringify JSON_stringify_indented parseInt argv sur n fs.
Proof.
  unfold exit_status_of_client, client_main, file_exists. cbv zeta. split; [| split].
  - intros Hr. rewrite Hr. reflexivity.
  - intros Hr. destruct (ready_file fs); [| congruence]. cbn [negb].
    destruct (choose JSON_stringify_indented parseInt argv) as [lines | command report] eqn:Hc;
      [reflexivity |].
    unfold exchange.
    destruct (sendCommand JSON_stringify command sur n fs) as [fs' [[r | m] |]] eqn:Hs;
      [| | reflexivity].
    + destruct (collected_report argv command report r Hc) as [Hq He].
      destruct (reads_missing_logs argv r).
      * rewrite Hq. reflexivity.
      * split; [| exact He].
        destruct (report r) as [out [m |]]; cbn in Hq; [discriminate | reflexivity].
    + unfold sendCommand in Hs.
      pose proof (await_result_rejects_with_timeout _ _ _ _ _ _ Hs) as Hm. subst m.
      split; reflexivity.
  - intros Hp Hn. destruct (ready_file fs); cbn; [| discriminate].
    destruct (choose JSON_stringify_indented parseInt argv) as [lines | command report]; [discriminate |].
    unfold exchange, sendCommand.
    pose proof (await_result_ends sur Hp n 0 (post_command JSON_stringify command fs)
                  ltac:(lia) ltac:(lia)) as He.
    destruct (await_result sur 0 n (post_command JSON_stringify command fs))
      as [fs' [[r | m] |]]; cbn in He; [| discriminate | congruence].
    destruct (report r) as [out [m |]]; discriminate.
Qed.

End ClientProperties.

(** A client asks for the status and the daemon answers with an error. *)
Lemma client_exit_status_witness :
  exit_status_of_client toy_stringify toy_stringify toy_parseInt
    ["status"] (answers_with (RError "boom")) 1 daemon_ready /\
  option_map code
    (client_main toy_stringify toy_stringify toy_parseInt
       ["status"] (answers_with (RError "boom")) 1 daemon_ready) = Some 0.
Proof.
  split.
  - apply client_exit_status.
  - vm_compute. reflexivity.
Defined.

(** C4 as stated fails there: the Response reports an error and the client
    exits with 0. *)
Lemma exit_status_reports_outcome_counterexample :
  ~ exit_status_reports_outcome toy_stringify toy_stringify toy_parseInt
      ["status"] (RError "boom") daemon_ready.
Proof.
  intros H.
  destruct (H {| printed := [Error [JStr "Error:"; JStr "boom"]]; code := 0;
                 left := post_command toy_stringify status_request daemon_ready |})
    as [_ H1].
  - vm_compute. reflexivity.
  - specialize (H1 eq_refl). discriminate H1.
Qed.

(** The three ways to exit with 1, and the message of each. *)
Example client_exits_with_1 :
  option_map (fun e => (code e, printed e))
    (client_main toy_stringify toy_stringify toy_parseInt ["status"] silence 601 no_files)
  = Some (1, [Error [JStr "Browser daemon not running!"];
              Error [JStr "Start it with: node browser-daemon.js"]]) /\
  option_map (fun e => (code e, printed e))
    (client_main toy_stringify toy_stringify toy_parseInt ["navigate"] silence 601 daemon_ready)
  = Some (1, [Error [JStr "Usage: node browser-client.js navigate <url>"]]) /\
  option_map (fun e => (code e, printed e))
    (client_main toy_stringify toy_stringify toy_parseInt ["status"] silence 601 daemon_ready)
  = Some (1, [Error [JStr "Error:"; JStr "Command timeout"]]).
Proof. vm_compute. repeat split. Qed.

(** The two reports that do not follow the Response: [console-clear]
    prints that the logs are cleared when the Response is an error, and
    exits with 0; [console] exits with 1 on a success Response that carries
    no logs. *)
Example reports_that_ignore_the_response :
  option_map (fun e => (code e, printed e))
    (client_main toy_stringify toy_stringify toy_parseInt ["console-clear"]
       (answers_with (RError "boom")) 1 daemon_ready)
  = Some (0, [Log [JStr "Console logs cleared"]]) /\
  option_map (fun e => (code e, printed e))
    (client_main toy_stringify toy_stringify toy_parseInt ["console"]
       (answers_with RSuccess) 1 daemon_ready)
  = Some (1, [Error [JStr "Error:";
                     JStr "Cannot read properties of undefined (reading 'length')"]]).
Proof. vm_compute. split; reflexivity. Qed.

(** A client sends a request while the Response of an earlier, abandoned
    call is still in the slot. *)
Lemma client_never_collects_stale_response_witness :
  let fs := with_result (Some (RError "left over")) daemon_ready in
  no_stale_response toy_stringify status_request (answers_with RSuccess) 1 fs /\
  snd (sendCommand toy_stringify status_request (answers_with RSuccess) 1 fs)
  = Some (Ok RSuccess) /\
  snd (sendCommand toy_stringify status_request silence 601 fs)
  = Some (Thrown "Command timeout").
Proof.
  intros fs. split.
  - apply client_never_collects_stale_response.
  - vm_compute. split; reflexivity.
Defined.

(** The request the client writes is the text the daemon of the examples
    decodes. *)
Example client_and_daemon_agree_on_requests :
  toy_stringify status_request = Toy.request_text "status" [] /\
  Toy.parse (toy_stringify (navigate_request (JStr "http://localhost:8080/")))
  = Ok (navigate_request (JStr "http://localhost:8080/")).
Proof. vm_compute. split; reflexivity. Qed.

(** * Further properties *)

(** ** Every dispatch is answered, once *)

(** Going through the paths of a program given in full. *)
Ltac paths :=
  repeat first
    [ progress cbn
    | progress intros
    | split
    | exact I
    | reflexivity
    | assumption
    | solve [eexists; reflexivity]
    | match goal with
      | |- context [match ?x with _ => _ end] => destruct x
      end
    | progress unfold of_result, prop, destructure_command ].

Section Answers.

Variable E : Engine.

Lemma leaves_result_step {X : Type} (op : Op X) (s : St E) :
  leaves_result X op ->
  count_events is_write_result (trace (fst (perform op s)))
  = count_events is_write_result (trace s) /\
  result_file (files (fst (perform op s))) = result_file (files s).
Proof.
  intros Hop. split.
  - rewrite (count_after_perform E is_write_result op s listener_not_write_result).
    destruct op; cbn in *; try reflexivity; contradiction.
  - destruct (perform_files E op s) as (Hf & _). rewrite Hf. clear Hf.
    destruct op; cbn; unfold engine_call; auto;
      try match goal with f : File |- _ => destruct f end; cbn in *; try contradiction;
      repeat match goal with
             | |- context [match ?c with _ => _ end] => destruct c
             end; cbn; auto.
Qed.

Lemma result_kept {A : Type} (p : Prog A) (s : St E) :
  within leaves_result any_put p ->
  count_events is_write_result (trace (after p s))
  = count_events is_write_result (trace s) /\
  result_file (files (after p s)) = result_file (files s).
Proof.
  intros W.
  apply (within_keeps E
           (fun s' => count_events is_write_result (trace s')
                      = count_events is_write_result (trace s) /\
                      result_file (files s') = result_file (files s))
           leaves_result any_put); auto.
  intros X op s1 Hop [H1 H2].
  destruct (leaves_result_step op s1 Hop) as [H3 H4]. split; congruence.
Qed.

Lemma answers_last_run (ok : Response -> Prop) {A : Type} (p : Prog A) :
  answers_last ok p ->
  forall s : St E,
    match run p s with
    | (s', Done _) =>
        exists r s0, s' = answered r s0 /\ ok r /\
          count_events is_write_result (trace s0) = count_events is_write_result (trace s)
    | (s', Raised _) =>
        count_events is_write_result (trace s') = count_events is_write_result (trace s) /\
        result_file (files s') = result_file (files s)
    | (_, Halted _) => False
    end.
Proof.
  unfold run.
  induction p as [a | m | c0 | k IH | g k IH | X op k IH]; intros W s; cbn in *.
  - contradiction.
  - auto.
  - contradiction.
  - apply IH, W.
  - specialize (IH W (with_vars (g (vars s)) s)).
    destruct (run_with deliver k (with_vars (g (vars s)) s)) as [s' [a | m | c]]; exact IH.
  - assert (Hother : leaves_result X op -> (forall x, answers_last ok (k x)) ->
              match (let '(s', x) := perform_with deliver op s in run_with deliver (k x) s') with
              | (s', Done _) =>
                  exists r s0, s' = answered r s0 /\ ok r /\
                    count_events is_write_result (trace s0)
                    = count_events is_write_result (trace s)
              | (s', Raised _) =>
                  count_events is_write_result (trace s')
                  = count_events is_write_result (trace s) /\
                  result_file (files s') = result_file (files s)
              | (_, Halted _) => False
              end).
    { intros Hop Hk. destruct (leaves_result_step op s Hop) as [Hc Hr].
      unfold perform in Hc, Hr.
      destruct (perform_with deliver op s) as [s1 x]. cbn in Hc, Hr.
      specialize (IH x (Hk x) s1).
      destruct (run_with deliver (k x) s1) as [s' [a | m | c]]; auto.
      - destruct IH as (r & s0 & -> & Hok & Hs0). exists r, s0.
        split; [reflexivity |]. split; [exact Hok | congruence].
      - destruct IH. split; congruence. }
    destruct op; try (apply Hother; [exact I | exact W]).
    + destruct f; try (apply Hother; [exact I | exact W]). contradiction.
    + rewrite perform_write_result. destruct W as [Hok W].
      destruct (W tt) as [a Ha]. rewrite Ha. cbn.
      exists r, s. split; [reflexivity |]. split; [exact Hok | reflexivity].
Qed.

Lemma switch_action_answers_last (action data : jsval) :
  answers_last (fits action data) (switch_action action data).
Proof.
  unfold switch_action, case_default, case_resize.
  destruct (prop "width" data) as [w | mw] eqn:Hw;
    destruct (prop "height" data) as [h | mh] eqn:Hh;
    (destruct action as [| | b | n | a | items | fields]; try solve [paths];
     repeat match goal with
            | |- context [if String.eqb a ?k then _ else _] =>
                let H := fresh "H" in
                destruct (String.eqb a k) eqn:H;
                [apply String.eqb_eq in H; subst a; solve [paths] |]
            end;
     paths).
Qed.

Lemma executeCommandInner_answers_last (command : jsval) :
  answers_last (fits_command command) (executeCommandInner command).
Proof.
  unfold executeCommandInner, fits_command.
  destruct (destructure_command command) as [[action data] | m]; cbn; auto.
  apply switch_action_answers_last.
Qed.

Lemma error_fits (command : jsval) (m : string) : fits_command command (RError m).
Proof.
  unfold fits_command. destruct (destructure_command command) as [[action data] | m'];
    exact I.
Qed.

Lemma ensureBrowserReady_leaves_result : within leaves_result any_put ensureBrowserReady.
Proof. unfold any_put. footprint. Qed.

Lemma run_executeCommand_answers (command : jsval) (s : St E) :
  exists r s0,
    run (executeCommand command) s = (answered r s0, Done tt) /\
    fits_command command r /\
    count_events is_write_result (trace s0) = count_events is_write_result (trace s).
Proof.
  rewrite run_executeCommand.
  pose proof (answers_last_run _ _ (executeCommandInner_answers_last command) s) as H1.
  destruct (run (executeCommandInner command) s) as [s1 [[] | m | c]]; [| | contradiction].
  - destruct H1 as (r & s0 & -> & Hok & H0). now exists r, s0.
  - destruct H1 as [H1 _]. destruct (session_lost m).
    + pose proof (never_halts E ensureBrowserReady ensureBrowserReady_stays
                    (retry_announced s1)) as Hh.
      destruct (result_kept ensureBrowserReady (retry_announced s1)
                  ensureBrowserReady_leaves_result) as [H2 _].
      unfold after in H2.
      destruct (run ensureBrowserReady (retry_announced s1)) as [s2 [[] | m2 | c]];
        cbn in Hh, H2.
      * pose proof (answers_last_run _ _ (executeCommandInner_answers_last command) s2)
          as H3.
        destruct (run (executeCommandInner command) s2) as [s3 [[] | m3 | c]];
          [| | contradiction].
        -- destruct H3 as (r & s0 & -> & Hok & H0). exists r, s0.
           split; [reflexivity |]. split; [exact Hok |].
           rewrite H0, H2, <- H1. reflexivity.
        -- destruct H3 as [H3 _]. exists (RError m3), s3.
           split; [reflexivity |]. split; [apply error_fits |].
           rewrite H3, H2, <- H1. reflexivity.
      * exists (RError m2), s2. split; [reflexivity |]. split; [apply error_fits |].
        rewrite H2, <- H1. reflexivity.
      * now destruct (Hh c).
    + exists (RError m), s1. split; [reflexivity |]. split; [apply error_fits | exact H1].
Qed.

Lemma answered_counts (r : Response) (s0 : St E) :
  count_events is_write_result (trace (answered r s0))
  = S (count_events is_write_result (trace s0)) /\
  result_file (files (answered r s0)) = Some r.
Proof. split; reflexivity. Qed.

(** A dispatch all of whose awaited calls complete. *)
Lemma completed_dispatch (command : jsval) (s : St E) :
  exists r s0,
    run (executeCommand command) s = (answered r s0, Done tt) /\
    result_file (files (after (executeCommand command) s)) = Some r /\
    count_events is_write_result (trace (after (executeCommand command) s))
    = S (count_events is_write_result (trace s)).
Proof.
  destruct (run_executeCommand_answers command s) as (r & s0 & Hr & _ & Hc).
  exists r, s0. unfold after. rewrite Hr. cbn [fst].
  destruct (answered_counts r s0) as [H1 H2].
  split; [reflexivity | split; [exact H2 |]]. rewrite H1, Hc. reflexivity.
Qed.

(** An interval callback all of whose awaited calls complete. *)
Lemma completed_callback (parse : string -> result jsval) (s : St E) :
  (forall d, command_file (files s) = Some d ->
     exists r s0,
       run (tick parse) s = (answered r s0, Done tt) /\
       command_file (files (after (tick parse) s)) = None /\
       result_file (files (after (tick parse) s)) = Some r /\
       count_events is_write_result (trace (after (tick parse) s))
       = S (count_events is_write_result (trace s))) /\
  (command_file (files s) = None ->
     snd (run (tick parse) s) = Done tt /\
     files (after (tick parse) s) = files s /\
     count_events is_write_result (trace (after (tick parse) s))
     = count_events is_write_result (trace s)).
Proof.
  split.
  - intros d Hd.
    assert (Hcf : command_file (files (after (tick parse) s)) = None).
    { unfold after. rewrite (tick_consumes_first E parse d s Hd).
      apply (command_file_stays_absent E (process parse d) (consumed d s)
               (process_stays parse d)).
      cbn. destruct (files s); reflexivity. }
    assert (Hrun : exists r s0,
               run (tick parse) s = (answered r s0, Done tt) /\
               count_events is_write_result (trace s0)
               = count_events is_write_result (trace s)).
    { rewrite (tick_consumes_first E parse d s Hd).
      destruct (parse d) as [command | m] eqn:Hparse.
      - unfold process. rewrite Hparse. cbn [of_result bind].
        rewrite run_try_catch.
        destruct (run_executeCommand_answers command (consumed d s))
          as (r & s0 & Hr & _ & Hc).
        rewrite Hr. exists r, s0. split; [reflexivity |]. rewrite Hc. reflexivity.
      - rewrite (process_malformed E parse d m (consumed d s) Hparse).
        exists (RError m),
          (record (Ev (ConsoleError [JStr "Command processing error:"; JStr m]) tt)
             (consumed d s)).
        split; reflexivity. }
    destruct Hrun as (r & s0 & Hr & Hc). exists r, s0.
    split; [exact Hr |]. split; [exact Hcf |].
    unfold after. rewrite Hr. cbn [fst].
    destruct (answered_counts r s0) as [H1 H2].
    split; [exact H2 |]. rewrite H1, Hc. reflexivity.
  - intros Hn. unfold after. rewrite (tick_idle E parse s Hn). cbn.
    repeat split.
Qed.

End Answers.

(** ** What each command does to the daemon's variables *)

Section Commands.

Variable E : Engine.

Lemma run_default (action data : jsval) (s : St E) :
  known_action action = false ->
  run (switch_action action data) s
  = (answered (RError ("Unknown command: " ++ js_string action)) s, Done tt).
Proof.
  intros H. unfold switch_action.
  destruct action as [| | b | n | a | items | fields]; try reflexivity.
  cbn in H.
  repeat (apply orb_false_iff in H; destruct H as [H ?]).
  repeat match goal with H : String.eqb _ _ = false |- _ => rewrite H; clear H end.
  reflexivity.
Qed.

(** X3. A command whose [action] is none of the six the [switch] knows --
    another string, a value that is not a string, or no [action] at all,
    as for a request that is a number or an array -- is answered with an
    error Response, and nothing else happens: no call on the browser, no
    restart, no variable changed.  The message is
    [Unknown command: <action>], with the action as JavaScript coerces it
    to a string, for every action that is a string, a boolean, [null],
    [undefined], an integer up to 2^53 in absolute value, an object without
    a field [toString], or an array of such values, whose [null] and
    [undefined] elements are printed as the empty text. *)
Theorem unknown_action_is_reported (command action data : jsval) (s : St E) :
  destructure_command command = Ok (action, data) ->
  known_action action = false ->
  (exists m, run (executeCommand command) s = (answered (RError m) s, Done tt)) /\
  (exactly_printed action = true ->
   run (executeCommand command) s
   = (answered (RError ("Unknown command: " ++ js_string action)) s, Done tt)).
Proof.
  intros Hc Ha.
  assert (H : run (executeCommand command) s
              = (answered (RError ("Unknown command: " ++ js_string action)) s, Done tt)).
  { rewrite run_executeCommand.
    assert (H : run (executeCommandInner command) s
                = run (switch_action action data) s).
    { unfold executeCommandInner. rewrite Hc. reflexivity. }
    rewrite H, (run_default action data s Ha). reflexivity. }
  split; [| intros _; exact H].
  exists ("Unknown command: " ++ js_string action). exact H.
Qed.

Lemma switch_action_keeps_lastURL (action data : jsval) :
  action <> JStr "navigate" ->
  within any_op keeps_lastURL (switch_action action data).
Proof.
  intros H. unfold switch_action.
  destruct action as [| | b | n | a | items | fields];
    try solve [unfold case_default, keeps_lastURL; footprint].
  destruct (String.eqb a "navigate") eqn:Ha.
  - apply String.eqb_eq in Ha. subst a. now destruct H.
  - unfold case_default, keeps_lastURL; footprint.
Qed.

(** X4. [navigate] is the only command that can change [lastURL]: the
    dispatch of any other request, with the restart and the retry it may
    involve, leaves [lastURL] as it was. *)
Theorem only_navigate_changes_lastURL (command : jsval) (s : St E) :
  (forall data, destructure_command command <> Ok (JStr "navigate", data)) ->
  lastURL (vars (after (executeCommand command) s)) = lastURL (vars s).
Proof.
  intros H. apply lastURL_kept.
  assert (Hi : within any_op keeps_lastURL (executeCommandInner command)).
  { unfold executeCommandInner.
    destruct (destructure_command command) as [[action data] | m] eqn:Hc; cbn.
    - apply switch_action_keeps_lastURL. intros ->. now apply (H data).
    - exact I. }
  unfold executeCommand. apply within_try_catch; [exact Hi |].
  intros m. destruct (session_lost m).
  - apply (within_bind any_op keeps_lastURL
             (console_log [JStr "Command failed, restarting browser..."])).
    + footprint.
    + intros _. apply within_try_catch.
      * apply (within_bind any_op keeps_lastURL ensureBrowserReady).
        -- exact ensureBrowserReady_keeps_lastURL.
        -- intros _. exact Hi.
      * intros m'. footprint.
  - footprint.
Qed.

(** X5. [console] and [console-clear] work on the buffer alone.  In any
    state of the session, also with the browser closed or never started, a
    request with the action [console], whatever else it carries, is
    answered with the buffer as it is, which it leaves, and one with the
    action [console-clear] empties the buffer and is answered with success;
    neither makes a call on the browser, and neither can set off a
    restart. *)
Theorem buffer_commands_need_no_session (command data : jsval) (s : St E) :
  (destructure_command command = Ok (JStr "console", data) ->
   run (executeCommand command) s
   = (answered (RLogs (consoleLogs (vars s))) s, Done tt)) /\
  (destructure_command command = Ok (JStr "console-clear", data) ->
   run (executeCommand command) s
   = (answered RSuccess (with_vars (set_consoleLogs [] (vars s)) s), Done tt)) /\
  (destructure_command command = Ok (JStr "console", data) \/
   destructure_command command = Ok (JStr "console-clear", data) ->
   count_events is_engine_call (trace (after (executeCommand command) s))
   = count_events is_engine_call (trace s) /\
   the_world (after (executeCommand command) s) = the_world s).
Proof.
  assert (H1 : destructure_command command = Ok (JStr "console", data) ->
               run (executeCommand command) s
               = (answered (RLogs (consoleLogs (vars s))) s, Done tt)).
  { intros Hc. rewrite run_executeCommand.
    unfold executeCommandInner. rewrite Hc. reflexivity. }
  assert (H2 : destructure_command command = Ok (JStr "console-clear", data) ->
               run (executeCommand command) s
               = (answered RSuccess (with_vars (set_consoleLogs [] (vars s)) s), Done tt)).
  { intros Hc. rewrite run_executeCommand.
    unfold executeCommandInner. rewrite Hc. reflexivity. }
  split; [exact H1 |]. split; [exact H2 |].
  intros [Hc | Hc]; unfold after.
  - rewrite (H1 Hc). split; reflexivity.
  - rewrite (H2 Hc). split; reflexivity.
Qed.

Lemma switch_action_keeps_logs (action data : jsval) :
  action <> JStr "console-clear" ->
  within any_op keeps_logs (switch_action action data).
Proof.
  intros H. unfold switch_action.
  destruct action as [| | b | n | a | items | fields];
    try solve [unfold case_default, keeps_logs; footprint].
  destruct (String.eqb a "console-clear") eqn:Ha.
  - apply String.eqb_eq in Ha. subst a. now destruct H.
  - unfold case_default, keeps_logs.
    repeat match goal with
           | |- context [if String.eqb a ?k then _ else _] =>
               destruct (String.eqb a k) eqn:?
           end; try discriminate; footprint.
Qed.

(** X6. [console-clear] is the only command that removes entries from the
    console log buffer: the dispatch of any other request, with the restart
    and the retry it may involve, keeps every entry and appends exactly the
    entries of the events the listeners received meanwhile, in the order of
    their arrival. *)
Theorem only_console_clear_empties_buffer (command : jsval) :
  (forall data, destructure_command command <> Ok (JStr "console-clear", data)) ->
  buffer_grows_by_events (E := E) (executeCommand command).
Proof.
  intros H. apply buffer_grows_within.
  assert (Hi : within any_op keeps_logs (executeCommandInner command)).
  { unfold executeCommandInner.
    destruct (destructure_command command) as [[action data] | m] eqn:Hc; cbn.
    - apply switch_action_keeps_logs. intros ->. now apply (H data).
    - exact I. }
  unfold executeCommand. apply within_try_catch; [exact Hi |].
  intros m. destruct (session_lost m).
  - apply (within_bind any_op keeps_logs
             (console_log [JStr "Command failed, restarting browser..."])).
    + footprint.
    + intros _. apply within_try_catch.
      * apply (within_bind any_op keeps_logs ensureBrowserReady).
        -- exact ensureBrowserReady_keeps_logs.
        -- intros _. exact Hi.
      * intros m'. footprint.
  - footprint.
Qed.

(** X7. The listeners bound by [setupPageListeners] add one entry per event
    to the end of the buffer, a console message with its type, text and
    location and a page error as type [pageerror] with its message and
    stack, and change nothing else of the daemon's variables; a [console]
    request then answers with the old entries followed by the new ones in
    the order the events arrived. *)
Theorem console_reports_events_in_arrival_order
  (w : world E) (evs : list PageEvent) (s : St E) :
  let s' := deliver_all evs (with_world w s) in
  vars s' = set_consoleLogs (consoleLogs (vars s) ++ map entry_of evs) (vars s) /\
  files s' = files s /\
  result_file (files (after (executeCommand console_request) s'))
  = Some (RLogs (consoleLogs (vars s) ++ map entry_of evs)).
Proof.
  intros s'.
  destruct (deliver_all_effect E evs (with_world w s)) as (new & _ & _ & Hd).
  unfold s'. rewrite Hd. cbn. split; [reflexivity |]. split; reflexivity.
Qed.

End Commands.

(** ** When the health monitor restarts *)

Section Monitor.

Variable E : Engine.

Lemma probe_never_launches : launches_at_most probe 0.
Proof. paths. Qed.

Lemma restart_launches_once : launches_at_most restart 1.
Proof. paths. Qed.

Lemma startBrowser_launches (s : St E) :
  (1 + count_events is_launch (trace s)
   <= count_events is_launch (trace (after startBrowser s)))%nat.
Proof.
  unfold after, startBrowser, run. cbn. sync. cbn.
  pose proof (count_after_perform E is_launch (Launch chrome)
                (record (Ev (ConsoleLog [JStr "Starting browser..."]) tt) s)
                listener_not_launch) as Hc.
  unfold perform in Hc. step. cbn in Hc.
  match goal with
  | |- context [run_with deliver ?P s0] =>
      pose proof (count_grows E is_launch P s0) as Hg
  end.
  unfold after, run in Hg. unfold count_events in *. cbn in *. lia.
Qed.

Lemma restart_launches (s : St E) :
  (1 + count_events is_launch (trace s)
   <= count_events is_launch (trace (after restart s)))%nat.
Proof.
  unfold after. rewrite run_restart.
  destruct (teardown_done E (marked s)) as [st Ht]. rewrite Ht.
  pose proof (count_grows E is_launch teardown (marked s)) as H1.
  rewrite (after_eq E _ _ _ _ Ht) in H1.
  pose proof (startBrowser_launches st) as H2. unfold after in H2.
  destruct (run startBrowser st) as [sb [[] | m | c]]; cbn [fst] in H2.
  - pose proof (count_grows E is_launch restore sb) as H3. unfold after in H3.
    destruct (run restore sb) as [sr [[] | m | c]]; cbn [fst] in *;
      unfold count_events in *; cbn in *; lia.
  - unfold count_events in *; cbn in *; lia.
  - unfold count_events in *; cbn in *; lia.
Qed.

Lemma run_probe (s : St E) :
  run probe s =
  match browser (vars s) with
  | Some b =>
      let s1 := record (Ev (IsConnected b) (browser_isConnected E b (the_world s))) s in
      if browser_isConnected E b (the_world s)
      then match page (vars s) with
           | Some p =>
               match perform (Title p) s1 with
               | (s2, Ok _) => (s2, Done false)
               | (s2, Thrown _) => (s2, Done true)
               end
           | None => (s1, Done true)
           end
      else (s1, Done true)
  | None => (s, Done true)
  end.
Proof.
  unfold probe, browser_connected, run, perform. cbn.
  destruct (browser (vars s)) as [b |] eqn:Hb; cbn; [| reflexivity].
  sync. cbn. destruct (browser_isConnected E b (the_world s)); cbn; [| reflexivity].
  destruct (page (vars s)) as [p |]; cbn; [| reflexivity].
  step. destruct x; reflexivity.
Qed.

(** X8. [ensureBrowserReady] starts a fresh session exactly when its check
    finds the session unusable: it calls [chromium.launch] once in that
    case and not at all otherwise.  The session counts as usable when
    [browser] is set and connected, [page] is set and [page.title()] does
    not throw; then the check is all that [ensureBrowserReady] does. *)
Theorem health_monitor_restarts_iff_unusable (s : St E) :
  exists sp needsRestart,
    run probe s = (sp, Done needsRestart) /\
    restarts_during ensureBrowserReady s = (if needsRestart then 1 else 0)%nat /\
    run ensureBrowserReady s = (if needsRestart then run restart sp else (sp, Done tt)) /\
    (needsRestart = false <->
     exists b p t,
       browser (vars s) = Some b /\ browser_isConnected E b (the_world s) = true /\
       page (vars s) = Some p /\
       snd (perform (Title p) (record (Ev (IsConnected b) true) s)) = Ok t).
Proof.
  destruct (probe_done E s) as (sp & needs & Hp).
  exists sp, needs. split; [exact Hp |].
  assert (Hc : count_events is_launch (trace sp) = count_events is_launch (trace s)).
  { pose proof (launches_bounded E probe 0 s probe_never_launches) as H1.
    pose proof (count_grows E is_launch probe s) as H2.
    rewrite (after_eq E _ _ _ _ Hp) in H1, H2. lia. }
  split; [| split].
  - unfold restarts_during, after. rewrite run_ensureBrowserReady, Hp.
    destruct needs; cbn [fst].
    + pose proof (restart_launches sp) as H1.
      pose proof (launches_bounded E restart 1 sp restart_launches_once) as H2.
      unfold after in H1, H2. lia.
    + lia.
  - rewrite run_ensureBrowserReady, Hp. destruct needs; reflexivity.
  - rewrite run_probe in Hp. split.
    + intros ->.
      destruct (browser (vars s)) as [b |]; [| discriminate].
      destruct (browser_isConnected E b (the_world s)) eqn:Hb; [| discriminate].
      destruct (page (vars s)) as [p |]; [| discriminate].
      cbv zeta in Hp.
      destruct (perform (Title p) (record (Ev (IsConnected b) true) s)) as [s2 [t | m]] eqn:Ht;
        [| discriminate].
      exists b, p, t. rewrite Ht. auto.
    + intros (b & p & t & Hb & Hconn & Hpage & Ht).
      rewrite Hb, Hconn, Hpage in Hp. cbv zeta in Hp.
      destruct (perform (Title p) (record (Ev (IsConnected b) true) s)) as [s2 [t' | m]];
        cbn in Ht; [| discriminate].
      now inversion Hp.
Qed.

End Monitor.

(** On the small engine: the running daemon is left alone, the one whose
    window was closed is restarted. *)
Lemma health_monitor_restarts_iff_unusable_witness :
  restarts_during ensureBrowserReady Scenario.running = 0%nat /\
  restarts_during ensureBrowserReady Scenario.window_closed = 1%nat.
Proof.
  split.
  - destruct (health_monitor_restarts_iff_unusable Toy.engine Scenario.running)
      as (sp & needs & Hp & Hr & _).
    assert (H : snd (run probe Scenario.running) = Done false) by (vm_compute; reflexivity).
    rewrite Hp in H. cbn in H. inversion H. subst needs. exact Hr.
  - destruct (health_monitor_restarts_iff_unusable Toy.engine Scenario.window_closed)
      as (sp & needs & Hp & Hr & _).
    assert (H : snd (run probe Scenario.window_closed) = Done true)
      by (vm_compute; reflexivity).
    rewrite Hp in H. cbn in H. inversion H. subst needs. exact Hr.
Defined.

(** ** From boot to shutdown *)

Section Lifecycle.

Variable E : Engine.

Lemma files_kept {A : Type} (p : Prog A) (s : St E) :
  within leaves_files any_put p -> files (after p s) = files s.
Proof.
  intros W.
  apply (within_keeps E (fun s' => files s' = files s) leaves_files any_put); auto.
  intros X op s1 Hop H. destruct (perform_files E op s1) as (Hf & _).
  rewrite Hf, <- H. clear Hf H.
  destruct op; cbn in *; unfold engine_call; auto; try contradiction;
    repeat match goal with
           | |- context [match ?c with _ => _ end] => destruct c
           end; cbn; auto.
Qed.

Lemma exec_op_keeps_serving {X : Type} (op : Op X) (s : St E) :
  keeps_serving X op ->
  ready_file (files (fst (fst (exec_op op s)))) = ready_file (files s) /\
  interval (fst (fst (exec_op op s))) = interval s /\
  sigint_bound (fst (fst (exec_op op s))) = sigint_bound s.
Proof.
  destruct op; cbn; unfold engine_call; auto;
    try match goal with f : File |- _ => destruct f end; cbn; try contradiction;
    repeat match goal with
           | |- context [match ?c with _ => _ end] => destruct c
           end; cbn; auto.
Qed.

Lemma loop_kept {A : Type} (p : Prog A) (s : St E) :
  within any_op any_put p ->
  within keeps_serving keeps_handles p ->
  serving s -> serving (after p s) /\ exit_code (after p s) = exit_code s.
Proof.
  intros W0 W Hs. split; [| now apply exit_code_kept].
  apply (within_keeps E serving keeps_serving keeps_handles);
    try exact W; try exact Hs.
  - clear. intros X op s Hop (Hr & Hi & Hg & Hb & Hp).
    destruct (perform_vars_fields E op s) as (Eb & _ & Ep & _).
    unfold serving. rewrite Eb, Ep.
    assert (H : ready_file (files (fst (perform op s))) = ready_file (files s) /\
                interval (fst (perform op s)) = interval s /\
                sigint_bound (fst (perform op s)) = sigint_bound s).
    { pose proof (exec_op_keeps_serving op s Hop) as H1.
      unfold perform, perform_with.
      destruct (exec_op op s) as [[s1 evs] x]. cbn in *.
      destruct (deliver_all_effect E evs s1) as (new & _ & _ & Hd).
      unfold deliver_all in Hd. rewrite Hd. exact H1. }
    destruct H as (-> & -> & ->).
    split; [| split; [| split; [| split]]]; auto.
  - clear. intros f s Hf (Hr & Hi & Hg & Hb & Hp).
    destruct (Hf (vars s)) as [H1 H2]. unfold serving. cbn.
    split; [| split; [| split; [| split]]]; auto.
Qed.

Lemma dispatch_within (okop : forall X : Type, Op X -> Prop) (okput : (Vars -> Vars) -> Prop) :
  (forall l, okop _ (ConsoleLog l)) ->
  (forall r, okop _ (WriteResultSync r)) ->
  within okop okput ensureBrowserReady ->
  (forall action data, within okop okput (switch_action action data)) ->
  forall command, within okop okput (executeCommand command).
Proof.
  intros Hlog Hwrite Hensure Hswitch command.
  assert (Hi : within okop okput (executeCommandInner command)).
  { unfold executeCommandInner.
    destruct (destructure_command command) as [[action data] | m]; cbn; auto. }
  unfold executeCommand. apply within_try_catch; [exact Hi |].
  intros m. destruct (session_lost m).
  - apply within_bind; [cbn; auto |]. intros _.
    apply within_try_catch; [| intros m'; cbn; auto].
    apply within_bind; [exact Hensure |]. intros _. exact Hi.
  - cbn. auto.
Qed.

Lemma tick_within (okop : forall X : Type, Op X -> Prop) (okput : (Vars -> Vars) -> Prop) :
  (forall l, okop _ (ConsoleLog l)) ->
  (forall l, okop _ (ConsoleError l)) ->
  (forall r, okop _ (WriteResultSync r)) ->
  okop _ (ExistsSync COMMAND_FILE) -> okop _ ReadCommandSync ->
  okop _ (UnlinkSync COMMAND_FILE) ->
  within okop okput ensureBrowserReady ->
  (forall action data, within okop okput (switch_action action data)) ->
  forall parse, within okop okput (tick parse).
Proof.
  intros Hlog Herr Hwrite He Hr Hu Hensure Hswitch parse.
  unfold tick. cbn. split; [exact He |]. intros [|]; [| exact I].
  cbn. split; [exact Hr |]. intros [d | m]; [| exact I].
  cbn. split; [exact Hu |]. intros [[] | m]; [| exact I].
  cbn. unfold process. apply within_try_catch.
  - apply within_bind.
    + destruct (parse d); exact I.
    + intros command. now apply dispatch_within.
  - intros m. cbn. auto.
Qed.

Ltac handles := unfold keeps_handles; footprint; try congruence.

Lemma tick_keeps_serving parse : within keeps_serving keeps_handles (tick parse).
Proof.
  apply tick_within; try exact I; try (intros; exact I).
  - handles.
  - intros action data. unfold switch_action.
    destruct action; unfold case_default; handles.
Qed.

Lemma tick_stays parse : within any_op any_put (tick parse).
Proof.
  apply tick_within; try exact I; try (intros; exact I).
  - exact ensureBrowserReady_stays.
  - exact switch_action_stays.
Qed.

Lemma startBrowser_stays : within any_op any_put startBrowser.
Proof. unfold any_op, any_put. footprint. Qed.

Lemma startBrowser_leaves_files : within leaves_files any_put startBrowser.
Proof. unfold any_put. footprint. Qed.

(** A startup that succeeds leaves the three handles set. *)
Lemma startBrowser_sets_handles (s sb : St E) :
  run startBrowser s = (sb, Done tt) ->
  browser (vars sb) <> None /\ context (vars sb) <> None /\ page (vars sb) <> None.
Proof.
  unfold startBrowser, run. cbn. sync. cbn.
  step. destruct x as [b | m]; cbn; [| discriminate].
  step. destruct x as [c | m]; cbn; [| discriminate].
  step. destruct x as [p | m]; cbn; [| discriminate].
  step. destruct x as [sz | m]; cbn; [| discriminate].
  sync. cbn.
  pose proof (perform_vars_fields E (Screen p) (with_vars (set_page (Some p) (vars s2)) s2))
    as (Hb & Hc & Hpage & _).
  unfold perform in Hb, Hc, Hpage. rewrite Hp2 in Hb, Hc, Hpage. cbn in Hb, Hc, Hpage.
  rewrite Hpage. cbn.
  step. destruct x as [[] | m]; cbn; [| discriminate].
  sync. cbn.
  pose proof (perform_vars_fields E
                (SetViewportSize p (JNum (availWidth sz)) (JNum (availHeight sz)))
                (record (Ev (ConsoleLog [JStr "Window inner:"; JNum (innerWidth sz);
                                         JStr "x"; JNum (innerHeight sz)]) tt)
                   (record (Ev (ConsoleLog [JStr "Screen available:"; JNum (availWidth sz);
                                            JStr "x"; JNum (availHeight sz)]) tt) s3)))
    as (Hb' & Hc' & Hpage' & _).
  unfold perform in Hb', Hc', Hpage'. rewrite Hp3 in Hb', Hc', Hpage'.
  cbn in Hb', Hc', Hpage'.
  rewrite Hpage', Hpage. cbn. sync. cbn.
  intros H. inversion H; subst. cbn. rewrite Hb', Hc', Hpage', Hb, Hc, Hpage.
  pose proof (perform_vars_fields E (NewPage c) (with_vars (set_context (Some c) (vars s1)) s1))
    as (Hb1 & Hc1 & _).
  unfold perform in Hb1, Hc1. rewrite Hp1 in Hb1, Hc1. cbn in Hb1, Hc1.
  rewrite Hb1, Hc1.
  pose proof (perform_vars_fields E (NewContext b) (with_vars (set_browser (Some b) (vars s0)) s0))
    as (Hb0 & _).
  unfold perform in Hb0. rewrite Hp0 in Hb0. cbn in Hb0. rewrite Hb0.
  repeat split; discriminate.
Qed.

Lemma exit_after_cleaning (c : Z) (s : St E) :
  exists s', run (cleanup;; Exit c : Prog unit) s = (s', Halted c) /\
             exit_code s' = Some c /\ files s' = no_files /\
             the_world s' = the_world s.
Proof.
  destruct s as [w v [[cf |] [rf |] [yf |]] i g x t];
    eexists; (split; [reflexivity | split; [reflexivity | split; reflexivity]]).
Qed.

Lemma boot_outcome (w : world E) (fs : Files) :
  match run startBrowser (after cleanup (fresh w fs)) with
  | (s1, Done _) =>
      boot w fs = listening s1 /\ files s1 = no_files /\ exit_code s1 = None /\
      browser (vars s1) <> None /\ page (vars s1) <> None
  | (s1, Raised m) =>
      exit_code (boot w fs) = Some 1 /\ files (boot w fs) = no_files
  | (_, Halted _) => False
  end.
Proof.
  destruct (cleanup_done E (fresh w fs)) as [Hc Hf].
  assert (Hb : boot w fs
               = after (try_catch startDaemon
                          (fun m => console_error [JStr "Fatal error:"; JStr m];;
                                    cleanup;; Exit 1))
                       (after cleanup (fresh w fs))).
  { unfold boot, daemon_main. rewrite after_bind, Hc. reflexivity. }
  pose proof (files_kept startBrowser (after cleanup (fresh w fs)) startBrowser_leaves_files)
    as Hfiles.
  pose proof (exit_code_kept E startBrowser (after cleanup (fresh w fs)) startBrowser_stays)
    as Hexit.
  pose proof (never_halts E startBrowser startBrowser_stays (after cleanup (fresh w fs)))
    as Hhalt.
  pose proof (startBrowser_sets_handles (after cleanup (fresh w fs))) as Hh.
  assert (Hx0 : exit_code (after cleanup (fresh w fs)) = None).
  { rewrite exit_code_kept; [reflexivity |]. unfold any_op, any_put. footprint. }
  rewrite after_try_catch in Hb. unfold startDaemon in Hb. rewrite run_bind in Hb.
  destruct (run startBrowser (after cleanup (fresh w fs))) as [s1 [[] | m | c]] eqn:Hrun;
    rewrite (after_eq E _ _ _ _ Hrun) in Hfiles, Hexit; cbn [fst snd] in *.
  - destruct (Hh s1 eq_refl) as (H1 & _ & H3).
    split; [rewrite Hb; reflexivity |].
    rewrite Hfiles, Hf, Hexit, Hx0. auto.
  - rewrite Hb.
    destruct (exit_after_cleanup E (fatal_error_logged m s1)) as [Hx Hn].
    split; [exact Hx | exact Hn].
  - now apply (Hhalt c).
Qed.

(** X9. When the daemon starts, the files a crashed daemon may have left
    are deleted before anything else, so that no stale request or Response
    survives.  The ready marker is written only after the browser startup
    has succeeded; then it is the only file, the poll loop runs every
    100 ms and the SIGINT handler is bound.  When the startup fails the
    process exits with status 1 and leaves none of the three files. *)
Theorem ready_marker_follows_successful_startup (w : world E) (fs : Files) :
  match run startBrowser (after cleanup (fresh w fs)) with
  | (s1, Done _) =>
      boot w fs = listening s1 /\
      files (boot w fs) = daemon_ready /\
      exit_code (boot w fs) = None /\
      serving (boot w fs)
  | (s1, Raised m) =>
      exit_code (boot w fs) = Some 1 /\ files (boot w fs) = no_files
  | (_, Halted _) => False
  end.
Proof.
  pose proof (boot_outcome w fs) as H.
  destruct (run startBrowser (after cleanup (fresh w fs))) as [s1 [[] | m | c]]; auto.
  destruct H as (Hb & Hf & Hx & H1 & H2). rewrite Hb.
  split; [reflexivity |]. unfold listening, serving. cbn. rewrite Hf, Hx.
  split; [reflexivity |]. split; [reflexivity |].
  split; [| split; [| split; [| split]]]; auto.
Qed.

Lemma boot_serves_or_exits (w : world E) (fs : Files) :
  match exit_code (boot w fs) with
  | None => serving (boot w fs)
  | Some c => c = 1 /\ files (boot w fs) = no_files
  end.
Proof.
  pose proof (boot_outcome w fs) as H.
  destruct (run startBrowser (after cleanup (fresh w fs))) as [s1 [[] | m | c]];
    [| | contradiction].
  - destruct H as (Hb & Hf & Hx & H1 & H2). rewrite Hb.
    unfold listening, serving. cbn. rewrite Hx.
    split; [reflexivity |]. split; [reflexivity |]. split; [reflexivity |]. auto.
  - destruct H as [Hx Hf]. rewrite Hx. auto.
Qed.

Lemma run_on_sigint (s : St E) :
  run on_sigint s =
  match holds_connected_browser s with
  | Some b =>
      match perform (Close b) (shutdown_announced s) with
      | (s3, Ok _) => run (cleanup;; Exit 0 : Prog unit) s3
      | (s3, Thrown m) => (s3, Raised m)
      end
  | None => run (cleanup;; Exit 0 : Prog unit) (shutdown_announced s)
  end.
Proof.
  unfold on_sigint, browser_connected, holds_connected_browser, shutdown_announced,
    run, perform.
  cbn. sync. cbn.
  destruct (browser (vars s)) as [b |] eqn:Hb; cbn; [| reflexivity].
  sync. cbn. destruct (browser_isConnected E b (the_world s)); cbn; [| reflexivity].
  rewrite Hb. cbn. step. destruct x as [[] | m]; reflexivity.
Qed.

(** X10. The SIGINT handler closes the browser if one is held and
    connected, and only then; it removes the three channel files and
    exits with status 0.  If [browser.close()] throws, the handler stops
    there: the files are not removed, the ready marker included, and
    [process.exit] is not called. *)
Theorem sigint_handler_shuts_down (s : St E) :
  match holds_connected_browser s with
  | Some b =>
      match perform (Close b) (shutdown_announced s) with
      | (s3, Ok _) =>
          snd (run on_sigint s) = Halted 0 /\
          exit_code (after on_sigint s) = Some 0 /\
          files (after on_sigint s) = no_files /\
          the_world (after on_sigint s) = the_world s3
      | (s3, Thrown m) =>
          run on_sigint s = (s3, Raised m) /\
          exit_code s3 = exit_code s /\ files s3 = files s
      end
  | None =>
      snd (run on_sigint s) = Halted 0 /\
      exit_code (after on_sigint s) = Some 0 /\
      files (after on_sigint s) = no_files /\
      the_world (after on_sigint s) = the_world s
  end.
Proof.
  unfold after. rewrite run_on_sigint.
  assert (Hw : the_world (shutdown_announced s) = the_world s).
  { unfold shutdown_announced. destruct (browser (vars s)); reflexivity. }
  destruct (holds_connected_browser s) as [b |] eqn:Hb.
  - pose proof (files_kept (perform_op (Close b)) (shutdown_announced s)) as Hf.
    pose proof (exit_code_kept E (perform_op (Close b)) (shutdown_announced s)) as Hx.
    unfold after in Hf, Hx. rewrite run_perform_op in Hf, Hx. cbn [fst] in Hf, Hx.
    destruct (perform (Close b) (shutdown_announced s)) as [s3 [[] | m]] eqn:Hp.
    + destruct (exit_after_cleaning 0 s3) as (s' & -> & H1 & H2 & H3). cbn. auto.
    + cbn [fst] in Hf, Hx. split; [reflexivity |]. split.
      * rewrite Hx; [| footprint]. unfold shutdown_announced.
        destruct (browser (vars s)); reflexivity.
      * rewrite Hf; [| footprint]. unfold shutdown_announced.
        destruct (browser (vars s)); reflexivity.
  - destruct (exit_after_cleaning 0 (shutdown_announced s)) as (s' & -> & H1 & H2 & H3).
    cbn. rewrite H3. auto.
Qed.

Lemma react_serves (i : Input E) (s : St E) :
  match i with Interrupt => False | _ => True end ->
  serving s -> exit_code s = None ->
  serving (react i s) /\ exit_code (react i s) = None.
Proof.
  intros Hi Hs Hx. unfold react. rewrite Hx.
  destruct i as [| | d | | w evs]; try contradiction.
  - destruct (interval s); [| auto].
    destruct (loop_kept (tick (JSON_parse E)) s (tick_stays _) (tick_keeps_serving _) Hs)
      as [H1 H2].
    split; [exact H1 | now rewrite H2].
  - split; [exact Hs | exact Hx].
  - split; [| exact Hx]. destruct Hs as (H1 & H2 & H3 & H4 & H5).
    unfold serving. cbn. rewrite H1. destruct (files s); cbn in *.
    split; [| split; [| split; [| split]]]; auto.
  - destruct (deliver_all_effect E evs (with_world w s)) as (new & _ & _ & Hd).
    rewrite Hd. split; [| exact Hx]. exact Hs.
Qed.

(** X11. As long as no SIGINT arrives, a daemon that has booted keeps
    serving whatever its clients send, whatever the browser does and
    however its commands and restarts end, each callback having run to its
    end: the process has exited after the inputs exactly if it had at boot,
    so that a daemon that has booted has not exited; its ready marker is
    in place, its poll loop and its SIGINT handler are set up, and
    [browser] and [page] are never undefined again.  The only process that
    is not serving is the one whose startup failed at boot, which has
    exited with status 1 and left no file, and which no input changes. *)
Theorem booted_daemon_keeps_serving (inputs : list (Input E)) (w : world E) (fs : Files) :
  uninterrupted inputs ->
  exit_code (daemon_after inputs w fs) = exit_code (boot w fs) /\
  match exit_code (boot w fs) with
  | None => serving (daemon_after inputs w fs)
  | Some c => c = 1 /\ daemon_after inputs w fs = boot w fs /\ files (boot w fs) = no_files
  end.
Proof.
  intros Hu. unfold daemon_after.
  pose proof (boot_serves_or_exits w fs) as Hb.
  revert Hb. generalize (boot w fs). clear w fs.
  induction Hu as [| i inputs Hi Hu IH]; intros s Hs; cbn [fold_left].
  - split; [reflexivity |]. destruct (exit_code s) as [c |]; [| exact Hs].
    destruct Hs as [H1 H2]. auto.
  - destruct (exit_code s) as [c |] eqn:Hx.
    + assert (Hr : react i s = s) by (unfold react; rewrite Hx; reflexivity).
      rewrite Hr. specialize (IH s). rewrite Hx in IH. exact (IH Hs).
    + destruct (react_serves i s Hi Hs Hx) as [H1 H2].
      specialize (IH (react i s)). rewrite H2 in IH. exact (IH H1).
Qed.

End Lifecycle.

(** On the small engine: Chrome disappears while the window is closed, and
    the daemon still serves after the restart for the next request failed. *)
Lemma booted_daemon_keeps_serving_witness :
  let inputs :=
    [Outside (E := Toy.engine)
       (Toy.chrome_removed (Toy.windows_closed (the_world Scenario.running))) [];
     ClientWrites (Toy.request_text "status" []);
     IntervalFires] in
  uninterrupted inputs /\
  exit_code (daemon_after inputs Toy.machine Scenario.stale_files) = None /\
  serving (daemon_after inputs Toy.machine Scenario.stale_files).
Proof.
  intros inputs.
  assert (Hu : uninterrupted inputs) by (repeat constructor).
  destruct (booted_daemon_keeps_serving Toy.engine inputs Toy.machine Scenario.stale_files Hu)
    as [He H].
  assert (Hx : exit_code (boot (E := Toy.engine) Toy.machine Scenario.stale_files) = None)
    by (vm_compute; reflexivity).
  rewrite Hx in He, H. split; [exact Hu |]. split; [exact He | exact H].
Defined.

(** ** Client and daemon together *)

Section Channel.

Variable JSON_stringify JSON_stringify_indented : jsval -> string.
Variable parseInt : option string -> option Z.

Lemma missing_false (argv : list string) (i : nat) :
  missing (nth_error argv i) = false ->
  nth_error argv i = Some (nth i argv "") /\ nth i argv "" <> "".
Proof.
  unfold missing. destruct (nth_error argv i) as [x |] eqn:Hx; [| discriminate].
  intros H. rewrite (nth_error_nth argv i "" Hx). split; [reflexivity |].
  intros ->. discriminate.
Qed.

Lemma falsy_number_false (n : option Z) :
  falsy_number n = false -> exists z, n = Some z /\ z <> 0.
Proof.
  destruct n as [z |]; cbn; [| discriminate].
  intros H. exists z. split; [reflexivity |]. intros ->. discriminate.
Qed.

(** X12. Whatever the arguments, a request the client sends is one the
    daemon knows: its [action] is one of the six of the daemon's [switch],
    taken from the first argument, and its [data] has the fields that case
    reads -- for [navigate] and [exec] the second argument, which is not
    empty, and for [resize] the two numbers [parseInt] gave, neither NaN nor
    0.  The client checks no more than that: the numbers may be negative. *)
Theorem client_sends_only_known_requests (argv : list string) command report :
  choose JSON_stringify_indented parseInt argv = Send command report ->
  exists action data,
    nth_error argv 0 = Some action /\
    command = the_command action data /\
    destructure_command command = Ok (JStr action, JObj data) /\
    known_action (JStr action) = true /\
    (action = "navigate" ->
     exists u, nth_error argv 1 = Some u /\ u <> "" /\ data = [("url", JStr u)]) /\
    (action = "exec" ->
     exists c, nth_error argv 1 = Some c /\ c <> "" /\ data = [("code", JStr c)]) /\
    (action = "resize" ->
     exists wd ht,
       parseInt (nth_error argv 1) = Some wd /\ parseInt (nth_error argv 2) = Some ht /\
       wd <> 0 /\ ht <> 0 /\ data = [("width", JNum wd); ("height", JNum ht)]) /\
    (action = "console" \/ action = "console-clear" \/ action = "status" -> data = []).
Proof.
  unfold choose. destruct (nth_error argv 0) as [action |]; [| discriminate].
  destruct (String.eqb action "navigate") eqn:E1.
  { apply String.eqb_eq in E1. subst action.
    destruct (missing (nth_error argv 1)) eqn:Hm; [discriminate |].
    destruct (missing_false argv 1 Hm) as (Hu & Hne).
    intros H. inversion H; subst. exists "navigate", [("url", JStr (nth 1 argv ""))].
    repeat split; try discriminate; eauto.
    intros [H1 | [H1 | H1]]; discriminate. }
  destruct (String.eqb action "exec") eqn:E2.
  { apply String.eqb_eq in E2. subst action.
    destruct (missing (nth_error argv 1)) eqn:Hm; [discriminate |].
    destruct (missing_false argv 1 Hm) as (Hu & Hne).
    intros H. inversion H; subst. exists "exec", [("code", JStr (nth 1 argv ""))].
    repeat split; try discriminate; eauto.
    intros [H1 | [H1 | H1]]; discriminate. }
  destruct (String.eqb action "console") eqn:E3.
  { apply String.eqb_eq in E3. subst action.
    intros H. inversion H; subst. exists "console", [].
    repeat split; discriminate. }
  destruct (String.eqb action "console-clear") eqn:E4.
  { apply String.eqb_eq in E4. subst action.
    intros H. inversion H; subst. exists "console-clear", [].
    repeat split; discriminate. }
  destruct (String.eqb action "status") eqn:E5.
  { apply String.eqb_eq in E5. subst action.
    intros H. inversion H; subst. exists "status", [].
    repeat split; discriminate. }
  destruct (String.eqb action "resize") eqn:E6; [| discriminate].
  apply String.eqb_eq in E6. subst action.
  destruct (falsy_number (parseInt (nth_error argv 1))) eqn:Hw; [discriminate |].
  destruct (falsy_number (parseInt (nth_error argv 2))) eqn:Hh; [discriminate |].
  destruct (falsy_number_false _ Hw) as (wd & Hwd & Hwn).
  destruct (falsy_number_false _ Hh) as (ht & Hht & Hhn).
  rewrite Hwd, Hht. cbn.
  intros H. inversion H; subst.
  exists "resize", [("width", JNum wd); ("height", JNum ht)].
  repeat split; try discriminate.
  - intros _. exists wd, ht. auto.
  - intros [H1 | [H1 | H1]]; discriminate.
Qed.

Lemma unanswered (sur : Surroundings) :
  undisturbed sur -> punctual sur ->
  forall n k fs,
    result_file fs = None -> (k <= 600)%nat -> (601 <= n + k)%nat ->
    await_result sur k n fs = (fs, Some (Thrown "Command timeout")).
Proof.
  intros Hu Hp. induction n as [| n IH]; intros k fs Hr Hk Hn; [lia |].
  cbn [await_result]. rewrite Hu, Hr.
  destruct (elapsed sur k >? 30000) eqn:He; [reflexivity |].
  rewrite Z.gtb_ltb in He. apply Z.ltb_ge in He.
  pose proof (Hp k). apply IH; try assumption; lia.
Qed.

Lemma still_waiting :
  forall n k fs,
    result_file fs = None -> (n + k <= 600)%nat ->
    await_result silence k n fs = (fs, None).
Proof.
  induction n as [| n IH]; intros k fs Hr Hn; [reflexivity |].
  cbn [await_result].
  change (others silence k fs) with fs.
  change (elapsed silence k) with (50 * (Z.of_nat k + 1)).
  rewrite Hr.
  destruct (50 * (Z.of_nat k + 1) >? 30000) eqn:He.
  - rewrite Z.gtb_ltb in He. apply Z.ltb_lt in He. lia.
  - apply IH; [assumption | lia].
Qed.

(** X13. A request that nobody answers is given up with the error
    [Command timeout], at the latest by the 601st callback of the 50 ms
    interval, and never before 30 s have passed: with an exact timer the
    client is still waiting after 600 callbacks.  The client leaves its
    request in the command file when it gives up. *)
Theorem unanswered_request_times_out command (sur : Surroundings) (n : nat) (fs : Files) :
  (undisturbed sur -> punctual sur -> (601 <= n)%nat ->
   sendCommand JSON_stringify command sur n fs
   = (post_command JSON_stringify command fs, Some (Thrown "Command timeout")) /\
   command_file (post_command JSON_stringify command fs) = Some (JSON_stringify command)) /\
  ((n <= 600)%nat ->
   sendCommand JSON_stringify command silence n fs
   = (post_command JSON_stringify command fs, None)).
Proof.
  destruct (post_command_slots JSON_stringify command fs) as [Hr Hc].
  split.
  - intros Hu Hp Hn. split; [| exact Hc].
    unfold sendCommand. apply unanswered; auto; lia.
  - intros Hn. unfold sendCommand. apply still_waiting; auto; lia.
Qed.

Variable E : Engine.

Lemma served_request command (s : St E) (fs : Files) :
  JSON_parse E (JSON_stringify command) = Ok command ->
  exit_code s = None -> interval s <> None ->
  let posted := with_files (post_command JSON_stringify command fs) s in
  exists r s0,
    react IntervalFires posted = answered r s0 /\
    react IntervalFires posted
    = after (executeCommand command) (consumed (JSON_stringify command) posted) /\
    command_file (files (answered r s0)) = None /\
    ready_file (files (answered r s0)) = ready_file fs /\
    fits_command command r.
Proof.
  intros Hparse Hx Hi posted.
  destruct (post_command_slots JSON_stringify command fs) as [Hr Hc].
  assert (Hd : command_file (files posted) = Some (JSON_stringify command)) by exact Hc.
  assert (Hreact : react IntervalFires posted = after (tick (JSON_parse E)) posted).
  { unfold react. cbn. rewrite Hx. destruct (interval s); [reflexivity | now destruct Hi]. }
  assert (Htick : run (tick (JSON_parse E)) posted
                  = run (executeCommand command)
                        (consumed (JSON_stringify command) posted)).
  { rewrite (tick_consumes_first E _ _ posted Hd). unfold process.
    rewrite Hparse. cbn [of_result bind]. rewrite run_try_catch.
    destruct (run_executeCommand_answers E command
                (consumed (JSON_stringify command) posted)) as (r & s0 & -> & _ & _).
    reflexivity. }
  destruct (run_executeCommand_answers E command
              (consumed (JSON_stringify command) posted)) as (r & s0 & Hrun & Hfit & _).
  exists r, s0.
  assert (Ha : after (tick (JSON_parse E)) posted = answered r s0).
  { unfold after. rewrite Htick, Hrun. reflexivity. }
  split; [now rewrite Hreact |]. split.
  - rewrite Hreact. unfold after. rewrite Htick. reflexivity.
  - rewrite <- Ha. split; [| split].
    + unfold after. rewrite Htick.
      apply (command_file_stays_absent E (executeCommand command)
               (consumed (JSON_stringify command) posted) (executeCommand_stays command)).
      unfold posted, consumed. cbn.
      destruct (post_command JSON_stringify command fs); reflexivity.
    + unfold after. rewrite Htick.
      change (fst (run (executeCommand command) (consumed (JSON_stringify command) posted)))
        with (after (executeCommand command) (consumed (JSON_stringify command) posted)).
      rewrite (ready_file_kept E _ _ (executeCommand_leaves_ready command)).
      unfold posted, consumed, post_command.
      destruct fs as [cf [rf |] yf]; reflexivity.
    + exact Hfit.
Qed.

(** The looks of the client before the Response is there. *)
Lemma await_result_waits (sur : Surroundings) (j n : nat) (fs : Files) :
  (forall k, (k < j)%nat ->
     result_file (files_by_look sur (S k) fs) = None /\ elapsed sur k <= 30000) ->
  forall m k,
    (k + m = j)%nat ->
    await_result sur k (m + n) (files_by_look sur k fs)
    = await_result sur j n (files_by_look sur j fs).
Proof.
  intros Hq. induction m as [| m IH]; intros k Hk.
  - replace k with j by lia. reflexivity.
  - cbn [Nat.add await_result].
    change (others sur k (files_by_look sur k fs)) with (files_by_look sur (S k) fs).
    destruct (Hq k ltac:(lia)) as [Ho He]. rewrite Ho.
    destruct (elapsed sur k >? 30000) eqn:Hg.
    + rewrite Z.gtb_ltb in Hg. apply Z.ltb_lt in Hg. lia.
    + apply IH. lia.
Qed.

(** The looks of the client that finds no Response while its 30 s run. *)
Lemma await_result_gives_up (sur : Surroundings) (fs : Files) :
  punctual sur -> unanswered_in_time sur fs ->
  forall n k,
    (k <= 600)%nat -> (601 <= n + k)%nat ->
    exists k0,
      (k0 <= 600)%nat /\ 30000 < elapsed sur k0 /\
      await_result sur k n (files_by_look sur k fs)
      = (files_by_look sur (S k0) fs, Some (Thrown "Command timeout")).
Proof.
  intros Hp Hu. induction n as [| n IH]; intros k Hk Hn; [lia |].
  cbn [await_result].
  change (others sur k (files_by_look sur k fs)) with (files_by_look sur (S k) fs).
  rewrite (Hu k Hk).
  destruct (elapsed sur k >? 30000) eqn:Hg.
  - rewrite Z.gtb_ltb in Hg. apply Z.ltb_lt in Hg.
    exists k. split; [exact Hk |]. split; [exact Hg | reflexivity].
  - rewrite Z.gtb_ltb in Hg. apply Z.ltb_ge in Hg.
    pose proof (Hp k) as Hl.
    apply IH; lia.
Qed.

Lemma answer_collected command (s : St E) (sur : Surroundings) (j n : nat) (fs : Files) :
  JSON_parse E (JSON_stringify command) = Ok command ->
  exit_code s = None -> interval s <> None ->
  answered_before_look sur j s (post_command JSON_stringify command fs) ->
  let posted := with_files (post_command JSON_stringify command fs) s in
  exists r,
    result_file
      (files (after (executeCommand command) (consumed (JSON_stringify command) posted)))
    = Some r /\
    fits_command command r /\
    sendCommand JSON_stringify command sur (j + S n) fs
    = ({| command_file := None; result_file := None; ready_file := ready_file fs |},
       Some (Ok r)).
Proof.
  intros Hparse Hx Hi [Hbefore Hthen] posted.
  destruct (served_request command s fs Hparse Hx Hi)
    as (r & s0 & Ha & Hd & Hc & Hy & Hfit).
  fold posted in Ha, Hd.
  exists r. split; [| split; [exact Hfit |]].
  - rewrite <- Hd, Ha. reflexivity.
  - unfold sendCommand.
    pose proof (await_result_waits sur j (S n) (post_command JSON_stringify command fs)
                  Hbefore j 0 ltac:(lia)) as Hw.
    cbn [files_by_look] in Hw. rewrite Hw.
    cbn [await_result].
    change (others sur j (files_by_look sur j (post_command JSON_stringify command fs)))
      with (files_by_look sur (S j) (post_command JSON_stringify command fs)).
    rewrite Hthen. fold posted. rewrite Ha.
    assert (Hr : result_file (files (answered r s0)) = Some r) by reflexivity.
    rewrite Hr. f_equal.
    destruct (files (answered r s0)) as [cf rf yf] eqn:Hf. cbn in *.
    unfold unlink. cbn. rewrite Hc, Hy. reflexivity.
Qed.

(** X14. A request makes the round trip whenever the daemon answers it in
    time.  The daemon is running and its JSON decoder gives back the
    command the client encoded; its interval callback finds the request,
    and the dispatch it begins completes, before some look of the client
    at the result file; at the looks before, the client's 30 s are not
    over and it finds no Response, whatever else has happened to the
    files -- the daemon may have taken the request long before it answers.
    Then the callback has dispatched that very command and written its
    Response, and the client collects exactly that Response at that look
    and deletes it: both slots are empty afterwards and the ready marker
    is as before. *)
Theorem request_makes_the_round_trip
  command (s : St E) (sur : Surroundings) (j n : nat) (fs : Files) :
  JSON_parse E (JSON_stringify command) = Ok command ->
  exit_code s = None -> interval s <> None ->
  answered_before_look sur j s (post_command JSON_stringify command fs) ->
  let posted := with_files (post_command JSON_stringify command fs) s in
  exists r,
    result_file
      (files (after (executeCommand command) (consumed (JSON_stringify command) posted)))
    = Some r /\
    sendCommand JSON_stringify command sur (j + S n) fs
    = ({| command_file := None; result_file := None; ready_file := ready_file fs |},
       Some (Ok r)).
Proof.
  intros Hparse Hx Hi Hsur posted.
  destruct (answer_collected command s sur j n fs Hparse Hx Hi Hsur) as (r & Hr & _ & Hs).
  exists r. split; [exact Hr | exact Hs].
Qed.

Lemma fitting_answer_is_reported (argv : list string) command report (r : Response) :
  choose JSON_stringify_indented parseInt argv = Send command report ->
  fits_command command r -> snd (report r) = None.
Proof.
  intros Hc Hfit.
  destruct (chosen_report JSON_stringify_indented parseInt argv command report r Hc)
    as [H | (-> & Hs & Hl & _)]; [exact H |].
  destruct r; cbn in Hfit, Hs, Hl; try discriminate.
  destruct Hfit as [Hfit _]. discriminate.
Qed.

(** X15. The client of a running daemon exits with 0 when it is answered
    in time, and with 1 when it is not.  When the daemon's callback
    completes the dispatch before a look of the client that comes before
    its 30 s are over, the client prints its report of the Response the
    daemon wrote and exits with status 0, even when that Response is an
    error: the Response always has the fields the report reads, so that
    the report does not throw; both slots are empty afterwards.  When the
    client finds no Response while its 30 s run -- the dispatch takes
    longer, as a [navigate] that runs into its own timeout of 30 s, or a
    call it awaits does not settle -- the client prints
    [Error: Command timeout] and exits with status 1, at a look at which
    more than 30 s have passed, leaving the files as it found them
    then. *)
Theorem client_of_a_running_daemon
  (argv : list string) command report (s : St E) (fs : Files) :
  ready_file fs <> None ->
  choose JSON_stringify_indented parseInt argv = Send command report ->
  (forall (sur : Surroundings) (j n : nat),
     JSON_parse E (JSON_stringify command) = Ok command ->
     exit_code s = None -> interval s <> None ->
     answered_before_look sur j s (post_command JSON_stringify command fs) ->
     let posted := with_files (post_command JSON_stringify command fs) s in
     exists r,
       result_file
         (files (after (executeCommand command) (consumed (JSON_stringify command) posted)))
       = Some r /\
       fits_command command r /\
       client_main JSON_stringify JSON_stringify_indented parseInt argv sur (j + S n) fs
       = Some {| printed := fst (report r); code := 0;
                 left := {| command_file := None; result_file := None;
                            ready_file := ready_file fs |} |}) /\
  (forall (sur : Surroundings) (n : nat),
     punctual sur ->
     unanswered_in_time sur (post_command JSON_stringify command fs) ->
     (601 <= n)%nat ->
     exists k,
       (k <= 600)%nat /\ 30000 < elapsed sur k /\
       client_main JSON_stringify JSON_stringify_indented parseInt argv sur n fs
       = Some {| printed := [Error [JStr "Error:"; JStr "Command timeout"]]; code := 1;
                 left := files_by_look sur (S k) (post_command JSON_stringify command fs) |}).
Proof.
  intros Hready Hc.
  assert (He : file_exists READY_FILE fs = true).
  { unfold file_exists. destruct (ready_file fs); [reflexivity | now destruct Hready]. }
  split.
  - intros sur j n Hparse Hx Hi Hsur posted.
    destruct (answer_collected command s sur j n fs Hparse Hx Hi Hsur)
      as (r & Hr & Hfit & Hs).
    exists r. split; [exact Hr |]. split; [exact Hfit |].
    unfold client_main. rewrite Hc, He. cbn [negb]. unfold exchange. rewrite Hs.
    pose proof (fitting_answer_is_reported argv command report r Hc Hfit) as Hq.
    destruct (report r) as [out [m |]]; [discriminate | reflexivity].
  - intros sur n Hp Hu Hn.
    destruct (await_result_gives_up sur (post_command JSON_stringify command fs) Hp Hu
                n 0 ltac:(lia) ltac:(lia)) as (k & Hk & Hl & Ha).
    exists k. split; [exact Hk |]. split; [exact Hl |].
    unfold client_main. rewrite Hc, He. cbn [negb]. unfold exchange, sendCommand.
    cbn [files_by_look] in Ha. rewrite Ha. reflexivity.
Qed.

End Channel.

(** The client asked to resize to 1280 by 720. *)
Lemma client_sends_only_known_requests_witness :
  let command := the_command "resize" [("width", JNum 1280); ("height", JNum 720)] in
  choose toy_stringify toy_parseInt ["resize"; "1280"; "720"] = Send command report_resize /\
  destructure_command command
  = Ok (JStr "resize", JObj [("width", JNum 1280); ("height", JNum 720)]).
Proof.
  intros command.
  assert (H : choose toy_stringify toy_parseInt ["resize"; "1280"; "720"]
              = Send command report_resize) by reflexivity.
  split; [exact H |].
  destruct (client_sends_only_known_requests toy_stringify toy_parseInt _ _ _ H)
    as (action & data & _ & Hc & Hd & _).
  rewrite Hd. inversion Hc. reflexivity.
Defined.

(** Nobody answers a [status] request. *)
Lemma unanswered_request_times_out_witness :
  undisturbed silence /\ punctual silence /\ (601 <= 601)%nat /\
  sendCommand toy_stringify status_request silence 601 daemon_ready
  = (post_command toy_stringify status_request daemon_ready, Some (Thrown "Command timeout")) /\
  sendCommand toy_stringify status_request silence 600 daemon_ready
  = (post_command toy_stringify status_request daemon_ready, None).
Proof.
  assert (Hu : undisturbed silence) by (intros k fs; reflexivity).
  assert (Hp : punctual silence) by (intros k; cbn; lia).
  assert (Hn : (601 <= 601)%nat) by lia.
  split; [exact Hu |]. split; [exact Hp |]. split; [exact Hn |]. split.
  - exact (proj1 (proj1 (unanswered_request_times_out toy_stringify status_request
                           silence 601 daemon_ready) Hu Hp Hn)).
  - apply (proj2 (unanswered_request_times_out toy_stringify status_request
                    silence 600 daemon_ready)). lia.
Defined.

(** The daemon running on the small engine takes a [status] request before
    the client's first look and answers it before the eighth. *)
Lemma status_answered_before_look_7 :
  answered_before_look
    (served_at 7 Scenario.running (post_command toy_stringify status_request daemon_ready))
    7 Scenario.running (post_command toy_stringify status_request daemon_ready).
Proof.
  split.
  - intros k Hk. cbn [files_by_look]. unfold served_at. cbn [others elapsed].
    destruct (Nat.ltb k 7) eqn:Hlt.
    + split; [vm_compute; reflexivity | lia].
    + apply Nat.ltb_ge in Hlt. lia.
  - reflexivity.
Qed.

(** The daemon takes the request and a call of the dispatch never
    settles. *)
Lemma status_never_served :
  unanswered_in_time
    (never_served Scenario.running (post_command toy_stringify status_request daemon_ready))
    (post_command toy_stringify status_request daemon_ready).
Proof.
  intros k _. cbn [files_by_look]. unfold never_served. cbn [others].
  vm_compute. reflexivity.
Qed.

(** A [status] request to the daemon running on the small engine, which
    takes it at once and answers it before the client's eighth look. *)
Lemma request_makes_the_round_trip_witness :
  let posted := post_command toy_stringify status_request daemon_ready in
  Toy.parse (toy_stringify status_request) = Ok status_request /\
  exit_code Scenario.running = None /\
  interval Scenario.running <> None /\
  answered_before_look (served_at 7 Scenario.running posted) 7 Scenario.running posted /\
  command_file (files_by_look (served_at 7 Scenario.running posted) 1 posted) = None /\
  sendCommand toy_stringify status_request (served_at 7 Scenario.running posted) 8 daemon_ready
  = (daemon_ready, Some (Ok (RStatus "about:blank" "Title of about:blank" 0))).
Proof.
  intros posted.
  assert (H1 : JSON_parse Toy.engine (toy_stringify status_request) = Ok status_request)
    by (vm_compute; reflexivity).
  assert (H2 : exit_code Scenario.running = None) by (vm_compute; reflexivity).
  assert (H3 : interval Scenario.running <> None) by (vm_compute; discriminate).
  pose proof status_answered_before_look_7 as H4. fold posted in H4.
  split; [exact H1 |]. split; [exact H2 |]. split; [exact H3 |]. split; [exact H4 |].
  split; [vm_compute; reflexivity |].
  destruct (request_makes_the_round_trip toy_stringify Toy.engine status_request
              Scenario.running (served_at 7 Scenario.running posted) 7 0 daemon_ready
              H1 H2 H3 H4) as (r & Hr & Hs).
  change (7 + 1)%nat with 8%nat in Hs. rewrite Hs. f_equal.
  assert (Hv : Some r = Some (RStatus "about:blank" "Title of about:blank" 0))
    by (rewrite <- Hr; vm_compute; reflexivity).
  inversion Hv. reflexivity.
Defined.

(** ** The properties above on the small engine *)

(** A request for an action the daemon does not have. *)
Lemma unknown_action_is_reported_witness :
  let command := the_command "reload" [] in
  destructure_command command = Ok (JStr "reload", JObj []) /\
  known_action (JStr "reload") = false /\
  exactly_printed (JStr "reload") = true /\
  run (executeCommand command) Scenario.running
  = (answered (RError "Unknown command: reload") Scenario.running, Done tt).
Proof.
  intros command.
  assert (H1 : destructure_command command = Ok (JStr "reload", JObj [])) by reflexivity.
  assert (H2 : known_action (JStr "reload") = false) by reflexivity.
  assert (H3 : exactly_printed (JStr "reload") = true) by reflexivity.
  split; [exact H1 |]. split; [exact H2 |]. split; [exact H3 |].
  exact (proj2 (unknown_action_is_reported Toy.engine command (JStr "reload") (JObj [])
                  Scenario.running H1 H2) H3).
Defined.

(** An action that is an array: its [null] element is printed as the empty
    text. *)
Example array_action_is_reported :
  let command := JObj [("action", JArr [JNull; JNum 1])] in
  run (executeCommand command) Scenario.running
  = (answered (RError "Unknown command: ,1") Scenario.running, Done tt).
Proof. vm_compute. reflexivity. Qed.

(** A script run after a navigation. *)
Lemma only_navigate_changes_lastURL_witness :
  let command := exec_request (JStr "console.log hello") in
  (forall data, destructure_command command <> Ok (JStr "navigate", data)) /\
  lastURL (vars (after (executeCommand command) Scenario.visited))
  = lastURL (vars Scenario.visited).
Proof.
  intros command.
  assert (H : forall data, destructure_command command <> Ok (JStr "navigate", data))
    by (intros data; cbn; discriminate).
  split; [exact H |].
  exact (only_navigate_changes_lastURL Toy.engine command Scenario.visited H).
Defined.

(** A [console] request without [data], while the window is closed and
    Chrome is gone. *)
Lemma buffer_commands_need_no_session_witness :
  let command := JObj [("action", JStr "console")] in
  destructure_command command = Ok (JStr "console", JUndef) /\
  run (executeCommand command) Scenario.chrome_gone
  = (answered (RLogs (consoleLogs (vars Scenario.chrome_gone))) Scenario.chrome_gone,
     Done tt).
Proof.
  intros command.
  assert (H : destructure_command command = Ok (JStr "console", JUndef)) by reflexivity.
  split; [exact H |].
  exact (proj1 (buffer_commands_need_no_session Toy.engine command JUndef
                  Scenario.chrome_gone) H).
Defined.

(** A script that logs a line. *)
Lemma only_console_clear_empties_buffer_witness :
  let command := exec_request (JStr "console.log hello") in
  (forall data, destructure_command command <> Ok (JStr "console-clear", data)) /\
  buffer_grows_by_events (E := Toy.engine) (executeCommand command).
Proof.
  intros command.
  assert (H : forall data, destructure_command command <> Ok (JStr "console-clear", data))
    by (intros data; cbn; discriminate).
  split; [exact H |].
  exact (only_console_clear_empties_buffer Toy.engine command H).
Defined.

(** The client asks for the status of the daemon running on the small
    engine, which takes the request at once; it is answered before its
    eighth look, or not at all. *)
Lemma client_of_a_running_daemon_witness :
  let posted := post_command toy_stringify status_request daemon_ready in
  ready_file daemon_ready <> None /\
  choose toy_stringify toy_parseInt ["status"] = Send status_request report_status /\
  Toy.parse (toy_stringify status_request) = Ok status_request /\
  exit_code Scenario.running = None /\
  interval Scenario.running <> None /\
  answered_before_look (served_at 7 Scenario.running posted) 7 Scenario.running posted /\
  option_map code
    (client_main toy_stringify toy_stringify toy_parseInt ["status"]
       (served_at 7 Scenario.running posted) 8 daemon_ready) = Some 0 /\
  punctual (never_served Scenario.running posted) /\
  unanswered_in_time (never_served Scenario.running posted) posted /\
  (601 <= 601)%nat /\
  option_map code
    (client_main toy_stringify toy_stringify toy_parseInt ["status"]
       (never_served Scenario.running posted) 601 daemon_ready) = Some 1.
Proof.
  intros posted.
  assert (H0 : ready_file daemon_ready <> None) by (cbn; discriminate).
  assert (Hc : choose toy_stringify toy_parseInt ["status"]
               = Send status_request report_status) by reflexivity.
  assert (H1 : JSON_parse Toy.engine (toy_stringify status_request) = Ok status_request)
    by (vm_compute; reflexivity).
  assert (H2 : exit_code Scenario.running = None) by (vm_compute; reflexivity).
  assert (H3 : interval Scenario.running <> None) by (vm_compute; discriminate).
  pose proof status_answered_before_look_7 as H4. fold posted in H4.
  assert (H5 : punctual (never_served Scenario.running posted))
    by (intros k; unfold never_served; cbn [elapsed]; lia).
  pose proof status_never_served as H6. fold posted in H6.
  assert (H7 : (601 <= 601)%nat) by lia.
  destruct (client_of_a_running_daemon toy_stringify toy_stringify toy_parseInt Toy.engine
              ["status"] status_request report_status Scenario.running daemon_ready
              H0 Hc) as [Hin Hout].
  destruct (Hin (served_at 7 Scenario.running posted) 7%nat 0%nat H1 H2 H3 H4)
    as (r & _ & _ & Hm).
  destruct (Hout (never_served Scenario.running posted) 601%nat H5 H6 H7)
    as (k & _ & _ & Ht).
  split; [exact H0 |]. split; [exact Hc |]. split; [exact H1 |].
  split; [exact H2 |]. split; [exact H3 |]. split; [exact H4 |].
  split; [change (7 + 1)%nat with 8%nat in Hm; rewrite Hm; reflexivity |].
  split; [exact H5 |]. split; [exact H6 |]. split; [exact H7 |].
  rewrite Ht. reflexivity.
Defined.

(** ** What the Responses say *)

Section Responses.

Variable E : Engine.

(** X16. The Response of a dispatch has the shape of the requested action
    or is an error: a [navigate] request is answered with url and title, an
    [exec] request with a result, [console] with logs, [console-clear] with
    bare success, [status] with url, title and count, [resize] with width
    and height, and never one with the fields of another; a request without
    a known action, or one that cannot be destructured, gets an error.  The
    width and height of a [resize] Response are those of the request, given
    back as they came. *)
Theorem response_fits_the_request (command : jsval) (s : St E) :
  exists r,
    result_file (files (after (executeCommand command) s)) = Some r /\
    fits_command command r.
Proof.
  destruct (run_executeCommand_answers E command s) as (r & s0 & Hr & Hfit & _).
  exists r. unfold after. rewrite Hr. split; [reflexivity | exact Hfit].
Qed.

Lemma run_status (s : St E) :
  run (executeCommandInner status_request) s =
  match page (vars s) with
  | Some p =>
      match perform (Title p) (record (Ev (Url p) (page_url E p (the_world s))) s) with
      | (s2, Ok t) =>
          (answered (RStatus (page_url E p (the_world s)) t (length (consoleLogs (vars s2))))
             s2, Done tt)
      | (s2, Thrown m) => (s2, Raised m)
      end
  | None => (s, Raised (undefined_has_no "url"))
  end.
Proof.
  unfold run, perform. cbn.
  destruct (page (vars s)) as [p |] eqn:Hpage; cbn; [| reflexivity].
  sync. cbn. rewrite Hpage. cbn.
  step. destruct x as [t | m]; cbn; [| reflexivity].
  sync. reflexivity.
Qed.

Lemma status_counts_buffer (s : St E) :
  match run (executeCommandInner status_request) s with
  | (s', Done _) =>
      exists u t s0,
        s' = answered (RStatus u t (length (consoleLogs (vars s0)))) s0
  | _ => True
  end.
Proof.
  rewrite run_status. destruct (page (vars s)) as [p |]; [| exact I].
  destruct (perform (Title p) (record (Ev (Url p) (page_url E p (the_world s))) s))
    as [s2 [t | m]]; [| exact I].
  eauto.
Qed.

(** X17. The [consoleLogsCount] of a [status] Response is the length of the
    buffer when the Response is written, the events that arrived while the
    status was taken included: a [console] request that follows directly is
    answered with exactly that many entries. *)
Theorem status_counts_what_console_returns (s : St E) (u t : string) (n : nat) :
  let s' := after (executeCommand status_request) s in
  result_file (files s') = Some (RStatus u t n) ->
  n = length (consoleLogs (vars s')) /\
  result_file (files (after (executeCommand console_request) s'))
  = Some (RLogs (consoleLogs (vars s'))).
Proof.
  intros s' H. split; [| reflexivity].
  revert H. unfold s', after. rewrite run_executeCommand.
  pose proof (status_counts_buffer s) as H1.
  destruct (run (executeCommandInner status_request) s) as [s1 [[] | m | c]] eqn:R1.
  - destruct H1 as (u1 & t1 & s0 & ->). cbn. intros H. now inversion H.
  - destruct (session_lost m); [| cbn; discriminate].
    destruct (run ensureBrowserReady (retry_announced s1)) as [s2 [[] | m2 | c]] eqn:R2.
    + pose proof (status_counts_buffer s2) as H2.
      destruct (run (executeCommandInner status_request) s2) as [s3 [[] | m3 | c]] eqn:R3.
      * destruct H2 as (u1 & t1 & s0 & ->). cbn. intros H. now inversion H.
      * cbn. discriminate.
      * exfalso.
        apply (never_halts E _ (executeCommandInner_stays status_request) s2 c).
        now rewrite R3.
    + cbn. discriminate.
    + exfalso.
      apply (never_halts E _ ensureBrowserReady_stays (retry_announced s1) c).
      now rewrite R2.
  - exfalso. apply (never_halts E _ (executeCommandInner_stays status_request) s c).
    now rewrite R1.
Qed.

Lemma navigate_done (data : jsval) (s s' : St E) :
  run (case_navigate data) s = (s', Done tt) ->
  exists url title s0,
    s' = answered (RNavigated url title) s0 /\ lastURL (vars s0) = url.
Proof.
  unfold case_navigate, run. cbn.
  destruct (page (vars s)) as [p |] eqn:Hpage; cbn; [| discriminate].
  destruct (prop "url" data) as [u | m]; cbn; [| discriminate].
  pose proof (perform_vars_fields E (Goto AtNavigate p u "networkidle" 30000) s)
    as (_ & _ & Hp1 & _).
  unfold perform in Hp1. step. cbn [fst] in Hp1.
  destruct x as [[] | m]; cbn; [| discriminate].
  rewrite Hp1, Hpage. cbn. sync. cbn. rewrite Hp1, Hpage. cbn. sync. cbn.
  rewrite Hp1, Hpage. cbn.
  match goal with
  | |- context [perform_with deliver (Title p) ?sa] =>
      pose proof (perform_vars_fields E (Title p) sa) as (_ & _ & _ & _ & Hl)
  end.
  unfold perform in Hl. step. cbn [fst] in Hl.
  destruct x as [t | m]; cbn; [| discriminate].
  sync. intros H. inversion H.
  exists (page_url E p (the_world s0)), t, s1. split; [reflexivity | exact Hl].
Qed.

Lemma navigate_answer (command data : jsval) (s : St E) :
  destructure_command command = Ok (JStr "navigate", data) ->
  match run (executeCommandInner command) s with
  | (s', Done _) =>
      exists url title s0,
        s' = answered (RNavigated url title) s0 /\ lastURL (vars s0) = url
  | _ => True
  end.
Proof.
  intros Hc.
  assert (H : run (executeCommandInner command) s = run (case_navigate data) s).
  { unfold executeCommandInner. rewrite Hc. reflexivity. }
  rewrite H.
  destruct (run (case_navigate data) s) as [s' [[] | m | c]] eqn:Hrun; try exact I.
  exact (navigate_done data s s' Hrun).
Qed.

(** X18. The url of a [navigate] Response is the address the daemon
    remembers: when the dispatch of a [navigate] request ends with a
    success Response, [lastURL] is the url that Response reports, also when
    the successful load was the retry after a restart. *)
Theorem navigate_response_reports_lastURL
  (command data : jsval) (s : St E) (url title : string) :
  destructure_command command = Ok (JStr "navigate", data) ->
  result_file (files (after (executeCommand command) s)) = Some (RNavigated url title) ->
  lastURL (vars (after (executeCommand command) s)) = url.
Proof.
  intros Hc. unfold after. rewrite run_executeCommand.
  pose proof (navigate_answer command data s Hc) as H1.
  destruct (run (executeCommandInner command) s) as [s1 [[] | m | c]] eqn:R1.
  - destruct H1 as (u1 & t1 & s0 & -> & Hl). cbn. intros H. inversion H. now subst.
  - destruct (session_lost m); [| cbn; discriminate].
    destruct (run ensureBrowserReady (retry_announced s1)) as [s2 [[] | m2 | c]] eqn:R2.
    + pose proof (navigate_answer command data s2 Hc) as H2.
      destruct (run (executeCommandInner command) s2) as [s3 [[] | m3 | c]] eqn:R3.
      * destruct H2 as (u1 & t1 & s0 & -> & Hl). cbn. intros H. inversion H. now subst.
      * cbn. discriminate.
      * exfalso.
        apply (never_halts E _ (executeCommandInner_stays command) s2 c).
        now rewrite R3.
    + cbn. discriminate.
    + exfalso.
      apply (never_halts E _ ensureBrowserReady_stays (retry_announced s1) c).
      now rewrite R2.
  - exfalso. apply (never_halts E _ (executeCommandInner_stays command) s c).
    now rewrite R1.
Qed.

End Responses.

(** The status after a script has logged one line. *)
Lemma status_counts_what_console_returns_witness :
  let s := after (executeCommand (exec_request (JStr "console.log hello")))
                 Scenario.running in
  let s' := after (executeCommand status_request) s in
  result_file (files s') = Some (RStatus "about:blank" "Title of about:blank" 1) /\
  length (consoleLogs (vars s')) = 1%nat /\
  result_file (files (after (executeCommand console_request) s'))
  = Some (RLogs (consoleLogs (vars s'))).
Proof.
  intros s s'.
  assert (H : result_file (files s')
              = Some (RStatus "about:blank" "Title of about:blank" 1))
    by (vm_compute; reflexivity).
  split; [exact H |].
  destruct (status_counts_what_console_returns Toy.engine s
              "about:blank" "Title of about:blank" 1 H) as [Hn Hc].
  split; [symmetry; exact Hn | exact Hc].
Defined.

(** A navigation that succeeds only after the restart of the closed
    window. *)
Lemma navigate_response_reports_lastURL_witness :
  let command := navigate_request (JStr "http://localhost:8080/") in
  let s' := after (executeCommand command) Scenario.window_closed in
  destructure_command command
  = Ok (JStr "navigate", JObj [("url", JStr "http://localhost:8080/")]) /\
  result_file (files s')
  = Some (RNavigated "http://localhost:8080/" "Title of http://localhost:8080/") /\
  lastURL (vars s') = "http://localhost:8080/".
Proof.
  intros command s'.
  assert (H1 : destructure_command command
               = Ok (JStr "navigate", JObj [("url", JStr "http://localhost:8080/")]))
    by reflexivity.
  assert (H2 : result_file (files s')
               = Some (RNavigated "http://localhost:8080/"
                         "Title of http://localhost:8080/"))
    by (vm_compute; reflexivity).
  split; [exact H1 |]. split; [exact H2 |].
  exact (navigate_response_reports_lastURL Toy.engine command _ Scenario.window_closed
           _ _ H1 H2).
Defined.

(** ** One request, one callback *)

Section Overlapping.

Variable E : Engine.

Lemma perform_command_file {X : Type} (op : Op X) (s : St E) :
  command_file (files s) = None -> command_file (files (fst (perform op s))) = None.
Proof.
  intros H. destruct (perform_files E op s) as (Hf & _). rewrite Hf.
  now apply exec_op_command_file.
Qed.

Lemma advance_command_file (p : Prog unit) :
  forall s : St E,
    command_file (files s) = None -> command_file (files (fst (advance p s))) = None.
Proof.
  induction p as [a | m | c0 | k IH | g k IH | X op k IH]; intros s H; cbn; auto.
  destruct (is_await op); [exact H |].
  pose proof (perform_command_file op s H) as H1.
  destruct (perform op s) as [s' x]. apply IH. exact H1.
Qed.

Lemma resume_command_file (p : Prog unit) (s : St E) :
  command_file (files s) = None -> command_file (files (fst (resume p s))) = None.
Proof.
  intros H. destruct p as [a | m | c0 | k | g k | X op k]; cbn; auto.
  pose proof (perform_command_file op s H) as H1.
  destruct (perform op s) as [s' x]. now apply advance_command_file.
Qed.

Lemma advance_tick_consumes parse d (s : St E) :
  command_file (files s) = Some d ->
  advance (tick parse) s = advance (process parse d) (consumed d s).
Proof.
  intros H. unfold tick.
  repeat (cbn; unfold perform, perform_with; cbn; rewrite ?H).
  reflexivity.
Qed.

Lemma advance_tick parse (s : St E) :
  command_file (files (fst (advance (tick parse) s))) = None.
Proof.
  destruct (command_file (files s)) as [d |] eqn:H.
  - rewrite (advance_tick_consumes parse d s H). apply advance_command_file.
    unfold consumed. cbn. destruct (files s); reflexivity.
  - now apply advance_command_file.
Qed.

Lemma turn_command_file (t : Turn E) (l : Loop E) :
  match t with Write _ => False | _ => True end ->
  command_file (files (proc l)) = None ->
  command_file (files (proc (turn t l))) = None.
Proof.
  intros Ht H. unfold turn. destruct (exit_code (proc l)); [exact H |].
  destruct t as [| i | d | w]; try contradiction.
  - pose proof (advance_tick (JSON_parse E) (proc l)) as Ha.
    destruct (advance (tick (JSON_parse E)) (proc l)) as [s p]. exact Ha.
  - destruct (nth_error (callbacks l) i) as [p |]; [| exact H].
    pose proof (resume_command_file p (proc l) H) as Hr.
    destruct (resume p (proc l)) as [s p']. exact Hr.
  - exact H.
Qed.

(** X19. A request is taken by one callback only, also when callbacks
    overlap.  The callback that finds the command file reads and deletes it
    before its first [await], so that when it yields the file is gone; the
    callbacks that fire or resume afterwards, in whatever order, find no
    request until a client writes the next one. *)
Theorem request_is_taken_by_one_callback (l : Loop E) (ts : list (Turn E)) :
  exit_code (proc l) = None ->
  unwritten ts ->
  command_file (files (proc (turn Fire l))) = None /\
  command_file (files (proc (turns ts (turn Fire l)))) = None.
Proof.
  intros Hx Hu.
  assert (H : command_file (files (proc (turn Fire l))) = None).
  { unfold turn. rewrite Hx.
    pose proof (advance_tick (JSON_parse E) (proc l)) as Ha.
    destruct (advance (tick (JSON_parse E)) (proc l)) as [s p]. exact Ha. }
  split; [exact H |].
  revert H. generalize (turn Fire l). unfold turns.
  induction Hu as [| t ts Ht Hu IH]; intros l0 H; cbn [fold_left]; [exact H |].
  apply IH. now apply turn_command_file.
Qed.

End Overlapping.

(** Two callbacks overlap while the window is closed: the status request
    is taken by the first. *)
Lemma request_is_taken_by_one_callback_witness :
  let l := turn (Write (Toy.request_text "status" [])) Scenario.idle_loop in
  let ts := [Complete 0; Fire; Complete 0; Complete 1; Fire] in
  exit_code (proc l) = None /\
  unwritten ts /\
  command_file (files (proc l)) = Some (Toy.request_text "status" []) /\
  command_file (files (proc (turns ts (turn Fire l)))) = None.
Proof.
  intros l ts.
  assert (Hx : exit_code (proc l) = None) by (vm_compute; reflexivity).
  assert (Hu : unwritten ts) by (repeat constructor).
  split; [exact Hx |]. split; [exact Hu |]. split; [vm_compute; reflexivity |].
  exact (proj2 (request_is_taken_by_one_callback Toy.engine l ts Hx Hu)).
Defined.

(** ** A dispatch while its calls are pending *)

Section Pending.

Variable E : Engine.

Lemma answers_once_last {A : Type} (p : Prog A) :
  answers_once p -> answers_last (fun _ => True) p.
Proof.
  induction p as [a | m | c0 | k IH | g k IH | X op k IH]; cbn; auto.
  destruct op; auto. destruct f; auto.
Qed.

Lemma answers_once_try_catch (ok : Response -> Prop) {A : Type}
  (p : Prog A) (h : string -> Prog A) :
  answers_last ok p -> (forall m, answers_once (h m)) -> answers_once (try_catch p h).
Proof.
  intros Hp Hh.
  induction p as [a | m | c0 | k IH | g k IH | X op k IH]; cbn in *; auto.
  destruct op; try (intros x; apply IH, Hp).
  - destruct f; try (intros x; apply IH, Hp). contradiction.
  - destruct Hp as [_ Hp]. intros x. destruct (Hp x) as [a Ha]. rewrite Ha. now exists a.
Qed.

Lemma answers_last_bind (ok : Response -> Prop) {A B : Type} (p : Prog A) (f : A -> Prog B) :
  within leaves_result any_put p -> (forall a, answers_last ok (f a)) ->
  answers_last ok (bind p f).
Proof.
  intros Hp Hf.
  induction p as [a | m | c0 | k IH | g k IH | X op k IH]; cbn in *; auto.
  - apply IH, Hp.
  - destruct Hp as [Hop Hk].
    destruct op; cbn in Hop; try contradiction; try (intros x; apply IH, Hk).
    destruct f0; cbn in Hop; try contradiction; intros x; apply IH, Hk.
Qed.

Lemma executeCommand_answers_once (command : jsval) : answers_once (executeCommand command).
Proof.
  unfold executeCommand.
  apply (answers_once_try_catch _ _ _ (executeCommandInner_answers_last command)).
  intros m. destruct (session_lost m).
  - unfold console_log, perform_op. cbn [bind answers_once]. intros _.
    apply (answers_once_try_catch (fits_command command)).
    + apply answers_last_bind.
      * exact ensureBrowserReady_leaves_result.
      * intros _. apply executeCommandInner_answers_last.
    + intros m'. cbn. intros x. now exists x.
  - cbn. intros x. now exists x.
Qed.

Lemma process_answers_once parse (d : string) : answers_once (process parse d).
Proof.
  unfold process. apply (answers_once_try_catch (fun _ => True)).
  - destruct (parse d) as [command | m]; cbn; [| exact I].
    apply answers_once_last, executeCommand_answers_once.
  - intros m. cbn. intros _ x. now exists x.
Qed.

(** A program that answers once, run up to the next call it awaits. *)
Lemma answers_once_advance (p : Prog unit) :
  answers_once p ->
  forall s : St E,
    (suspended (snd (advance p s)) = true /\ answers_once (snd (advance p s)) /\
     count_events is_write_result (trace (fst (advance p s)))
     = count_events is_write_result (trace s) /\
     result_file (files (fst (advance p s))) = result_file (files s)) \/
    (snd (advance p s) = Ret tt /\
     exists r s0,
       fst (advance p s) = answered r s0 /\
       count_events is_write_result (trace s0) = count_events is_write_result (trace s)).
Proof.
  induction p as [a | m | c0 | k IH | g k IH | X op k IH]; intros W s; cbn in *;
    try contradiction.
  - apply IH, W.
  - exact (IH W (with_vars (g (vars s)) s)).
  - destruct (is_await op) eqn:Hw.
    + left. cbn. repeat split; auto.
    + assert (Hother : leaves_result X op -> (forall x, answers_once (k x)) ->
                (suspended (snd (let '(s', x) := perform op s in advance (k x) s')) = true /\
                 answers_once (snd (let '(s', x) := perform op s in advance (k x) s')) /\
                 count_events is_write_result
                   (trace (fst (let '(s', x) := perform op s in advance (k x) s')))
                 = count_events is_write_result (trace s) /\
                 result_file (files (fst (let '(s', x) := perform op s in advance (k x) s')))
                 = result_file (files s)) \/
                (snd (let '(s', x) := perform op s in advance (k x) s') = Ret tt /\
                 exists r s0,
                   fst (let '(s', x) := perform op s in advance (k x) s') = answered r s0 /\
                   count_events is_write_result (trace s0)
                   = count_events is_write_result (trace s))).
      { intros Hop Hk. destruct (leaves_result_step E op s Hop) as [Hc Hr].
        destruct (perform op s) as [s1 x]. cbn [fst] in Hc, Hr.
        destruct (IH x (Hk x) s1) as [(H1 & H2 & H3 & H4) | (H1 & r & s0 & H2 & H3)].
        - left. split; [exact H1 | split; [exact H2 | split; congruence]].
        - right. split; [exact H1 |]. exists r, s0. split; [exact H2 | congruence]. }
      destruct op; try (apply Hother; [exact I | exact W]); try discriminate.
      * destruct f; try (apply Hother; [exact I | exact W]). contradiction.
      * right. unfold perform. rewrite perform_write_result.
        destruct (W tt) as [[] Ha]. rewrite Ha. cbn.
        split; [reflexivity |]. exists r, s. split; reflexivity.
Qed.

(** The same from a suspended callback whose awaited call completes, in
    whatever state that happens. *)
Lemma answers_once_resume (p : Prog unit) :
  answers_once p -> suspended p = true ->
  forall s : St E,
    (suspended (snd (resume p s)) = true /\ answers_once (snd (resume p s)) /\
     count_events is_write_result (trace (fst (resume p s)))
     = count_events is_write_result (trace s) /\
     result_file (files (fst (resume p s))) = result_file (files s)) \/
    (snd (resume p s) = Ret tt /\
     exists r s0,
       fst (resume p s) = answered r s0 /\
       count_events is_write_result (trace s0) = count_events is_write_result (trace s)).
Proof.
  intros W Hs s. destruct p as [a | m | c0 | k | g k | X op k]; try discriminate.
  cbn in W. cbn [resume].
  assert (Hother : leaves_result X op -> (forall x, answers_once (k x)) ->
              (suspended (snd (let '(s', x) := perform op s in advance (k x) s')) = true /\
               answers_once (snd (let '(s', x) := perform op s in advance (k x) s')) /\
               count_events is_write_result
                 (trace (fst (let '(s', x) := perform op s in advance (k x) s')))
               = count_events is_write_result (trace s) /\
               result_file (files (fst (let '(s', x) := perform op s in advance (k x) s')))
               = result_file (files s)) \/
              (snd (let '(s', x) := perform op s in advance (k x) s') = Ret tt /\
               exists r s0,
                 fst (let '(s', x) := perform op s in advance (k x) s') = answered r s0 /\
                 count_events is_write_result (trace s0)
                 = count_events is_write_result (trace s))).
  { intros Hop Hk. destruct (leaves_result_step E op s Hop) as [Hc Hr].
    destruct (perform op s) as [s1 x]. cbn [fst] in Hc, Hr.
    destruct (answers_once_advance (k x) (Hk x) s1)
      as [(H1 & H2 & H3 & H4) | (H1 & r & s0 & H2 & H3)].
    - left. split; [exact H1 | split; [exact H2 | split; congruence]].
    - right. split; [exact H1 |]. exists r, s0. split; [exact H2 | congruence]. }
  destruct op; try (apply Hother; [exact I | exact W]).
  - destruct f; try (apply Hother; [exact I | exact W]). contradiction.
  - right. unfold perform. rewrite perform_write_result.
    destruct (W tt) as [[] Ha]. rewrite Ha. cbn.
    split; [reflexivity |]. exists r, s. split; reflexivity.
Qed.

Lemma completions_state (s : St E) (n : nat) :
  forall sp : St E * Prog unit,
    (dispatch_state s sp /\ (suspended (snd sp) = true -> answers_once (snd sp))) ->
    dispatch_state s (completions n sp) /\
    (suspended (snd (completions n sp)) = true -> answers_once (snd (completions n sp))).
Proof.
  induction n as [| n IH]; intros sp H; [exact H |].
  cbn [completions]. apply IH. destruct sp as [s1 p1]. cbn [fst snd] in *.
  destruct H as [[(Hs & Hc & Hr) | (Hp & r & s0 & H1 & H2)] Ha].
  - cbn in Hs, Hc, Hr. destruct (answers_once_resume p1 (Ha Hs) Hs s1)
      as [(K1 & K2 & K3 & K4) | (K1 & r & s0 & K2 & K3)].
    + split; [| intros _; exact K2]. left.
      split; [exact K1 | split; [rewrite K3; exact Hc | rewrite K4; exact Hr]].
    + split; [| rewrite K1; discriminate]. right. split; [exact K1 |].
      exists r, s0. split; [exact K2 | rewrite K3; exact Hc].
  - cbn in Hp, H1. subst p1. cbn. split; [| discriminate].
    right. split; [reflexivity |]. now exists r, s0.
Qed.

Lemma pending_or_answered (p : Prog unit) (s : St E) (n : nat) :
  answers_once p -> dispatch_state s (after_completions n p s).
Proof.
  intros W. unfold after_completions.
  apply (completions_state s n (advance p s)).
  destruct (answers_once_advance p W s) as [(H1 & H2 & H3 & H4) | (H1 & r & s0 & H2 & H3)].
  - split; [| intros _; exact H2]. left. auto.
  - split; [| rewrite H1; discriminate]. right. split; [exact H1 |]. now exists r, s0.
Qed.

Lemma completions_command_file (n : nat) :
  forall sp : St E * Prog unit,
    command_file (files (fst sp)) = None ->
    command_file (files (fst (completions n sp))) = None.
Proof.
  induction n as [| n IH]; intros sp H; [exact H |].
  cbn [completions]. apply IH. now apply resume_command_file.
Qed.

(** X1. A dispatch never throws and never ends the process, and it calls
    [writeResult] at most once, as the last thing it does.  As long as one
    of the calls it awaits is pending -- [page.evaluate] has no timeout and
    need not settle -- the dispatch has written no Response and the result
    file is as it was; once they have all completed, [executeCommand] has
    returned with exactly one Response written, which the result file
    holds. *)
Theorem every_dispatch_is_answered_once (command : jsval) (s : St E) :
  (forall n, dispatch_state s (after_completions n (executeCommand command) s)) /\
  exists r s0,
    run (executeCommand command) s = (answered r s0, Done tt) /\
    result_file (files (after (executeCommand command) s)) = Some r /\
    count_events is_write_result (trace (after (executeCommand command) s))
    = S (count_events is_write_result (trace s)).
Proof.
  split.
  - intros n. apply pending_or_answered, executeCommand_answers_once.
  - apply completed_dispatch.
Qed.

(** X2. An interval callback that finds a request has deleted the command
    file when it first yields, and it never throws and never ends the
    process.  As long as one of the calls it awaits is pending it has
    written no Response; once they have all completed it has returned
    with exactly one Response written, as its last action, whether the
    request could be decoded or not.  A callback that finds no request
    changes no file and writes nothing. *)
Theorem every_request_is_answered_once (parse : string -> result jsval) (s : St E) :
  (forall d, command_file (files s) = Some d ->
     (forall n,
        command_file (files (fst (after_completions n (tick parse) s))) = None /\
        dispatch_state s (after_completions n (tick parse) s)) /\
     exists r s0,
       run (tick parse) s = (answered r s0, Done tt) /\
       command_file (files (after (tick parse) s)) = None /\
       result_file (files (after (tick parse) s)) = Some r /\
       count_events is_write_result (trace (after (tick parse) s))
       = S (count_events is_write_result (trace s))) /\
  (command_file (files s) = None ->
     snd (run (tick parse) s) = Done tt /\
     files (after (tick parse) s) = files s /\
     count_events is_write_result (trace (after (tick parse) s))
     = count_events is_write_result (trace s)).
Proof.
  destruct (completed_callback E parse s) as [H1 H2].
  split; [| exact H2].
  intros d Hd. split; [| exact (H1 d Hd)].
  intros n. unfold after_completions. split.
  - apply completions_command_file, advance_tick.
  - rewrite (advance_tick_consumes E parse d s Hd).
    pose proof (pending_or_answered (process parse d) (consumed d s) n
                  (process_answers_once parse d)) as H.
    unfold after_completions in H. exact H.
Qed.

End Pending.

(** A [status] request arrives while the window is closed: the callback
    that takes it restarts the browser, and stays without a Response until
    the last of its calls has completed. *)
Lemma every_request_is_answered_once_witness :
  let s := react (ClientWrites (Toy.request_text "status" [])) Scenario.window_closed in
  command_file (files s) = Some (Toy.request_text "status" []) /\
  dispatch_state s (after_completions 3 (tick Toy.parse) s) /\
  suspended (snd (after_completions 3 (tick Toy.parse) s)) = true /\
  command_file (files (fst (after_completions 3 (tick Toy.parse) s))) = None /\
  command_file (files (after (tick Toy.parse) s)) = None /\
  count_events is_write_result (trace (after (tick Toy.parse) s))
  = S (count_events is_write_result (trace s)).
Proof.
  intros s.
  assert (H : command_file (files s) = Some (Toy.request_text "status" []))
    by (vm_compute; reflexivity).
  split; [exact H |].
  destruct (proj1 (every_request_is_answered_once Toy.engine Toy.parse s)
              (Toy.request_text "status" []) H) as (Hp & r & s0 & _ & Hc & _ & Hn).
  destruct (Hp 3%nat) as [Hf Hd].
  split; [exact Hd |]. split; [vm_compute; reflexivity |].
  split; [exact Hf |]. split; [exact Hc | exact Hn].
Defined.

(** ** What a startup leaves, and which errors count as a lost session *)

Section Startup.

Variable E : Engine.

(** X20. A startup that succeeds ends by sizing the viewport of the page
    it holds to the available width and height it measured on that very
    page, and then binding the two listeners on it: these are its last
    calls, so that the page is fitted and listened to when [startBrowser]
    returns. *)
Theorem startup_fits_and_listens_to_the_held_page (s sb : St E) :
  run startBrowser s = (sb, Done tt) ->
  exists p sz rest,
    page (vars sb) = Some p /\
    trace sb
    = (Ev (On p) tt
       :: Ev (ConsoleLog [JStr ""]) tt
       :: Ev (ConsoleLog [JStr "Viewport set to screen size"]) tt
       :: Ev (SetViewportSize p (JNum (availWidth sz)) (JNum (availHeight sz))) (Ok tt)
       :: rest)%list /\
    In (Ev (Screen p) (Ok sz)) rest.
Proof.
  unfold startBrowser, run. cbn. sync. cbn.
  step. destruct x as [b | m]; cbn; [| discriminate].
  step. destruct x as [c | m]; cbn; [| discriminate].
  step. destruct x as [p | m]; cbn; [| discriminate].
  pose proof (perform_vars_fields E (Screen p) (with_vars (set_page (Some p) (vars s2)) s2))
    as (_ & _ & Hpage & _).
  pose proof (perform_effect E (Screen p) (with_vars (set_page (Some p) (vars s2)) s2))
    as (new1 & _ & Ht1 & _).
  unfold perform in Hpage, Ht1.
  step. cbn [fst snd] in Hpage, Ht1.
  destruct x as [sz | m]; cbn; [| discriminate].
  sync. cbn. rewrite Hpage. cbn.
  match goal with
  | |- context [perform_with deliver (SetViewportSize p ?w ?h) ?sa] =>
      pose proof (perform_vars_fields E (SetViewportSize p w h) sa) as (_ & _ & Hpage' & _);
      pose proof (perform_effect E (SetViewportSize p w h) sa) as (new2 & _ & Ht2 & _)
  end.
  unfold perform in Hpage', Ht2.
  step. cbn [fst snd] in Hpage', Ht2.
  destruct x as [[] | m]; cbn; [| discriminate].
  sync. cbn. rewrite Hpage'. cbn. rewrite Hpage. cbn. sync.
  intros H. inversion H. subst sb. clear H.
  exists p, sz. eexists. split; [| split].
  - cbn. rewrite Hpage'. cbn. exact Hpage.
  - cbn. rewrite Ht2. reflexivity.
  - apply in_or_app. right. cbn. rewrite Ht1. right. right. left. reflexivity.
Qed.

End Startup.

Lemma starts_with_prefix (needle s : string) :
  starts_with needle s = true <-> exists post, s = needle ++ post.
Proof.
  revert s. induction needle as [| a needle IH]; intros s; cbn.
  - split; [intros _; now exists s | reflexivity].
  - destruct s as [| b s]; [split; [discriminate | intros [post H]; discriminate] |].
    rewrite andb_true_iff, Ascii.eqb_eq, IH. split.
    + intros [-> [post ->]]. now exists post.
    + intros [post H]. inversion H. split; [reflexivity | now exists post].
Qed.

Lemma includes_unfold (s needle : string) :
  includes s needle
  = starts_with needle s
    || match s with
       | EmptyString => false
       | String _ s' => includes s' needle
       end.
Proof. destruct s; reflexivity. Qed.

Lemma includes_substring (s needle : string) :
  includes s needle = true <-> exists pre post, s = pre ++ needle ++ post.
Proof.
  split.
  - induction s as [| c s IH]; rewrite includes_unfold, orb_true_iff.
    + intros [H | H]; [| discriminate].
      apply starts_with_prefix in H. destruct H as [post H]. now exists "", post.
    + intros [H | H].
      * apply starts_with_prefix in H. destruct H as [post H]. now exists "", post.
      * destruct (IH H) as (pre & post & ->). now exists (String c pre), post.
  - intros (pre & post & ->). induction pre as [| c pre IH].
    + rewrite includes_unfold. apply orb_true_iff. left.
      apply starts_with_prefix. now exists post.
    + cbn [append]. rewrite includes_unfold. apply orb_true_iff. right. exact IH.
Qed.

(** X21. The dispatcher takes an error for the loss of the session exactly
    when its message contains [closed] or [disconnected] somewhere, in
    lower case, whatever stands before and after: the text is all that is
    looked at, not where the error came from. *)
Theorem session_lost_iff_message_mentions_it (m : string) :
  session_lost m = true <->
  exists pre post, m = pre ++ "closed" ++ post \/ m = pre ++ "disconnected" ++ post.
Proof.
  unfold session_lost. rewrite orb_true_iff, !includes_substring. split.
  - intros [(pre & post & H) | (pre & post & H)]; exists pre, post; auto.
  - intros (pre & post & [H | H]); [left | right]; now exists pre, post.
Qed.

(** The first startup on the small engine. *)
Lemma startup_fits_and_listens_to_the_held_page_witness :
  let s := fresh (E := Toy.engine) Toy.machine no_files in
  let sb := fst (run startBrowser s) in
  run startBrowser s = (sb, Done tt) /\
  exists p sz rest,
    page (vars sb) = Some p /\
    trace sb
    = (Ev (On p) tt
       :: Ev (ConsoleLog [JStr ""]) tt
       :: Ev (ConsoleLog [JStr "Viewport set to screen size"]) tt
       :: Ev (SetViewportSize p (JNum (availWidth sz)) (JNum (availHeight sz))) (Ok tt)
       :: rest)%list /\
    In (Ev (Screen p) (Ok sz)) rest.
Proof.
  intros s sb.
  assert (H : run startBrowser s = (sb, Done tt)) by (vm_compute; reflexivity).
  split; [exact H |].
  exact (startup_fits_and_listens_to_the_held_page Toy.engine s sb H).
Defined.
